(** * Conversion of remote Wasm extension configs to local files

    A shallow embedding of the conversion adapter of [pkg/wasm]
    ([MaybeConvertWasmExtensionConfig], [tryUnmarshal],
    [convertWasmConfigFromRemoteToLocal], [containsWamrAotInCustomSection])
    and of the pull-secret substitution done upstream by
    [InsertedExtensionConfigurations].

    Protobuf messages are records, Go maps are [gmap]s (a nil-able map is an
    [option]), [oneof]s are inductive types.  Collaborators that live outside
    the modelled files (protobuf codec, go-version, wazero, the fetch cache,
    the file system) are interfaces; the code is embedded over them. *)

From Stdlib Require Import ZArith String Ascii.
From stdpp Require Import base option list gmap strings relations.

Local Open Scope string_scope.

(** ** Go strings *)

(** [strings.HasPrefix(s, prefix)] *)
Definition HasPrefix (s prefix : string) : bool := String.prefix prefix s.

(** [s[n:]] on a string at least [n] bytes long *)
Fixpoint string_drop (n : nat) (s : string) : string :=
  match n, s with
  | O, _ => s
  | S n', String _ s' => string_drop n' s'
  | S _, EmptyString => EmptyString
  end.

(** [strings.TrimPrefix(s, prefix)] *)
Definition TrimPrefix (s prefix : string) : string :=
  if HasPrefix s prefix then string_drop (String.length prefix) s else s.

(** ** Protobuf messages (the fields the adapter touches) *)

(** [anypb.Any] *)
Record Any := mkAny {
  any_TypeUrl : string;
  any_Value : list Byte.byte
}.

(** [durationpb.Duration] *)
Record DurationPb := mkDurationPb {
  dur_Seconds : Z;
  dur_Nanos : Z
}.

(** [core.HttpUri] *)
Record HttpUri := mkHttpUri {
  hu_Uri : string;
  hu_Timeout : option DurationPb
}.

(** [core.RemoteDataSource] *)
Record RemoteDataSource := mkRemoteDataSource {
  rds_HttpUri : option HttpUri;
  rds_Sha256 : string
}.

(** [core.DataSource]: a oneof that may be unset *)
Inductive DataSource :=
| DataSource_unset
| DataSource_Filename (Filename : string)
| DataSource_InlineBytes (InlineBytes : list Byte.byte)
| DataSource_InlineString (InlineString : string)
| DataSource_EnvironmentVariable (EnvironmentVariable : string).

(** [core.AsyncDataSource]: a oneof that may be unset *)
Inductive AsyncDataSource :=
| AsyncDataSource_unset
| AsyncDataSource_Local (Local : DataSource)
| AsyncDataSource_Remote (Remote : RemoteDataSource).

(** [wasm.EnvironmentVariables]; [KeyValues] is a Go map and may be nil *)
Record EnvironmentVariables := mkEnvironmentVariables {
  env_HostEnvKeys : list string;
  env_KeyValues : option (gmap string string)
}.

(** [wasm.VmConfig] *)
Record VmConfig := mkVmConfig {
  vm_VmId : string;
  vm_Runtime : string;
  vm_Code : option AsyncDataSource;
  vm_Configuration : option Any;
  vm_AllowPrecompiled : bool;
  vm_NackOnCodeCacheMiss : bool;
  vm_EnvironmentVariables : option EnvironmentVariables
}.

(** [wasm.PluginConfig] *)
Record PluginConfig := mkPluginConfig {
  pc_Name : string;
  pc_RootId : string;
  pc_VmConfig : option VmConfig;
  pc_Configuration : option Any;
  pc_FailOpen : bool
}.

(** [wasm.Wasm], the Wasm HTTP filter *)
Record Wasm := mkWasm {
  wasm_Config : option PluginConfig
}.

(** [core.TypedExtensionConfig] *)
Record TypedExtensionConfig := mkTypedExtensionConfig {
  ec_Name : string;
  ec_TypedConfig : option Any
}.

(** [structpb.Value]; a number is kept as its IEEE-754 bit pattern *)
#[local] Unset Elimination Schemes.
Inductive PbValue :=
| PbNull
| PbNumber (bits : Z)
| PbString (s : string)
| PbBool (b : bool)
| PbStruct (fields : list (string * PbValue))
| PbList (values : list PbValue).
#[local] Set Elimination Schemes.

(** [udpa.TypedStruct] *)
Record TypedStruct := mkTypedStruct {
  ts_TypeUrl : string;
  ts_Value : option PbValue
}.

(** Nil-safe getters, as protoc generates them *)
Definition GetVmConfig (c : option PluginConfig) : option VmConfig :=
  c ≫= pc_VmConfig.

Definition GetCode (vm : option VmConfig) : option AsyncDataSource :=
  vm ≫= vm_Code.

Definition GetRemote (c : option AsyncDataSource) : option RemoteDataSource :=
  match c with
  | Some (AsyncDataSource_Remote r) => Some r
  | _ => None
  end.

Definition GetLocal (c : option AsyncDataSource) : option DataSource :=
  match c with
  | Some (AsyncDataSource_Local l) => Some l
  | _ => None
  end.

Definition GetEnvironmentVariables (vm : option VmConfig)
  : option EnvironmentVariables :=
  vm ≫= vm_EnvironmentVariables.

Definition GetHttpUri (r : option RemoteDataSource) : option HttpUri :=
  r ≫= rds_HttpUri.

(** [v, found := m[k]] on a possibly nil map *)
Definition map_index (m : option (gmap string string)) (k : string)
  : option string :=
  m ≫= (λ kv, kv !! k).

(** [m[k]] with the zero value for a missing key *)
Definition map_index_default (m : option (gmap string string)) (k : string)
  : string :=
  default "" (map_index m k).

(** [len(m)] *)
Definition map_len (m : option (gmap string string)) : nat :=
  from_option size 0 m.

(** ** Errors *)

(** The [error] values of the adapter.  [LibError] stands for an error that
    a collaborator returned; each other constructor is one [fmt.Errorf]
    site, keeping the value it formats or wraps; [MultiError] is
    [*multierror.Error]. *)
#[local] Unset Elimination Schemes.
Inductive error :=
| LibError (msg : string)
| ErrUnmarshalResource (wrapped : error)
| ErrNoTypedConfig (ec : TypedExtensionConfig)
| ErrUnmarshalWasmFilter (wrapped : error)
| ErrUnmarshalTypedStruct (wrapped : error)
| ErrStructToMessage (ts : TypedStruct)
| ErrNoRemoteAndLocal (w : Wasm)
| ErrMissingPullSecret (name : string)
| ErrNoHttpUri (remote : option RemoteDataSource)
| ErrCannotFetch (uri : string) (wrapped : error)
| ErrMarshalWasm (w : Wasm) (wrapped : error)
| ErrMarshalExtensionConfig (wrapped : error)
| MultiError (Errors : list error).
#[local] Set Elimination Schemes.

(** [multierror.Append(nil, errs...)]: a fresh [*Error] collecting the
    non-nil arguments in order (none of the adapter's errors is itself a
    [*multierror.Error], so nothing is flattened). *)
Definition multierror_Append_nil (errs : list (option error)) : list error :=
  omap id errs.

(** [ErrorOrNil] of [multierror.Error] *)
Definition ErrorOrNil (errs : list error) : option error :=
  match errs with
  | [] => None
  | _ => Some (MultiError errs)
  end.

(** ** Fetch options and metrics *)

(** [extensions.PullPolicy] is an [int32] enum *)
Abbreviation PullPolicy := Z (only parsing).
Definition PullPolicy_UNSPECIFIED_POLICY : PullPolicy := 0%Z.

(** [time.Duration], in nanoseconds *)
Definition time_Duration := Z.
Definition time_Second : time_Duration := 1000000000%Z.

(** [GetOptions] of the fetch cache *)
Record GetOptions := mkGetOptions {
  Checksum : string;
  ResourceName : string;
  ResourceVersion : string;
  RequestTimeout : time_Duration;
  PullSecret : list Byte.byte;
  opt_PullPolicy : PullPolicy
}.

(** Values of the [resultTag] label of [wasmConfigConversionCount] *)
Inductive ResultTag :=
| conversionSuccess
| noRemoteLoad
| marshalFailure
| unmarshalFailure
| fetchFailure
| missRemoteFetchHint.

(** Ingress constants *)
Definition wamrRuntime := "envoy.wasm.runtime.wamr".
Definition wamrAotPrefix := "wamr-aot-".
Definition wamrAot := "wamr-aot".
Definition wamrAotMaxVersion := "2.1.0".

(** ** Collaborators *)

(** Constants declared in [pilot/pkg/model], [pkg/bootstrap] and
    [pkg/config/xds], and the generated [extensions.PullPolicy_value]
    table (enum name to number). *)
Class Constants := {
  WasmSecretEnv : string;
  WasmPolicyEnv : string;
  WasmResourceVersionEnv : string;
  IstioMetaPrefix : string;
  WasmHTTPFilterType : string;
  TypedStructType : string;
  PullPolicy_value : gmap string Z
}.

(** The protobuf runtime: [UnmarshalTo] of [anypb.Any] at the three message
    types the adapter decodes, [conversion.StructToMessage] (its error is
    dropped by the caller), [anypb.New] at the two message types it
    encodes, [protoconv.MessageToAny] (which logs the error and returns nil
    when the message cannot be marshalled) and [AsDuration] of
    [durationpb.Duration]. *)
Class Protobuf := {
  UnmarshalTo_TypedExtensionConfig : Any → error + TypedExtensionConfig;
  UnmarshalTo_Wasm : Any → error + Wasm;
  UnmarshalTo_TypedStruct : Any → error + TypedStruct;
  StructToMessage : option PbValue → option Wasm;
  anypb_New_Wasm : Wasm → error + Any;
  anypb_New_TypedExtensionConfig : TypedExtensionConfig → error + Any;
  MessageToAny : Wasm → option Any;
  AsDuration : DurationPb → time_Duration
}.

(** [hashicorp/go-version]: [NewVersion] (nil on a parse error) and
    [LessThan] on two non-nil versions. *)
Class GoVersion := {
  Version : Type;
  NewVersion : string → option Version;
  LessThan : Version → Version → bool
}.

(** [wazero]: compiling a binary and listing the names of its custom
    sections in order; [None] when [CompileModule] returns an error. *)
Class Wazero := {
  CustomSectionNames : list Byte.byte → option (list string)
}.

(** The process state outside the batch: the fetch [Cache] (interface
    method [Get(uri, GetOptions) (string, error)], a call of which is one
    step of the world) and the files it manages ([os.ReadFile]; the error
    value is only logged). *)
Class World (W : Type) := {
  cache_Get : W → string → GetOptions → (error + string) * W;
  os_ReadFile : W → string → option (list Byte.byte)
}.

(** ** Programs

    A goroutine of the adapter is a tree of the effects it performs on
    state it shares with others: the cache, the files, the metric counter
    and the two slices of the batch.  [Panic] is a Go run-time panic: it
    ends the process (the deferred calls it still runs only touch
    in-process counters, which end with it). *)
Inductive prog (A : Type) : Type :=
| Ret (a : A)
| Panic
| CacheGet (uri : string) (opts : GetOptions) (k : error + string → prog A)
| ReadFile (path : string) (k : option (list Byte.byte) → prog A)
| Increment (tag : ResultTag) (k : prog A)
| LoadResource (i : nat) (k : Any → prog A)
| StoreResource (i : nat) (a : Any) (k : prog A)
| StoreErr (i : nat) (e : error) (k : prog A).

Arguments Ret {A} a.
Arguments Panic {A}.
Arguments CacheGet {A} uri opts k.
Arguments ReadFile {A} path k.
Arguments Increment {A} tag k.
Arguments LoadResource {A} i k.
Arguments StoreResource {A} i a k.
Arguments StoreErr {A} i e k.

Fixpoint bind {A B : Type} (p : prog A) (f : A → prog B) : prog B :=
  match p with
  | Ret a => f a
  | Panic => Panic
  | CacheGet uri opts k => CacheGet uri opts (λ x, bind (k x) f)
  | ReadFile path k => ReadFile path (λ x, bind (k x) f)
  | Increment tag k => Increment tag (bind k f)
  | LoadResource i k => LoadResource i (λ x, bind (k x) f)
  | StoreResource i a k => StoreResource i a (bind k f)
  | StoreErr i e k => StoreErr i e (bind k f)
  end.

(** ** The adapter *)

Section Adapter.
Context `{!Constants, !Protobuf, !GoVersion, !Wazero}.

(** [tryUnmarshal] returns the typed extension config and the Wasm config
    when [resource] loads a Wasm module from a remote site, [nil, nil,
    nil] (here [inr None]) when it is not for a remote Wasm, or an error. *)
Definition tryUnmarshal (resource : Any)
  : error + option (TypedExtensionConfig * Wasm) :=
  match UnmarshalTo_TypedExtensionConfig resource with
  | inl err => inl (ErrUnmarshalResource err)
  | inr ec =>
    let switch : error + option Wasm :=
      match ec_TypedConfig ec with
      | None => inl (ErrNoTypedConfig ec)
      | Some typedConfig =>
        if decide (any_TypeUrl typedConfig = WasmHTTPFilterType) then
          match UnmarshalTo_Wasm typedConfig with
          | inl err => inl (ErrUnmarshalWasmFilter err)
          | inr wasmHTTPFilterConfig => inr (Some wasmHTTPFilterConfig)
          end
        else if decide (any_TypeUrl typedConfig = TypedStructType) then
          match UnmarshalTo_TypedStruct typedConfig with
          | inl err => inl (ErrUnmarshalTypedStruct err)
          | inr typedStruct =>
            if decide (ts_TypeUrl typedStruct = WasmHTTPFilterType) then
              match StructToMessage (ts_Value typedStruct) with
              | None => inl (ErrStructToMessage typedStruct)
              | Some wasmHTTPFilterConfig => inr (Some wasmHTTPFilterConfig)
              end
            else inr None
          end
        else inr None
      end in
    match switch with
    | inl err => inl err
    | inr None => inr None
    | inr (Some wasmHTTPFilterConfig) =>
      let code := GetCode (GetVmConfig (wasm_Config wasmHTTPFilterConfig)) in
      match GetRemote code with
      | None =>
        match GetLocal code with
        | None => inl (ErrNoRemoteAndLocal wasmHTTPFilterConfig)
        | Some _ => inr None
        end
      | Some _ => inr (Some (ec, wasmHTTPFilterConfig))
      end
    end
  end.

(** The loop over the custom sections of the compiled module.  The error
    of [NewVersion(wamrAotMaxVersion)] is dropped: on an error [maxVersion]
    is nil, and [LessThan] dereferences it. *)
Fixpoint scanCustomSections (sections : list string) : prog bool :=
  match sections with
  | [] => Ret false
  | name :: rest =>
    if HasPrefix name wamrAotPrefix then
      let versionPart := TrimPrefix name wamrAotPrefix in
      match NewVersion versionPart with
      | None => Ret false
      | Some v1 =>
        match NewVersion wamrAotMaxVersion with
        | Some maxVersion => Ret (LessThan v1 maxVersion)
        | None => Panic
        end
      end
    else if decide (name = wamrAot) then Ret true
    else scanCustomSections rest
  end.

Definition containsWamrAotInCustomSection (wasmModulePath : string)
  : prog bool :=
  ReadFile wasmModulePath (λ read,
    match read with
    | None => Ret false
    | Some wasmBinary =>
      match CustomSectionNames wasmBinary with
      | None => Ret false
      | Some sections => scanCustomSections sections
      end
    end).

(** [for k := range m { if strings.HasPrefix(k, prefix) { delete(m, k) } }] *)
Definition deleteWithPrefix (prefix : string) (m : gmap string string)
  : gmap string string :=
  map_fold (λ k _ acc, if HasPrefix k prefix then delete k acc else acc) m m.

(** Field updates of [vm] as the function makes them in place. *)
Definition setEnvironmentVariables (vm : VmConfig)
    (envs : option EnvironmentVariables) : VmConfig :=
  mkVmConfig (vm_VmId vm) (vm_Runtime vm) (vm_Code vm) (vm_Configuration vm)
    (vm_AllowPrecompiled vm) (vm_NackOnCodeCacheMiss vm) envs.

Definition setCode (vm : VmConfig) (code : option AsyncDataSource)
  : VmConfig :=
  mkVmConfig (vm_VmId vm) (vm_Runtime vm) code (vm_Configuration vm)
    (vm_AllowPrecompiled vm) (vm_NackOnCodeCacheMiss vm)
    (vm_EnvironmentVariables vm).

Definition setWamrRuntime (vm : VmConfig) : VmConfig :=
  mkVmConfig (vm_VmId vm) wamrRuntime (vm_Code vm) (vm_Configuration vm)
    true (vm_NackOnCodeCacheMiss vm) (vm_EnvironmentVariables vm).

(** The Wasm config seen through [wasmHTTPFilterConfig] once [vm], which
    points into it, has been updated. *)
Definition withVmConfig (w : Wasm) (vm : VmConfig) : Wasm :=
  mkWasm ((λ c, mkPluginConfig (pc_Name c) (pc_RootId c) (Some vm)
                  (pc_Configuration c) (pc_FailOpen c)) <$> wasm_Config w).

(** The [if envs != nil] block: the pull secret, pull policy and resource
    version read from the environment, and the environment left in [vm]
    once the internal variables are stripped; or the missing-secret
    error. *)
Definition readAndStripEnvs (name : string) (vm : VmConfig)
  : error + (list Byte.byte * PullPolicy * string * VmConfig) :=
  match vm_EnvironmentVariables vm with
  | None => inr ([], PullPolicy_UNSPECIFIED_POLICY, "", vm)
  | Some envs =>
    let secret : error + list Byte.byte :=
      match map_index (env_KeyValues envs) WasmSecretEnv with
      | Some sec =>
        if decide (sec = "") then inl (ErrMissingPullSecret name)
        else inr (list_byte_of_string sec)
      | None => inr []
      end in
    match secret with
    | inl err => inl err
    | inr pullSecret =>
      let pullPolicy :=
        match map_index (env_KeyValues envs) WasmPolicyEnv with
        | Some ps =>
          match PullPolicy_value !! ps with
          | Some p => p
          | None => PullPolicy_UNSPECIFIED_POLICY
          end
        | None => PullPolicy_UNSPECIFIED_POLICY
        end in
      let resourceVersion :=
        map_index_default (env_KeyValues envs) WasmResourceVersionEnv in
      let keyValues := deleteWithPrefix IstioMetaPrefix <$> env_KeyValues envs in
      let vm' :=
        if decide (map_len keyValues = 0) then
          if decide (length (env_HostEnvKeys envs) = 0) then
            setEnvironmentVariables vm None
          else
            setEnvironmentVariables vm
              (Some (mkEnvironmentVariables (env_HostEnvKeys envs) None))
        else
          setEnvironmentVariables vm
            (Some (mkEnvironmentVariables (env_HostEnvKeys envs) keyValues)) in
      inr (pullSecret, pullPolicy, resourceVersion, vm')
    end
  end.

(** The end of [convertWasmConfigFromRemoteToLocal], from the result
    [hasWamrAotSection] of the inspection of the fetched file [f] on:
    select the runtime, rewrite the remote fetch to the local file and
    marshal the two messages. *)
Definition rewriteToLocal (ec : TypedExtensionConfig)
    (wasmHTTPFilterConfig : Wasm) (vm : VmConfig) (f : string)
    (hasWamrAotSection : bool) : prog (error + Any) :=
  let vm := if hasWamrAotSection then setWamrRuntime vm else vm in
  let vm :=
    setCode vm (Some (AsyncDataSource_Local (DataSource_Filename f))) in
  let wasmHTTPFilterConfig := withVmConfig wasmHTTPFilterConfig vm in
  match anypb_New_Wasm wasmHTTPFilterConfig with
  | inl err =>
    Increment marshalFailure
      (Ret (inl (ErrMarshalWasm wasmHTTPFilterConfig err)))
  | inr wasmTypedConfig =>
    let ec := mkTypedExtensionConfig (ec_Name ec) (Some wasmTypedConfig) in
    match anypb_New_TypedExtensionConfig ec with
    | inl err =>
      Increment marshalFailure (Ret (inl (ErrMarshalExtensionConfig err)))
    | inr nec => Increment conversionSuccess (Ret (inr nec))
    end
  end.

(** Every [return] runs the deferred increment of the counter with the
    status set just before it. *)
Definition convertWasmConfigFromRemoteToLocal (ec : TypedExtensionConfig)
    (wasmHTTPFilterConfig : Wasm) : prog (error + Any) :=
  match GetVmConfig (wasm_Config wasmHTTPFilterConfig) with
  | None =>
    (* vm is nil: so are envs, remote and httpURI *)
    Increment missRemoteFetchHint (Ret (inl (ErrNoHttpUri None)))
  | Some vm =>
    let name := from_option pc_Name "" (wasm_Config wasmHTTPFilterConfig) in
    match readAndStripEnvs name vm with
    | inl err => Increment fetchFailure (Ret (inl err))
    | inr (pullSecret, pullPolicy, resourceVersion, vm) =>
      let remote := GetRemote (vm_Code vm) in
      match remote, GetHttpUri remote with
      | Some remote, Some httpURI =>
        let remote :=
          if decide (rds_Sha256 remote = "nil")
          then mkRemoteDataSource (rds_HttpUri remote) ""
          else remote in
        let vm := setCode vm (Some (AsyncDataSource_Remote remote)) in
        let timeout :=
          match hu_Timeout httpURI with
          | Some t => AsDuration t
          | None => (time_Second * 5)%Z
          end in
        CacheGet (hu_Uri httpURI)
          {| Checksum := rds_Sha256 remote;
             ResourceName := ec_Name ec;
             ResourceVersion := resourceVersion;
             RequestTimeout := timeout;
             PullSecret := pullSecret;
             opt_PullPolicy := pullPolicy |}
          (λ got,
            match got with
            | inl err =>
              Increment fetchFailure
                (Ret (inl (ErrCannotFetch (hu_Uri httpURI) err)))
            | inr f =>
              bind (containsWamrAotInCustomSection f)
                (rewriteToLocal ec wasmHTTPFilterConfig vm f)
            end)
      | _, _ =>
        Increment missRemoteFetchHint (Ret (inl (ErrNoHttpUri remote)))
      end
    end
  end.

(** The body of the goroutine started for index [i]. *)
Definition goroutine (i : nat) : prog unit :=
  LoadResource i (λ resource,
    match tryUnmarshal resource with
    | inl err => Increment unmarshalFailure (StoreErr i err (Ret tt))
    | inr None => Increment noRemoteLoad (Ret tt)
    | inr (Some (extConfig, wasmConfig)) =>
      bind (convertWasmConfigFromRemoteToLocal extConfig wasmConfig)
        (λ converted,
          match converted with
          | inl err => StoreErr i err (Ret tt)
          | inr newExtensionConfig =>
            StoreResource i newExtensionConfig (Ret tt)
          end)
    end).
End Adapter.

(** ** Running a batch *)

(** What the goroutines of one call share. *)
Record state (W : Type) := mkState {
  st_world : W;
  st_counts : list ResultTag;
  st_resources : list Any;
  st_convertErrs : list (option error)
}.

Arguments mkState {W} _ _ _ _.
Arguments st_world {W} _.
Arguments st_counts {W} _.
Arguments st_resources {W} _.
Arguments st_convertErrs {W} _.

(** How [MaybeConvertWasmExtensionConfig] ends: it returns the error (the
    slice [resources] was rewritten in place), a goroutine panicked, or
    [wg.Wait] is still waiting. *)
Inductive outcome (W : Type) :=
| Returned (resources : list Any) (err : option error)
    (counts : list ResultTag) (w : W)
| Crashed
| Waiting.

Arguments Returned {W} _ _ _ _.
Arguments Crashed {W}.
Arguments Waiting {W}.

Definition finished {A : Type} (p : prog A) : bool :=
  match p with
  | Ret _ | Panic => true
  | _ => false
  end.

Definition returned {A : Type} (p : prog A) : bool :=
  match p with
  | Ret _ => true
  | _ => false
  end.

Definition panicked {A : Type} (p : prog A) : bool :=
  match p with
  | Panic => true
  | _ => false
  end.

Section Batch.
Context `{!Constants, !Protobuf, !GoVersion, !Wazero}.
Context {W : Type} `{!World W}.

(** One effect of a goroutine, performed atomically on the shared state.
    An index out of range panics. *)
Definition step_prog {A : Type} (σ : state W) (p : prog A)
  : state W * prog A :=
  match p with
  | Ret _ | Panic => (σ, p)
  | CacheGet uri opts k =>
    let '(got, w') := cache_Get (st_world σ) uri opts in
    (mkState w' (st_counts σ) (st_resources σ) (st_convertErrs σ), k got)
  | ReadFile path k => (σ, k (os_ReadFile (st_world σ) path))
  | Increment tag k =>
    (mkState (st_world σ) (tag :: st_counts σ) (st_resources σ)
       (st_convertErrs σ), k)
  | LoadResource i k =>
    match st_resources σ !! i with
    | Some resource => (σ, k resource)
    | None => (σ, Panic)
    end
  | StoreResource i a k =>
    if decide (i < length (st_resources σ)) then
      (mkState (st_world σ) (st_counts σ) (<[i:=a]> (st_resources σ))
         (st_convertErrs σ), k)
    else (σ, Panic)
  | StoreErr i e k =>
    if decide (i < length (st_convertErrs σ)) then
      (mkState (st_world σ) (st_counts σ) (st_resources σ)
         (<[i:=Some e]> (st_convertErrs σ)), k)
    else (σ, Panic)
  end.

(** A program run alone, from its first effect to its last; [None] when
    it panics. *)
Fixpoint run_prog {A : Type} (σ : state W) (p : prog A)
  : state W * option A :=
  match p with
  | Ret a => (σ, Some a)
  | Panic => (σ, None)
  | CacheGet uri opts k =>
    let '(got, w') := cache_Get (st_world σ) uri opts in
    run_prog (mkState w' (st_counts σ) (st_resources σ) (st_convertErrs σ))
      (k got)
  | ReadFile path k => run_prog σ (k (os_ReadFile (st_world σ) path))
  | Increment tag k =>
    run_prog (mkState (st_world σ) (tag :: st_counts σ) (st_resources σ)
                (st_convertErrs σ)) k
  | LoadResource i k =>
    match st_resources σ !! i with
    | Some resource => run_prog σ (k resource)
    | None => (σ, None)
    end
  | StoreResource i a k =>
    if decide (i < length (st_resources σ)) then
      run_prog (mkState (st_world σ) (st_counts σ) (<[i:=a]> (st_resources σ))
                  (st_convertErrs σ)) k
    else (σ, None)
  | StoreErr i e k =>
    if decide (i < length (st_convertErrs σ)) then
      run_prog (mkState (st_world σ) (st_counts σ) (st_resources σ)
                  (<[i:=Some e]> (st_convertErrs σ))) k
    else (σ, None)
  end.

(** The slot of index [j] in the shared state. *)
Definition slot_of (σ : state W) (j : nat) : option (Any * option error) :=
  match st_resources σ !! j, st_convertErrs σ !! j with
  | Some a, Some e => Some (a, e)
  | _, _ => None
  end.

(** The goroutines that can still take a step. *)
Definition runnable (pool : list (prog unit)) : list nat :=
  filter (λ i, from_option finished true (pool !! i) = false)
         (seq 0 (length pool)).

(** The Go scheduler: at its [t]-th decision it picks, by [sched t], one
    of the goroutines that can run, and that goroutine performs its next
    effect. *)
Fixpoint run (sched : nat → nat) (fuel t : nat) (σ : state W)
    (pool : list (prog unit)) : state W * list (prog unit) :=
  match fuel with
  | O => (σ, pool)
  | S fuel' =>
    match runnable pool with
    | [] => (σ, pool)
    | i0 :: rest =>
      let i := nth (sched t mod length (i0 :: rest)) (i0 :: rest) i0 in
      match pool !! i with
      | Some p =>
        let '(σ', p') := step_prog σ p in
        run sched fuel' (S t) σ' (<[i:=p']> pool)
      | None => (σ, pool)
      end
    end
  end.

(** A goroutine performs at most this many effects. *)
Definition goroutine_steps : nat := 5.

(** [MaybeConvertWasmExtensionConfig] converts any presence of module
    remote download to local file: one goroutine per resource, [wg.Wait]
    ([runGoroutines] gives the shared state at that point), then the errors
    of all goroutines are combined.  The scheduler is the only source of
    nondeterminism.  The duration metric and the log lines are left out. *)
Definition runGoroutines (sched : nat → nat) (resources : list Any)
    (counts : list ResultTag) (w : W) : state W * list (prog unit) :=
  let numResources := length resources in
  let convertErrs := replicate numResources None in
  let pool := goroutine <$> seq 0 numResources in
  run sched (goroutine_steps * numResources) 0
    (mkState w counts resources convertErrs) pool.

(** After [wg.Wait]: the combined error, with the slice rewritten in
    place, the counter and the world as the goroutines left them. *)
Definition MaybeConvertWasmExtensionConfig (sched : nat → nat)
    (resources : list Any) (counts : list ResultTag) (w : W) : outcome W :=
  let '(σ, pool) := runGoroutines sched resources counts w in
  if forallb returned pool then
    Returned (st_resources σ)
      (ErrorOrNil (multierror_Append_nil (st_convertErrs σ)))
      (st_counts σ) (st_world σ)
  else if existsb panicked pool then Crashed
  else Waiting.
End Batch.

(** ** Upstream: [InsertedExtensionConfigurations] *)

(** [model.WasmPluginWrapper], the fields read here *)
Record WasmPluginWrapper := mkWasmPluginWrapper {
  wp_ResourceName : string;
  wp_WasmExtensionConfig : Wasm
}.

Section Upstream.
Context `{!Constants, !Protobuf}.

(** [GetConfig().GetVmConfig().GetEnvironmentVariables().GetKeyValues()] *)
Definition GetKeyValues (w : Wasm) : option (gmap string string) :=
  GetEnvironmentVariables (GetVmConfig (wasm_Config w)) ≫= env_KeyValues.

(** [envs[k] = v] on the map that [GetKeyValues] returned (the assignment
    is only made when the map holds a non-empty value, so every message
    on the path to it exists). *)
Definition assignKeyValue (w : Wasm) (k v : string) : Wasm :=
  mkWasm ((λ c,
    mkPluginConfig (pc_Name c) (pc_RootId c)
      ((λ vm,
        mkVmConfig (vm_VmId vm) (vm_Runtime vm) (vm_Code vm)
          (vm_Configuration vm) (vm_AllowPrecompiled vm)
          (vm_NackOnCodeCacheMiss vm)
          ((λ envs,
            mkEnvironmentVariables (env_HostEnvKeys envs)
              (<[k:=v]> <$> env_KeyValues envs))
           <$> vm_EnvironmentVariables vm))
       <$> pc_VmConfig c)
      (pc_Configuration c) (pc_FailOpen c)) <$> wasm_Config w).

(** The body of the inner loop for a plugin whose name was asked for. *)
Definition insertedExtensionConfiguration
    (pullSecrets : gmap string (list Byte.byte)) (p : WasmPluginWrapper)
  : TypedExtensionConfig :=
  let wasmExtensionConfig := wp_WasmExtensionConfig p in
  let envs := GetKeyValues wasmExtensionConfig in
  let secretName := map_index_default envs WasmSecretEnv in
  let wasmExtensionConfig :=
    if decide (secretName ≠ "") then
      match pullSecrets !! secretName with
      | Some sec =>
        assignKeyValue wasmExtensionConfig WasmSecretEnv
          (string_of_list_byte sec)
      | None => assignKeyValue wasmExtensionConfig WasmSecretEnv ""
      end
    else wasmExtensionConfig in
  mkTypedExtensionConfig (wp_ResourceName p)
    (MessageToAny wasmExtensionConfig).

(** [wasmPlugins] is a Go map from phase to plugin list; it is given here
    as the lists in the order the [range] visits them. *)
Definition InsertedExtensionConfigurations
    (wasmPlugins : list (list WasmPluginWrapper)) (names : list string)
    (pullSecrets : gmap string (list Byte.byte))
  : list TypedExtensionConfig :=
  insertedExtensionConfiguration pullSecrets <$>
    filter (λ p, wp_ResourceName p ∈ names) (concat wasmPlugins).
End Upstream.

(** ** What a goroutine can do, seen from its own slot

    Predicates used to state what one resource's processing amounts to,
    whatever the other goroutines do. *)

(** [p] never panics, touches no slot and performs at most [n] effects. *)
Inductive world_only {A : Type} : nat → prog A → Prop :=
| world_only_ret n a : world_only n (Ret a)
| world_only_cache n uri opts k :
    (∀ x, world_only n (k x)) → world_only (S n) (CacheGet uri opts k)
| world_only_read n path k :
    (∀ x, world_only n (k x)) → world_only (S n) (ReadFile path k)
| world_only_incr n tag k :
    world_only n k → world_only (S n) (Increment tag k).

(** [p] never panics, touches no slot but those of index [i] and performs
    at most [n] effects. *)
Inductive safe (i : nat) {A : Type} : nat → prog A → Prop :=
| safe_ret n a : safe i n (Ret a)
| safe_cache n uri opts k :
    (∀ x, safe i n (k x)) → safe i (S n) (CacheGet uri opts k)
| safe_read n path k :
    (∀ x, safe i n (k x)) → safe i (S n) (ReadFile path k)
| safe_incr n tag k :
    safe i n k → safe i (S n) (Increment tag k)
| safe_load n k :
    (∀ x, safe i n (k x)) → safe i (S n) (LoadResource i k)
| safe_store n a k :
    safe i n k → safe i (S n) (StoreResource i a k)
| safe_err n e k :
    safe i n k → safe i (S n) (StoreErr i e k).

(** On some path, [p] asks the fetch cache for [uri] with the options [o]. *)
Inductive fetches {A : Type} (uri : string) (o : GetOptions) : prog A → Prop :=
| fetches_here k : fetches uri o (CacheGet uri o k)
| fetches_after_cache uri' o' k x :
    fetches uri o (k x) → fetches uri o (CacheGet uri' o' k)
| fetches_after_read path k x :
    fetches uri o (k x) → fetches uri o (ReadFile path k)
| fetches_after_incr tag k :
    fetches uri o k → fetches uri o (Increment tag k)
| fetches_after_load i k x :
    fetches uri o (k x) → fetches uri o (LoadResource i k)
| fetches_after_store i a k :
    fetches uri o k → fetches uri o (StoreResource i a k)
| fetches_after_err i e k :
    fetches uri o k → fetches uri o (StoreErr i e k).

(** [p] consults the fetch cache on some path. *)
Definition consults_cache {A : Type} (p : prog A) : Prop :=
  ∃ uri o, fetches uri o p.

(** The longest prefix of [l] whose elements all satisfy [f]. *)
Fixpoint takeWhile {A : Type} (f : A → bool) (l : list A) : list A :=
  match l with
  | [] => []
  | x :: l' => if f x then x :: takeWhile f l' else []
  end.

(** The two cells of the batch that belong to one index:
    [resources[i]] and [convertErrs[i]]. *)
Definition slot : Type := Any * option error.

Section Observations.
Context `{!Constants, !Protobuf, !GoVersion, !Wazero}.
Context {W : Type} `{!World W}.

(** One effect of goroutine [i], on its own slot; the cache and the files
    answer as they would in some state of the world. *)
Inductive tstep (i : nat) : prog unit * slot → prog unit * slot → Prop :=
| tstep_cache uri opts k s (w : W) :
    tstep i (CacheGet uri opts k, s) (k (cache_Get w uri opts).1, s)
| tstep_read path k s (w : W) :
    tstep i (ReadFile path k, s) (k (os_ReadFile w path), s)
| tstep_incr tag k s :
    tstep i (Increment tag k, s) (k, s)
| tstep_load k s :
    tstep i (LoadResource i k, s) (k s.1, s)
| tstep_store a k s :
    tstep i (StoreResource i a k, s) (k, (a, s.2))
| tstep_err e k s :
    tstep i (StoreErr i e k, s) (k, (s.1, Some e)).

(** [p] can return [a], with the cache and the files answering as they
    would in some state of the world; [p] touches no slot. *)
Inductive may_return {A : Type} : prog A → A → Prop :=
| may_return_ret a : may_return (Ret a) a
| may_return_cache uri opts k (w : W) a :
    may_return (k (cache_Get w uri opts).1) a →
    may_return (CacheGet uri opts k) a
| may_return_read path k (w : W) a :
    may_return (k (os_ReadFile w path)) a →
    may_return (ReadFile path k) a
| may_return_incr tag k a :
    may_return k a → may_return (Increment tag k) a.

(** What the processing of the resource [r] leaves in its slot: the
    resource (rewritten or not) and the error recorded for it. *)
Inductive resource_outcome (r : Any) : Any → option error → Prop :=
| outcome_unmarshal_failure err :
    tryUnmarshal r = inl err →
    resource_outcome r r (Some err)
| outcome_bypass :
    tryUnmarshal r = inr None →
    resource_outcome r r None
| outcome_conversion_failure ec w err :
    tryUnmarshal r = inr (Some (ec, w)) →
    may_return (convertWasmConfigFromRemoteToLocal ec w) (inl err) →
    resource_outcome r r (Some err)
| outcome_converted ec w nec :
    tryUnmarshal r = inr (Some (ec, w)) →
    may_return (convertWasmConfigFromRemoteToLocal ec w) (inr nec) →
    resource_outcome r nec None.

(** The answers of the cache and of the files do not depend on what
    happened before: a request is answered alike in every state. *)
Definition answers_stateless : Prop :=
  (∀ (w w' : W) uri o, (cache_Get w uri o).1 = (cache_Get w' uri o).1) ∧
  (∀ (w w' : W) path, os_ReadFile w path = os_ReadFile w' path).

(** [resource] decodes to the typed extension config [ec] holding the Wasm
    HTTP filter [w], directly or wrapped in a typed struct. *)
Definition decodes_wasm_filter (resource : Any) (ec : TypedExtensionConfig)
    (w : Wasm) : Prop :=
  UnmarshalTo_TypedExtensionConfig resource = inr ec ∧
  ∃ typedConfig, ec_TypedConfig ec = Some typedConfig ∧
    ((any_TypeUrl typedConfig = WasmHTTPFilterType ∧
      UnmarshalTo_Wasm typedConfig = inr w) ∨
     (any_TypeUrl typedConfig ≠ WasmHTTPFilterType ∧
      any_TypeUrl typedConfig = TypedStructType ∧
      ∃ typedStruct, UnmarshalTo_TypedStruct typedConfig = inr typedStruct ∧
        ts_TypeUrl typedStruct = WasmHTTPFilterType ∧
        StructToMessage (ts_Value typedStruct) = Some w)).

(** The typed extension config [ec] holds a Wasm HTTP filter: its typed
    config has the type of the filter, or is a typed struct of that type. *)
Definition is_wasm_filter (ec : TypedExtensionConfig) : Prop :=
  ∃ typedConfig, ec_TypedConfig ec = Some typedConfig ∧
    (any_TypeUrl typedConfig = WasmHTTPFilterType ∨
     (any_TypeUrl typedConfig = TypedStructType ∧
      ∃ typedStruct, UnmarshalTo_TypedStruct typedConfig = inr typedStruct ∧
        ts_TypeUrl typedStruct = WasmHTTPFilterType)).

(** [resource] does not encode a remote-module reference: it is an
    extension config that is not a Wasm filter at all, or a Wasm filter
    with a local code source. *)
Definition no_remote_reference (resource : Any) : Prop :=
  (∃ ec, UnmarshalTo_TypedExtensionConfig resource = inr ec ∧
         ¬ is_wasm_filter ec) ∨
  (∃ ec w, decodes_wasm_filter resource ec w ∧
           GetRemote (GetCode (GetVmConfig (wasm_Config w))) = None ∧
           is_Some (GetLocal (GetCode (GetVmConfig (wasm_Config w))))).

(** The pass-through property in the words of the specification: every
    resource of a batch without a remote-module reference is left as it is
    and has no error recorded. *)
Definition passes_through_every_non_remote : Prop :=
  ∀ sched resources counts (w : W) i resource,
    resources !! i = Some resource → no_remote_reference resource →
    st_resources (runGoroutines sched resources counts w).1 !! i
      = Some resource ∧
    st_convertErrs (runGoroutines sched resources counts w).1 !! i
      = Some None.

(** The hint in the words of the specification: the first custom section
    whose name starts with the prefix carries a version that parses and is
    less than the maximum, or a section named [wamr-aot] comes before any
    section with the prefix. *)
Definition wamrHintGranted (maxVersion : Version) (sections : list string)
  : bool :=
  match find (λ name, HasPrefix name wamrAotPrefix) sections with
  | Some name =>
    match NewVersion (TrimPrefix name wamrAotPrefix) with
    | Some v => LessThan v maxVersion
    | None => false
    end
  | None => false
  end
  || bool_decide
       (wamrAot ∈ takeWhile (λ name, negb (HasPrefix name wamrAotPrefix))
                            sections).

(** The same Wasm config with another checksum for its remote source. *)
Definition setRemoteSha256 (w : Wasm) (sha : string) : Wasm :=
  mkWasm ((λ c,
    mkPluginConfig (pc_Name c) (pc_RootId c)
      ((λ vm,
        setCode vm
          ((λ code,
            match code with
            | AsyncDataSource_Remote remote =>
              AsyncDataSource_Remote
                (mkRemoteDataSource (rds_HttpUri remote) sha)
            | _ => code
            end) <$> vm_Code vm)) <$> pc_VmConfig c)
      (pc_Configuration c) (pc_FailOpen c)) <$> wasm_Config w).

(** The state of a batch under way: every goroutine has come from its
    start to where it is by effects on its own slot, and has at most
    [bounds !! j] effects left. *)
Definition pool_inv (resources : list Any) (bounds : list nat)
    (σ : state W) (pool : list (prog unit)) : Prop :=
  length (st_resources σ) = length resources ∧
  length (st_convertErrs σ) = length resources ∧
  length pool = length resources ∧
  length bounds = length resources ∧
  ∀ j r, resources !! j = Some r →
    ∃ p s n, pool !! j = Some p ∧ slot_of σ j = Some s ∧
             bounds !! j = Some n ∧ safe j n p ∧
             rtc (tstep j) (goroutine j, (r, None)) (p, s).
End Observations.

(** ** A concrete instance of the collaborators

    Used to run the adapter on concrete batches.  The constants have the
    values of the Istio sources; the codec is a table over a few messages
    and decodes an empty payload to the empty message, as protobuf does;
    versions are dotted decimal numbers. *)
Module Sample.

Definition constants : Constants := {|
  WasmSecretEnv := "ISTIO_META_WASM_IMAGE_PULL_SECRET";
  WasmPolicyEnv := "ISTIO_META_WASM_IMAGE_PULL_POLICY";
  WasmResourceVersionEnv := "ISTIO_META_WASM_PLUGIN_RESOURCE_VERSION";
  IstioMetaPrefix := "ISTIO_META_";
  WasmHTTPFilterType :=
    "type.googleapis.com/envoy.extensions.filters.http.wasm.v3.Wasm";
  TypedStructType := "type.googleapis.com/udpa.type.v1.TypedStruct";
  PullPolicy_value :=
    {[ "UNSPECIFIED_POLICY" := 0%Z; "IfNotPresent" := 1%Z; "Always" := 2%Z ]}
|}.

Definition TypedExtensionConfigType : string :=
  "type.googleapis.com/envoy.config.core.v3.TypedExtensionConfig".
Definition RBACHTTPFilterType : string :=
  "type.googleapis.com/envoy.extensions.filters.http.rbac.v3.RBAC".

#[local] Instance byte_eq_dec : EqDecision Byte.byte := Byte.byte_eq_dec.
#[local] Instance Any_eq_dec : EqDecision Any.
Proof. solve_decision. Defined.
#[local] Instance DurationPb_eq_dec : EqDecision DurationPb.
Proof. solve_decision. Defined.
#[local] Instance HttpUri_eq_dec : EqDecision HttpUri.
Proof. solve_decision. Defined.
#[local] Instance RemoteDataSource_eq_dec : EqDecision RemoteDataSource.
Proof. solve_decision. Defined.
#[local] Instance DataSource_eq_dec : EqDecision DataSource.
Proof. solve_decision. Defined.
#[local] Instance AsyncDataSource_eq_dec : EqDecision AsyncDataSource.
Proof. solve_decision. Defined.
#[local] Instance EnvironmentVariables_eq_dec : EqDecision EnvironmentVariables.
Proof. solve_decision. Defined.
#[local] Instance VmConfig_eq_dec : EqDecision VmConfig.
Proof. solve_decision. Defined.
#[local] Instance PluginConfig_eq_dec : EqDecision PluginConfig.
Proof. solve_decision. Defined.
#[local] Instance Wasm_eq_dec : EqDecision Wasm.
Proof. solve_decision. Defined.
#[local] Instance TypedExtensionConfig_eq_dec : EqDecision TypedExtensionConfig.
Proof. solve_decision. Defined.

(** Look a key up in a table. *)
Fixpoint assoc {K V : Type} `{EqDecision K} (k : K) (t : list (K * V))
  : option V :=
  match t with
  | [] => None
  | (k', v) :: t' => if decide (k = k') then Some v else assoc k t'
  end.

(** *** Messages *)

Definition moduleUri : string := "https://example/module.wasm".
Definition aotUri : string := "https://example/aot.wasm".

Definition remoteVm (uri sha : string)
    (envs : option EnvironmentVariables) : VmConfig :=
  mkVmConfig "" "envoy.wasm.runtime.v8"
    (Some (AsyncDataSource_Remote
             (mkRemoteDataSource (Some (mkHttpUri uri None)) sha)))
    None false false envs.

Definition wasmOf (name : string) (vm : VmConfig) : Wasm :=
  mkWasm (Some (mkPluginConfig name "" (Some vm) None false)).

(** a remote module with an unset checksum and the internal variables *)
Definition remoteEnvs : EnvironmentVariables :=
  mkEnvironmentVariables []
    (Some {[ "ISTIO_META_WASM_IMAGE_PULL_SECRET" := "token";
             "ISTIO_META_WASM_IMAGE_PULL_POLICY" := "Always";
             "ISTIO_META_WASM_PLUGIN_RESOURCE_VERSION" := "7";
             "LOG_LEVEL" := "debug" ]}).
Definition remoteWasm : Wasm :=
  wasmOf "plugin-a" (remoteVm moduleUri "nil" (Some remoteEnvs)).

(** the same with an empty checksum *)
Definition remoteWasmEmptySha : Wasm :=
  wasmOf "plugin-a" (remoteVm moduleUri "" (Some remoteEnvs)).

(** a remote module whose pull secret could not be resolved upstream *)
Definition noSecretEnvs : EnvironmentVariables :=
  mkEnvironmentVariables []
    (Some {[ "ISTIO_META_WASM_IMAGE_PULL_SECRET" := "" ]}).
Definition noSecretWasm : Wasm :=
  wasmOf "plugin-b" (remoteVm moduleUri "" (Some noSecretEnvs)).

(** a remote module with an unknown pull policy *)
Definition oddPolicyEnvs : EnvironmentVariables :=
  mkEnvironmentVariables ["HOME"]
    (Some {[ "ISTIO_META_WASM_IMAGE_PULL_POLICY" := "Never" ]}).
Definition oddPolicyWasm : Wasm :=
  wasmOf "plugin-c" (remoteVm aotUri "" (Some oddPolicyEnvs)).

(** a module loaded from a local file *)
Definition localWasm : Wasm :=
  wasmOf "plugin-d"
    (mkVmConfig "" "envoy.wasm.runtime.v8"
       (Some (AsyncDataSource_Local (DataSource_Filename "/etc/plugin.wasm")))
       None false false None).

Definition payload (s : string) : list Byte.byte := list_byte_of_string s.

Definition wasmAny (label : string) : Any :=
  mkAny (@WasmHTTPFilterType constants) (payload label).
Definition resource (label : string) : Any :=
  mkAny TypedExtensionConfigType (payload label).

(** payloads of Wasm filters *)
Definition wasmTable : list (Any * Wasm) :=
  [ (wasmAny "remote", remoteWasm);
    (wasmAny "remote-empty-sha", remoteWasmEmptySha);
    (wasmAny "no-secret", noSecretWasm);
    (wasmAny "odd-policy", oddPolicyWasm);
    (wasmAny "local", localWasm) ].

(** payloads of typed extension configs *)
Definition ecTable : list (Any * TypedExtensionConfig) :=
  [ (resource "remote",
     mkTypedExtensionConfig "plugin-a" (Some (wasmAny "remote")));
    (resource "remote-empty-sha",
     mkTypedExtensionConfig "plugin-a" (Some (wasmAny "remote-empty-sha")));
    (resource "no-secret",
     mkTypedExtensionConfig "plugin-b" (Some (wasmAny "no-secret")));
    (resource "odd-policy",
     mkTypedExtensionConfig "plugin-c" (Some (wasmAny "odd-policy")));
    (resource "local",
     mkTypedExtensionConfig "plugin-d" (Some (wasmAny "local")));
    (resource "neither",
     mkTypedExtensionConfig "plugin-e" (Some (wasmAny "")));
    (resource "rbac",
     mkTypedExtensionConfig "allow-all" (Some (mkAny RBACHTTPFilterType []))) ].

(** A string field is marshalled only when it is valid UTF-8; the sample
    takes the strings of 7-bit characters for those. *)
Fixpoint asciiOnly (s : string) : bool :=
  match s with
  | EmptyString => true
  | String c s' => (nat_of_ascii c <? 128)%nat && asciiOnly s'
  end.

Definition protobuf : Protobuf := {|
  UnmarshalTo_TypedExtensionConfig a :=
    if decide (any_TypeUrl a = TypedExtensionConfigType) then
      if decide (any_Value a = []) then inr (mkTypedExtensionConfig "" None)
      else from_option inr (inl (LibError "proto: cannot parse")) (assoc a ecTable)
    else inl (LibError "mismatched message type");
  UnmarshalTo_Wasm a :=
    if decide (any_TypeUrl a = @WasmHTTPFilterType constants) then
      if decide (any_Value a = []) then inr (mkWasm None)
      else from_option inr (inl (LibError "proto: cannot parse")) (assoc a wasmTable)
    else inl (LibError "mismatched message type");
  UnmarshalTo_TypedStruct a :=
    if decide (any_TypeUrl a = @TypedStructType constants) then
      if decide (any_Value a = []) then inr (mkTypedStruct "" None)
      else inl (LibError "proto: cannot parse")
    else inl (LibError "mismatched message type");
  StructToMessage v :=
    match v with
    | None => Some (mkWasm None)
    | Some _ => None
    end;
  anypb_New_Wasm w :=
    inr (mkAny (@WasmHTTPFilterType constants)
           (payload ("wasm:" +:+ from_option pc_Name "" (wasm_Config w))));
  anypb_New_TypedExtensionConfig ec :=
    inr (mkAny TypedExtensionConfigType (payload ("ec:" +:+ ec_Name ec)));
  MessageToAny w :=
    if forallb (λ kv, asciiOnly kv.2)
         (map_to_list (default ∅ (GetKeyValues w)))
    then Some (mkAny (@WasmHTTPFilterType constants)
                 (payload ("wasm:" +:+ from_option pc_Name "" (wasm_Config w))))
    else None;
  AsDuration d := (dur_Seconds d * 1000000000 + dur_Nanos d)%Z
|}.

(** *** Versions: dotted decimal numbers *)

Definition digit (c : ascii) : option nat :=
  let n := nat_of_ascii c in
  if decide (48 ≤ n ∧ n ≤ 57)%nat then Some (n - 48)%nat else None.

(** The segments read so far, latest first, and the number being read. *)
Fixpoint parseSegments (s : string) (cur : option nat) (acc : list nat)
  : option (list nat) :=
  match s with
  | EmptyString => (λ n, reverse (n :: acc)) <$> cur
  | String c s' =>
    if decide (c = "."%char) then
      match cur with
      | Some n => parseSegments s' None (n :: acc)
      | None => None
      end
    else
      match digit c with
      | Some d => parseSegments s' (Some (10 * default 0 cur + d)%nat) acc
      | None => None
      end
  end.

Fixpoint segmentsLess (a b : list nat) : bool :=
  match a, b with
  | [], [] => false
  | [], y :: b' => if decide (0 < y)%nat then true else segmentsLess [] b'
  | x :: a', [] => false
  | x :: a', y :: b' =>
    if decide (x < y)%nat then true
    else if decide (y < x)%nat then false
    else segmentsLess a' b'
  end.

Definition goVersion : GoVersion := {|
  Version := list nat;
  NewVersion s := parseSegments s None [];
  LessThan := segmentsLess
|}.

(** the parsed [wamrAotMaxVersion] *)
Definition maxVersion : @Version goVersion := [2; 1; 0]%nat.

(** *** Files, modules and the cache *)

Definition modulePath : string := "/var/lib/istio/data/module.wasm".
Definition aotPath : string := "/var/lib/istio/data/aot.wasm".

(** the empty module, and a stand-in for a module compiled ahead of time *)
Definition moduleBinary : list Byte.byte :=
  [Byte.x00; Byte.x61; Byte.x73; Byte.x6d; Byte.x01; Byte.x00; Byte.x00; Byte.x00].
Definition aotBinary : list Byte.byte := payload "aot".

Definition wazero : Wazero := {|
  CustomSectionNames b :=
    if decide (b = moduleBinary) then Some []
    else if decide (b = aotBinary) then Some ["producers"; "wamr-aot-2.0.0"]
    else None
|}.

(** The world is the number of fetches made so far. *)
Definition world : World nat := {|
  cache_Get n uri opts :=
    if decide (uri = moduleUri) then (inr modulePath, S n)
    else if decide (uri = aotUri) then (inr aotPath, S n)
    else (inl (LibError "fetch failed"), S n);
  os_ReadFile n path :=
    if decide (path = modulePath) then Some moduleBinary
    else if decide (path = aotPath) then Some aotBinary
    else None
|}.

(** schedulers: always the first runnable goroutine, or round robin *)
Definition firstRunnable : nat → nat := λ _, 0.
Definition roundRobin : nat → nat := λ t, t.

Definition convert (sched : nat → nat) (resources : list Any) : outcome nat :=
  @MaybeConvertWasmExtensionConfig constants protobuf goVersion wazero nat
    world sched resources [] 0.

(** *** A batch and the configs it decodes to *)

Definition batch : list Any :=
  [ resource "remote"; resource ""; resource "rbac"; resource "odd-policy";
    resource "neither"; resource "local"; resource "no-secret" ].

(** A state with an empty batch, for running one conversion alone. *)
Definition σ0 : state nat := mkState 0 [] [] [].

Definition ecRemote : TypedExtensionConfig :=
  mkTypedExtensionConfig "plugin-a" (Some (wasmAny "remote")).
Definition ecNoSecret : TypedExtensionConfig :=
  mkTypedExtensionConfig "plugin-b" (Some (wasmAny "no-secret")).
Definition ecOddPolicy : TypedExtensionConfig :=
  mkTypedExtensionConfig "plugin-c" (Some (wasmAny "odd-policy")).
Definition ecNeither : TypedExtensionConfig :=
  mkTypedExtensionConfig "plugin-e" (Some (wasmAny "")).
Definition ecRbac : TypedExtensionConfig :=
  mkTypedExtensionConfig "allow-all" (Some (mkAny RBACHTTPFilterType [])).
End Sample.


(** ** More of the modelled files

    [wasmplugin.go]: the HTTP filters that point at the extension configs
    ([toEnvoyHTTPFilter], [PopAppend]) and the secret substitution of
    [InsertedExtensionConfigurations]; [createAllowAllFilter] of the
    adapter; and what is needed to count the effects of a batch. *)

(** [core.ApiVersion] *)
Inductive ApiVersion := ApiVersion_AUTO | ApiVersion_V2 | ApiVersion_V3.

(** [core.ConfigSource]: the oneof [ConfigSourceSpecifier] is [Ads] or not
    (the other cases are not built here) *)
Record ConfigSource := mkConfigSource {
  cs_Ads : bool;
  cs_ResourceApiVersion : ApiVersion;
  cs_InitialFetchTimeout : option DurationPb
}.

(** [core.ExtensionConfigSource] *)
Record ExtensionConfigSource := mkExtensionConfigSource {
  ecs_ConfigSource : option ConfigSource;
  ecs_DefaultConfig : option Any;
  ecs_ApplyDefaultConfigWithoutWarming : bool;
  ecs_TypeUrls : list string
}.

(** [hcm.HttpFilter]: its oneof [ConfigType] *)
Inductive HttpFilter_ConfigType :=
| HttpFilter_unset
| HttpFilter_TypedConfig (TypedConfig : Any)
| HttpFilter_ConfigDiscovery (ConfigDiscovery : ExtensionConfigSource).

Record HttpFilter := mkHttpFilter {
  hf_Name : string;
  hf_ConfigType : HttpFilter_ConfigType
}.

(** [model.WasmPluginWrapper] with the field [FailStrategy], which
    [toEnvoyHTTPFilter] reads; [extensions.FailStrategy] is an [int32]
    enum. *)
Record WasmPlugin := mkWasmPlugin {
  wpl_wrapper : WasmPluginWrapper;
  wpl_FailStrategy : Z
}.

(** What [wasmplugin.go] and [createAllowAllFilter] take from elsewhere:
    [xds.RBACHTTPFilterType], [extensions.FailStrategy_FAIL_OPEN], the
    result of [anypb.New(&composite_v3.Composite{})] (nil when it fails:
    the error is dropped) and of [protoconv.MessageToAny(&rbac.RBAC{})]
    (the message without fields, which is always marshalled). *)
Class ExtensionCollaborators := {
  xds_RBACHTTPFilterType : string;
  FailStrategy_FAIL_OPEN : Z;
  anypb_New_Composite : option Any;
  MessageToAny_RBAC : Any
}.

(** Ingress constant *)
Definition compositeFilterType :=
  "envoy.extensions.filters.http.composite.v3.Composite".

(** we block proxy init until WasmPlugins are loaded because they might be
    critical for security (e.g. authn/authz) *)
Definition defaultConfigSource : ConfigSource :=
  mkConfigSource true ApiVersion_V3 (Some (mkDurationPb 0 0)).

Section FilterChain.
Context `{!Constants, !Protobuf, !ExtensionCollaborators}.

Definition toEnvoyHTTPFilter (wasmPlugin : WasmPlugin) : HttpFilter :=
  if decide (wpl_FailStrategy wasmPlugin = FailStrategy_FAIL_OPEN) then
    let defaultConfig := anypb_New_Composite in
    mkHttpFilter (wp_ResourceName (wpl_wrapper wasmPlugin))
      (HttpFilter_ConfigDiscovery
         (mkExtensionConfigSource (Some defaultConfigSource) defaultConfig
            false
            [ WasmHTTPFilterType; xds_RBACHTTPFilterType;
              "type.googleapis.com/" +:+ compositeFilterType ]))
  else
    mkHttpFilter (wp_ResourceName (wpl_wrapper wasmPlugin))
      (HttpFilter_ConfigDiscovery
         (mkExtensionConfigSource (Some defaultConfigSource) None false
            [ WasmHTTPFilterType; xds_RBACHTTPFilterType ])).

(** [PopAppend] takes a list of filters (the parameter [list] of the
    source) and a set of WASM plugins, keyed by phase.  It removes all plugins of the phase from the set (the map is
    changed in place: it is returned here with the list) and appends them
    to the list of filters.  A nil map behaves as the empty one. *)
Definition PopAppend (filters : list HttpFilter)
    (filterMap : gmap Z (list WasmPlugin)) (phase : Z)
  : list HttpFilter * gmap Z (list WasmPlugin) :=
  (foldl (λ filters ext, (filters ++ [toEnvoyHTTPFilter ext])%list) filters
     (default [] (filterMap !! phase)),
   delete phase filterMap).

(** The pull secret put in place of its name in the VM environment of a
    cloned Wasm config, as the inner loop of
    [InsertedExtensionConfigurations] does it. *)
Definition resolvePullSecret (pullSecrets : gmap string (list Byte.byte))
    (wasmExtensionConfig : Wasm) : Wasm :=
  let envs := GetKeyValues wasmExtensionConfig in
  let secretName := map_index_default envs WasmSecretEnv in
  if decide (secretName ≠ "") then
    match pullSecrets !! secretName with
    | Some sec =>
      assignKeyValue wasmExtensionConfig WasmSecretEnv (string_of_list_byte sec)
    | None => assignKeyValue wasmExtensionConfig WasmSecretEnv ""
    end
  else wasmExtensionConfig.

Definition allowTypedConfig : Any := MessageToAny_RBAC.

Definition createAllowAllFilter (name : string) : error + Any :=
  anypb_New_TypedExtensionConfig
    (mkTypedExtensionConfig name (Some allowTypedConfig)).
End FilterChain.

(** On every path that does not panic, [p] increments the counter [n]
    times. *)
Inductive increments {A : Type} : nat → prog A → Prop :=
| increments_ret a : increments 0 (Ret a)
| increments_panic n : increments n Panic
| increments_cache n uri opts k :
    (∀ x, increments n (k x)) → increments n (CacheGet uri opts k)
| increments_read n path k :
    (∀ x, increments n (k x)) → increments n (ReadFile path k)
| increments_incr n tag k :
    increments n k → increments (S n) (Increment tag k)
| increments_load n i k :
    (∀ x, increments n (k x)) → increments n (LoadResource i k)
| increments_store n i a k :
    increments n k → increments n (StoreResource i a k)
| increments_err n i e k :
    increments n k → increments n (StoreErr i e k).

(** On every path, [p] asks the fetch cache at most [n] times. *)
Inductive fetch_bound {A : Type} : nat → prog A → Prop :=
| fetch_bound_ret n a : fetch_bound n (Ret a)
| fetch_bound_panic n : fetch_bound n Panic
| fetch_bound_cache n uri opts k :
    (∀ x, fetch_bound n (k x)) → fetch_bound (S n) (CacheGet uri opts k)
| fetch_bound_read n path k :
    (∀ x, fetch_bound n (k x)) → fetch_bound n (ReadFile path k)
| fetch_bound_incr n tag k :
    fetch_bound n k → fetch_bound n (Increment tag k)
| fetch_bound_load n i k :
    (∀ x, fetch_bound n (k x)) → fetch_bound n (LoadResource i k)
| fetch_bound_store n i a k :
    fetch_bound n k → fetch_bound n (StoreResource i a k)
| fetch_bound_err n i e k :
    fetch_bound n k → fetch_bound n (StoreErr i e k).

(** A world that also counts the calls of [cache.Get] made in it. *)
Definition counting_world {W : Type} `{!World W} : World (W * nat) := {|
  cache_Get wn uri opts :=
    let '(got, w') := cache_Get wn.1 uri opts in (got, (w', S wn.2));
  os_ReadFile wn path := os_ReadFile wn.1 path
|}.

(** The state of a batch run in the counting world, without the count. *)
Definition forget {W : Type} (σ : state (W * nat)) : state W :=
  mkState (st_world σ).1 (st_counts σ) (st_resources σ) (st_convertErrs σ).

Section Summaries.
Context `{!Constants, !Protobuf, !GoVersion, !Wazero}.

(** The request that a conversion makes to the fetch cache, if it makes
    one: read off [convertWasmConfigFromRemoteToLocal] as a function of the
    extension config and of the Wasm config. *)
Definition fetchRequest (ec : TypedExtensionConfig) (w : Wasm)
  : option (string * GetOptions) :=
  let keyValues := GetKeyValues w in
  match GetRemote (GetCode (GetVmConfig (wasm_Config w))) with
  | Some remote =>
    match rds_HttpUri remote with
    | Some httpURI =>
      if decide (map_index keyValues WasmSecretEnv = Some "") then None
      else
        Some (hu_Uri httpURI,
              {| Checksum := if decide (rds_Sha256 remote = "nil") then ""
                             else rds_Sha256 remote;
                 ResourceName := ec_Name ec;
                 ResourceVersion :=
                   map_index_default keyValues WasmResourceVersionEnv;
                 RequestTimeout :=
                   match hu_Timeout httpURI with
                   | Some t => AsDuration t
                   | None => 5000000000%Z
                   end;
                 PullSecret :=
                   from_option list_byte_of_string []
                     (map_index keyValues WasmSecretEnv);
                 opt_PullPolicy :=
                   default PullPolicy_UNSPECIFIED_POLICY
                     (map_index keyValues WasmPolicyEnv
                        ≫= (λ ps, PullPolicy_value !! ps)) |})
    | None => None
    end
  | None => None
  end.

(** The value of the [resultTag] label that goes with each result of a
    conversion. *)
Definition statusOf (converted : error + Any) : ResultTag :=
  match converted with
  | inr _ => conversionSuccess
  | inl (ErrNoHttpUri _) => missRemoteFetchHint
  | inl (ErrMarshalWasm _ _) | inl (ErrMarshalExtensionConfig _) =>
    marshalFailure
  | inl _ => fetchFailure
  end.
End Summaries.

(** ** The fetch coordinator

    The cache behind the interface [Cache] of the adapter is not among the
    sources.  Its operation [Resolve] is modelled here from sections 3,
    4.2, 5 and 9 of the specification, as tasks that take atomic steps on
    a shared state under a scheduler, like the goroutines of the adapter.
    Expiration, eviction and the content of the stored files are left
    out: no time passes in a run. *)

Module Coordinator.

(** Modelled from the spec: the pull policy of [FetchOptions] (section 3:
    Always, IfNotPresent, Never, Unspecified); the Go enum is missing. *)
Inductive PullPolicy := Always | IfNotPresent | Never | Unspecified.

(** Modelled from the spec: [FetchOptions] (section 3), the value type of
    the options of a fetch, missing from the sources; it is not part of
    the cache key. *)
Record FetchOptions := mkFetchOptions {
  fo_ResourceName : string;
  fo_ResourceVersion : string;
  fo_RequestTimeout : time_Duration;
  fo_PullSecret : list Byte.byte;
  fo_PullPolicy : PullPolicy
}.

(** Modelled from the spec: [CacheKey] (section 3), the normalized identity
    [{uri, checksum}] of a fetch, missing from the sources. *)
Definition CacheKey : Type := string * string.

(** Modelled from the spec: the errors of [Resolve] (sections 4.2 and 7):
    the typed fetch error, the checksum mismatch, and the failure of the
    policy [Never] on a key that is not cached; the error type of the
    coordinator is missing from the sources. *)
Inductive ResolveError :=
| FetchFailure (reason : string)
| ChecksumMismatch
| NotCached.

(** The outcome of a call: a local path or an error. *)
Definition Outcome : Type := ResolveError + string.

(** The collaborators of the coordinator (section 6): the transport, which
    fetches bytes given a URI, a timeout and credentials, a call of which
    is one step of the network; the digest of an artifact; and the
    content-addressed file name of a key in the store directory. *)
Class Transport (N : Type) := {
  retrieve : N → string → time_Duration → list Byte.byte
             → (string + list Byte.byte) * N;
  digest : list Byte.byte → string;
  artifactPath : CacheKey → string
}.

(** Modelled from the spec: step 1 of [Resolve] (section 4.2): the key is
    computed from the URI and the checksum, the sentinel ["nil"] being
    treated as empty; the function is missing from the sources. *)
Definition keyOf (uri checksum : string) : CacheKey :=
  (uri, if decide (checksum = "nil") then "" else checksum).

(** Modelled from the spec: the timeout of the network retrieval, 5s if
    unset (step 4 of section 4.2); missing from the sources. *)
Definition timeoutOf (options : FetchOptions) : time_Duration :=
  if decide (fo_RequestTimeout options = 0%Z) then (time_Second * 5)%Z
  else fo_RequestTimeout options.

(** Modelled from the spec: the shared state of the coordinator (sections
    5 and 9): the index from keys to stored artifacts, the table of the
    requests in flight, from keys to handles, and the handles themselves,
    settled with an outcome or not yet; with the network, and the log of
    the transfers made, latest first, each with the handle of the request
    that made it.  The state of the cache is missing from the sources. *)
Record state (N : Type) := mkState {
  st_net : N;
  st_index : gmap CacheKey string;
  st_inflight : gmap CacheKey nat;
  st_handles : list (option Outcome);
  st_transfers : list (CacheKey * nat)
}.
Arguments mkState {N}.
Arguments st_net {N}.
Arguments st_index {N}.
Arguments st_inflight {N}.
Arguments st_handles {N}.
Arguments st_transfers {N}.

(** Modelled from the spec: a call of [Resolve] on its way through the
    algorithm of section 4.2: issued; leading a request, before the policy
    check (step 3), before the fetch (steps 4 to 6) and before the
    release (step 7); suspended on the request of another call (step 2);
    and returned, with the handle of the request that served it.  The
    code of [Resolve] is missing from the sources. *)
Inductive task :=
| Resolve (uri checksum : string) (options : FetchOptions)
| Acquired (key : CacheKey) (options : FetchOptions) (handle : nat)
| Fetching (key : CacheKey) (options : FetchOptions) (handle : nat)
| Settling (key : CacheKey) (handle : nat) (result : Outcome)
| Suspended (handle : nat)
| Returned (handle : nat) (result : Outcome).

Section Machine.
Context {N : Type} `{!Transport N}.

(** Modelled from the spec: steps 4 and 5 of section 4.2, the fetch and
    the verification: a failure of the transport is a typed fetch error;
    with an expected checksum, a digest that differs is a checksum
    mismatch; otherwise the artifact is placed under its content-addressed
    name.  The code is missing from the sources. *)
Definition verified (key : CacheKey) (got : string + list Byte.byte)
  : Outcome :=
  match got with
  | inl reason => inl (FetchFailure reason)
  | inr bytes =>
    if decide (key.2 ≠ "" ∧ digest bytes ≠ key.2) then inl ChecksumMismatch
    else inr (artifactPath key)
  end.

(** Modelled from the spec: one atomic step of a call of [Resolve]
    (section 4.2, with the exclusion of sections 5 and 9: the look-up and
    the registration in the table of requests in flight are one step, and
    so are the update of the index, the settling of the handle and its
    removal from the table).  The code is missing from the sources. *)
Definition step (σ : state N) (t : task) : state N * task :=
  match t with
  | Resolve uri checksum options =>
    let key := keyOf uri checksum in
    match st_inflight σ !! key with
    | Some h => (σ, Suspended h)
    | None =>
      let h := length (st_handles σ) in
      (mkState (st_net σ) (st_index σ) (<[key:=h]> (st_inflight σ))
         (st_handles σ ++ [None]) (st_transfers σ),
       Acquired key options h)
    end
  | Acquired key options h =>
    match fo_PullPolicy options, st_index σ !! key with
    | Never, Some path => (σ, Settling key h (inr path))
    | Never, None => (σ, Settling key h (inl NotCached))
    | Always, _ => (σ, Fetching key options h)
    | _, Some path => (σ, Settling key h (inr path))
    | _, None => (σ, Fetching key options h)
    end
  | Fetching key options h =>
    let '(got, net') :=
      retrieve (st_net σ) key.1 (timeoutOf options) (fo_PullSecret options) in
    (mkState net' (st_index σ) (st_inflight σ) (st_handles σ)
       ((key, h) :: st_transfers σ),
     Settling key h (verified key got))
  | Settling key h result =>
    (mkState (st_net σ)
       match result with
       | inr path => <[key:=path]> (st_index σ)
       | inl _ => st_index σ
       end
       (delete key (st_inflight σ))
       (<[h:=Some result]> (st_handles σ)) (st_transfers σ),
     Returned h result)
  | Suspended h =>
    match st_handles σ !! h with
    | Some (Some result) => (σ, Returned h result)
    | _ => (σ, t)
    end
  | Returned _ _ => (σ, t)
  end.

(** A call can take a step unless it has returned or is suspended on a
    request that is not settled. *)
Definition can_run (σ : state N) (t : task) : bool :=
  match t with
  | Returned _ _ => false
  | Suspended h =>
    match st_handles σ !! h with
    | Some (Some _) => true
    | _ => false
    end
  | _ => true
  end.

Definition runnable (σ : state N) (pool : list task) : list nat :=
  filter (λ i, from_option (can_run σ) false (pool !! i) = true)
         (seq 0 (length pool)).

(** The scheduler, as for the goroutines of the adapter: at its [t]-th
    decision it picks, by [sched t], one of the calls that can take a
    step. *)
Fixpoint run (sched : nat → nat) (fuel t : nat) (σ : state N)
    (pool : list task) : state N * list task :=
  match fuel with
  | O => (σ, pool)
  | S fuel' =>
    match runnable σ pool with
    | [] => (σ, pool)
    | i0 :: rest =>
      let i := nth (sched t mod length (i0 :: rest)) (i0 :: rest) i0 in
      match pool !! i with
      | Some task =>
        let '(σ', task') := step σ task in
        run sched fuel' (S t) σ' (<[i:=task']> pool)
      | None => (σ, pool)
      end
    end
  end.

(** A call takes at most this many steps. *)
Definition call_steps : nat := 4.

(** Calls of [Resolve] for one URI and checksum, one for each of the
    options given, issued together while no request is in flight: the
    state and the calls after the first [fuel] decisions of the
    scheduler, and at the end. *)
Definition resolving (sched : nat → nat) (fuel : nat) (net : N)
    (index : gmap CacheKey string) (uri checksum : string)
    (options : list FetchOptions) : state N * list task :=
  run sched fuel 0 (mkState net index ∅ [] [])
    (Resolve uri checksum <$> options).

Definition resolveAll (sched : nat → nat) (net : N)
    (index : gmap CacheKey string) (uri checksum : string)
    (options : list FetchOptions) : state N * list task :=
  resolving sched (call_steps * length options) net index uri checksum options.







(** A call has arrived when it has looked for a request in flight. *)
Definition arrived (t : task) : bool :=
  match t with
  | Resolve _ _ _ => false
  | _ => true
  end.

(** The calls are concurrent: at some moment of the run every call has
    arrived and the request of the first to arrive is the only one and is
    not complete. *)
Definition concurrent (sched : nat → nat) (net : N)
    (index : gmap CacheKey string) (uri checksum : string)
    (options : list FetchOptions) : Prop :=
  ∃ fuel,
    forallb arrived
      (resolving sched fuel net index uri checksum options).2 = true ∧
    st_handles (resolving sched fuel net index uri checksum options).1
      = [None].


End Machine.

(** *** A sample network *)

(** The network is the number of transfers made so far; the module at
    [Sample.moduleUri] is there, nothing else is. *)
Definition transport : Transport nat := {|
  retrieve n uri timeout secret :=
    if decide (uri = Sample.moduleUri) then (inr Sample.moduleBinary, S n)
    else (inl "404 Not Found", S n);
  digest bytes := "d1c1";
  artifactPath key :=
    "/var/lib/istio/data/" +:+ (if decide (key.2 = "") then "u-" +:+ key.1
                                else key.2)
|}.

Definition options (policy : PullPolicy) : FetchOptions :=
  mkFetchOptions "plugin-a" "7" 0%Z [] policy.

(** Every call arrives before the first is looked at again. *)
Definition arrivalsFirst (n : nat) : nat → nat :=
  λ t, if decide (t = 0)%nat then 0%nat
       else if decide (t < n)%nat then 1%nat else 0%nat.
End Coordinator.

(** ** More sample data

    A protobuf runtime that decodes what it encoded, over two tables; a
    module that the sample cache cannot fetch; plugins of a filter
    chain. *)

Module Fixtures.
Import Sample.

#[local] Existing Instance byte_eq_dec.
#[local] Existing Instance Any_eq_dec.
#[local] Existing Instance Wasm_eq_dec.
#[local] Existing Instance TypedExtensionConfig_eq_dec.

(** The key under which a table holds a value. *)
Definition encode {V : Type} `{EqDecision V} (v : V) (t : list (Any * V))
  : option Any :=
  fst <$> find (λ e, bool_decide (e.2 = v)) t.

(** a remote module without environment, before and after its conversion *)
Definition plainWasm : Wasm :=
  wasmOf "plugin-p" (remoteVm moduleUri "" None).
Definition plainLocalWasm : Wasm :=
  wasmOf "plugin-p"
    (mkVmConfig "" "envoy.wasm.runtime.v8"
       (Some (AsyncDataSource_Local (DataSource_Filename modulePath)))
       None false false None).
Definition ecPlain : TypedExtensionConfig :=
  mkTypedExtensionConfig "plugin-p" (Some (wasmAny "plain")).

(** the control plane: a plugin that names a pull secret, the secrets, and
    the Wasm config of the plugin with the secret in place of its name;
    and secrets whose bytes are not a UTF-8 string *)
Definition pluginA : WasmPluginWrapper :=
  mkWasmPluginWrapper "plugin-a" remoteWasm.
Definition pullSecrets : gmap string (list Byte.byte) :=
  {[ "token" := payload "s3cr3t" ]}.
Definition resolvedWasm : Wasm :=
  resolvePullSecret (H:=constants) pullSecrets remoteWasm.
Definition binarySecrets : gmap string (list Byte.byte) :=
  {[ "token" := [Byte.xff; Byte.xfe] ]}.

Definition wasmCodec : list (Any * Wasm) :=
  [ (wasmAny "plain", plainWasm); (wasmAny "plain-local", plainLocalWasm);
    (wasmAny "resolved", resolvedWasm) ].

Definition ecCodec : list (Any * TypedExtensionConfig) :=
  [ (resource "plain", ecPlain);
    (resource "plain-local",
     mkTypedExtensionConfig "plugin-p" (Some (wasmAny "plain-local")));
    (resource "allow-all", ecRbac);
    (resource "resolved",
     mkTypedExtensionConfig "plugin-a" (Some (wasmAny "resolved")));
    (resource "no-typed-config", mkTypedExtensionConfig "plugin-a" None) ].

Definition roundTrip : Protobuf := {|
  UnmarshalTo_TypedExtensionConfig a :=
    from_option inr (inl (LibError "proto: cannot parse")) (assoc a ecCodec);
  UnmarshalTo_Wasm a :=
    from_option inr (inl (LibError "proto: cannot parse")) (assoc a wasmCodec);
  UnmarshalTo_TypedStruct a := inl (LibError "proto: cannot parse");
  StructToMessage v := None;
  anypb_New_Wasm w :=
    from_option inr (inl (LibError "proto: cannot marshal"))
      (encode w wasmCodec);
  anypb_New_TypedExtensionConfig ec :=
    from_option inr (inl (LibError "proto: cannot marshal"))
      (encode ec ecCodec);
  MessageToAny w := encode w wasmCodec;
  AsDuration d := (dur_Seconds d * 1000000000 + dur_Nanos d)%Z
|}.

(** modules whose inspection fails: a file that is not a Wasm module, a
    module with a section [wamr-aot-] whose version does not parse, and a
    path at which there is no file *)
Definition brokenUri : string := "https://example/broken.wasm".
Definition brokenPath : string := "/var/lib/istio/data/broken.wasm".
Definition oddAotUri : string := "https://example/odd-aot.wasm".
Definition oddAotPath : string := "/var/lib/istio/data/odd-aot.wasm".
Definition goneUri : string := "https://example/gone.wasm".
Definition gonePath : string := "/var/lib/istio/data/gone.wasm".

Definition faultyWazero : Wazero := {|
  CustomSectionNames b :=
    if decide (b = payload "odd-aot")
    then Some ["producers"; "wamr-aot-latest"; "wamr-aot"]
    else @CustomSectionNames wazero b
|}.

Definition faultyWorld : World nat := {|
  cache_Get n uri opts :=
    if decide (uri = brokenUri) then (inr brokenPath, S n)
    else if decide (uri = oddAotUri) then (inr oddAotPath, S n)
    else if decide (uri = goneUri) then (inr gonePath, S n)
    else @cache_Get nat world n uri opts;
  os_ReadFile n path :=
    if decide (path = brokenPath) then Some (payload "not a module")
    else if decide (path = oddAotPath) then Some (payload "odd-aot")
    else @os_ReadFile nat world n path
|}.

Definition brokenWasm : Wasm := wasmOf "plugin-x" (remoteVm brokenUri "" None).
Definition oddAotWasm : Wasm := wasmOf "plugin-y" (remoteVm oddAotUri "" None).
Definition goneWasm : Wasm := wasmOf "plugin-z" (remoteVm goneUri "" None).
Definition ecBroken : TypedExtensionConfig :=
  mkTypedExtensionConfig "plugin-x" (Some (wasmAny "broken")).

(** a remote module at a place the sample cache knows nothing of *)
Definition missingUri : string := "https://example/missing.wasm".
Definition unreachableWasm : Wasm :=
  wasmOf "plugin-u" (remoteVm missingUri "" None).
Definition ecUnreachable : TypedExtensionConfig :=
  mkTypedExtensionConfig "plugin-u" (Some (wasmAny "unreachable")).

(** the filter chain: [FAIL_OPEN] is 1, the phases are numbered from
    [UNSPECIFIED_PHASE] (0) to [STATS] (3) *)
Definition extensionCollaborators : ExtensionCollaborators := {|
  xds_RBACHTTPFilterType := RBACHTTPFilterType;
  FailStrategy_FAIL_OPEN := 1%Z;
  anypb_New_Composite :=
    Some (mkAny ("type.googleapis.com/" +:+ compositeFilterType) []);
  MessageToAny_RBAC := mkAny RBACHTTPFilterType []
|}.

Definition authn : WasmPlugin :=
  mkWasmPlugin (mkWasmPluginWrapper "authn" localWasm) 0%Z.
Definition waf : WasmPlugin :=
  mkWasmPlugin (mkWasmPluginWrapper "waf" remoteWasm) 1%Z.
Definition stats : WasmPlugin :=
  mkWasmPlugin (mkWasmPluginWrapper "stats" localWasm) 0%Z.

Definition filterMap : gmap Z (list WasmPlugin) :=
  {[ 1%Z := [authn; waf]; 3%Z := [stats] ]}.
End Fixtures.

(** * Properties *)

Local Open Scope nat_scope.

(** ** Programs *)

Lemma world_only_mono {A : Type} n m (p : prog A) :
  world_only n p → n ≤ m → world_only m p.
Proof.
  intros Hp. revert m.
  induction Hp as [n a|n uri opts k _ IH|n path k _ IH|n tag k _ IH];
    intros m Hm; [constructor|..];
    (destruct m as [|m]; [lia|]); constructor; try intros x; apply IH; lia.
Qed.

Lemma safe_mono (i : nat) {A : Type} n m (p : prog A) :
  safe i n p → n ≤ m → safe i m p.
Proof.
  intros Hp. revert m.
  induction Hp as [n a|n uri opts k _ IH|n path k _ IH|n tag k _ IH
                  |n k _ IH|n a k _ IH|n e k _ IH];
    intros m Hm; [constructor|..];
    (destruct m as [|m]; [lia|]); constructor; try intros x; apply IH; lia.
Qed.

Lemma world_only_bind {A B : Type} n m (p : prog A) (K : A → prog B) :
  world_only n p → (∀ a, world_only m (K a)) → world_only (n + m) (bind p K).
Proof.
  intros Hp HK.
  induction Hp as [n a|n uri opts k _ IH|n path k _ IH|n tag k _ IH]; simpl.
  - eapply world_only_mono; [apply HK|lia].
  - constructor. intros x. apply IH.
  - constructor. intros x. apply IH.
  - constructor. apply IH.
Qed.

Lemma safe_bind (i : nat) {A B : Type} n m (p : prog A) (K : A → prog B) :
  world_only n p → (∀ a, safe i m (K a)) → safe i (n + m) (bind p K).
Proof.
  intros Hp HK.
  induction Hp as [n a|n uri opts k _ IH|n path k _ IH|n tag k _ IH]; simpl.
  - eapply safe_mono; [apply HK|lia].
  - constructor. intros x. apply IH.
  - constructor. intros x. apply IH.
  - constructor. apply IH.
Qed.

Lemma safe_finished (i n : nat) (p : prog unit) :
  safe i n p → finished p = true → p = Ret tt.
Proof. intros Hp Hf. destruct Hp as [n []| | | | | |]; done. Qed.

Lemma safe_zero (i : nat) (p : prog unit) : safe i 0 p → finished p = true.
Proof. inversion 1; done. Qed.


(** ** One goroutine among the others *)

Section Pool.
Context `{!Constants, !Protobuf, !GoVersion, !Wazero}.
Context {W : Type} `{!World W}.

Lemma slot_of_Some (σ : state W) j s :
  slot_of σ j = Some s ↔
  st_resources σ !! j = Some s.1 ∧ st_convertErrs σ !! j = Some s.2.
Proof.
  unfold slot_of. destruct s as [a e]; simpl.
  destruct (st_resources σ !! j), (st_convertErrs σ !! j);
    (split; [intros [= <- <-]; done|intros [[= <-] [= <-]]; done]).
Qed.

(** A step of goroutine [i] is a step on its own slot: the other slots and
    the lengths of the slices stay as they are. *)
Lemma step_prog_safe i n (σ : state W) (p : prog unit) s :
  safe i n p → finished p = false → slot_of σ i = Some s →
  ∃ s', slot_of (step_prog σ p).1 i = Some s' ∧
        tstep i (p, s) ((step_prog σ p).2, s') ∧
        safe i (pred n) (step_prog σ p).2 ∧ 0 < n ∧
        length (st_resources (step_prog σ p).1) = length (st_resources σ) ∧
        length (st_convertErrs (step_prog σ p).1) = length (st_convertErrs σ) ∧
        ∀ j, j ≠ i → slot_of (step_prog σ p).1 j = slot_of σ j.
Proof.
  intros Hp Hf Hs. pose proof Hs as Hs'. apply slot_of_Some in Hs' as [Hr He].
  destruct Hp as [n a|n uri opts k Hk|n path k Hk|n tag k Hk
                 |n k Hk|n a k Hk|n e k Hk]; simpl in *; try done.
  - destruct (cache_Get (st_world σ) uri opts) as [got w'] eqn:Hget; simpl.
    exists s. split_and!; auto with lia.
    replace got with (cache_Get (st_world σ) uri opts).1 by (by rewrite Hget).
    constructor.
  - exists s. split_and!; auto with lia. constructor.
  - exists s. split_and!; auto with lia. constructor.
  - rewrite Hr. simpl. exists s. split_and!; auto with lia. constructor.
  - apply lookup_lt_Some in Hr as Hlt. rewrite decide_True by done. simpl.
    exists (a, s.2). split_and!; auto with lia.
    + apply slot_of_Some; simpl. by rewrite list_lookup_insert_eq.
    + constructor.
    + by rewrite length_insert.
    + intros j Hj. unfold slot_of; simpl. by rewrite list_lookup_insert_ne.
  - apply lookup_lt_Some in He as Hlt. rewrite decide_True by done. simpl.
    exists (s.1, Some e). split_and!; auto with lia.
    + apply slot_of_Some; simpl. by rewrite list_lookup_insert_eq.
    + constructor.
    + by rewrite length_insert.
    + intros j Hj. unfold slot_of; simpl. by rewrite list_lookup_insert_ne.
Qed.

Lemma elem_of_runnable (pool : list (prog unit)) i :
  i ∈ runnable pool ↔ ∃ p, pool !! i = Some p ∧ finished p = false.
Proof.
  unfold runnable. rewrite list_elem_of_filter, elem_of_seq. split.
  - intros [Hf [_ Hlt]]. simpl in Hlt.
    destruct (lookup_lt_is_Some_2 pool i Hlt) as [p Hp].
    exists p. by rewrite Hp in Hf.
  - intros (p & Hp & Hf). rewrite Hp. split; [done|].
    apply lookup_lt_Some in Hp. lia.
Qed.

Lemma runnable_nil (pool : list (prog unit)) :
  runnable pool = [] → Forall (λ p, finished p = true) pool.
Proof.
  intros Hnil. apply Forall_lookup. intros i p Hp.
  destruct (finished p) eqn:Hf; [done|].
  assert (i ∈ runnable pool) as Hin by (apply elem_of_runnable; eauto).
  rewrite Hnil in Hin. by apply not_elem_of_nil in Hin.
Qed.

Lemma pick_in_list (l : list nat) (d k : nat) :
  l ≠ [] → nth (k mod length l) l d ∈ l.
Proof.
  intros Hl. apply list_elem_of_In, nth_In.
  apply Nat.mod_upper_bound. by destruct l.
Qed.

Lemma sum_list_insert_lt (l : list nat) i n m :
  l !! i = Some n → m < n → sum_list (<[i:=m]> l) < sum_list l.
Proof.
  revert i. induction l as [|x l IH]; intros [|i] Hi Hm; simpl in *; try done.
  - injection Hi as ->. lia.
  - specialize (IH i Hi Hm). lia.
Qed.

Lemma sum_list_zero (l : list nat) i n :
  sum_list l = 0 → l !! i = Some n → n = 0.
Proof.
  revert i. induction l as [|x l IH]; intros [|i] Hs Hi; simpl in *; try done.
  - injection Hi as ->. lia.
  - apply (IH i); [lia|done].
Qed.

Lemma pool_inv_finished resources bounds (σ : state W) pool :
  pool_inv resources bounds σ pool → sum_list bounds = 0 →
  Forall (λ p, finished p = true) pool.
Proof.
  intros (Hr & He & Hp & Hb & Hall) Hsum. apply Forall_lookup. intros j p Hj.
  destruct (lookup_lt_is_Some_2 resources j) as [r Hrj].
  { apply lookup_lt_Some in Hj. lia. }
  destruct (Hall j r Hrj) as (p' & s & n & Hp' & _ & Hn & Hsafe & _).
  assert (p' = p) as -> by congruence.
  rewrite (sum_list_zero _ _ _ Hsum Hn) in Hsafe. by eapply safe_zero.
Qed.

(** The invariant is kept by a step of any goroutine that can run. *)
Lemma pool_inv_step resources bounds (σ : state W) pool i p :
  pool_inv resources bounds σ pool →
  pool !! i = Some p → finished p = false →
  ∃ bounds',
    pool_inv resources bounds' (step_prog σ p).1 (<[i:=(step_prog σ p).2]> pool) ∧
    sum_list bounds' < sum_list bounds.
Proof.
  intros (Hr & He & Hp & Hb & Hall) Hi Hf.
  destruct (lookup_lt_is_Some_2 resources i) as [r Hri].
  { apply lookup_lt_Some in Hi. lia. }
  destruct (Hall i r Hri) as (p' & s & n & Hp' & Hs & Hn & Hsafe & Hrtc).
  assert (p' = p) as -> by congruence.
  destruct (step_prog_safe i n σ p s Hsafe Hf Hs)
    as (s' & Hs' & Hstep & Hsafe' & Hpos & Hlr & Hle & Hother).
  exists (<[i:=pred n]> bounds). split.
  - split_and!; rewrite ?length_insert; try congruence.
    intros j rj Hrj. destruct (decide (j = i)) as [->|Hne].
    + assert (rj = r) as -> by congruence.
      exists (step_prog σ p).2, s', (pred n). split_and!; auto.
      * apply list_lookup_insert_eq. by eapply lookup_lt_Some.
      * apply list_lookup_insert_eq. by eapply lookup_lt_Some.
      * eapply rtc_r; eauto.
    + destruct (Hall j rj Hrj) as (pj & sj & nj & Hpj & Hsj & Hnj & Hsafej & Hrtcj).
      exists pj, sj, nj. split_and!; auto.
      * by rewrite list_lookup_insert_ne.
      * by rewrite Hother.
      * by rewrite list_lookup_insert_ne.
  - eapply sum_list_insert_lt; [done|lia].
Qed.

(** Whatever the scheduler decides, with enough fuel every goroutine comes
    to its end, having acted on its own slot only. *)
Lemma run_pool_inv sched fuel t resources bounds (σ : state W) pool :
  pool_inv resources bounds σ pool → sum_list bounds ≤ fuel →
  ∃ bounds',
    pool_inv resources bounds' (run sched fuel t σ pool).1
      (run sched fuel t σ pool).2 ∧
    Forall (λ p, finished p = true) (run sched fuel t σ pool).2.
Proof.
  revert t bounds σ pool.
  induction fuel as [|fuel IH]; intros t bounds σ pool Hinv Hsum; cbn [run].
  - exists bounds. split; [done|].
    eapply pool_inv_finished; [done|lia].
  - destruct (runnable pool) as [|i0 rest] eqn:Hrun.
    { exists bounds. split; [done|]. by apply runnable_nil. }
    set (i := nth (sched t mod length (i0 :: rest)) (i0 :: rest) i0).
    assert (i ∈ runnable pool) as Hin.
    { rewrite Hrun. by apply pick_in_list. }
    apply elem_of_runnable in Hin as (p & Hp & Hf). rewrite Hp.
    destruct (pool_inv_step _ _ _ _ _ _ Hinv Hp Hf) as (bounds' & Hinv' & Hlt).
    destruct (step_prog σ p) as [σ' p'] eqn:Hstep; simpl in *.
    apply (IH (S t) bounds'); [done|lia].
Qed.
End Pool.

(** ** The goroutine of the adapter *)

Section Goroutine.
Context `{!Constants, !Protobuf, !GoVersion, !Wazero}.
Context {W : Type} `{!World W}.
Context (maxVersion : Version).
Context (Hmax : NewVersion wamrAotMaxVersion = Some maxVersion).

Lemma scanCustomSections_world_only sections :
  world_only 0 (scanCustomSections sections).
Proof.
  induction sections as [|name rest IH]; simpl; [constructor|].
  destruct (HasPrefix name wamrAotPrefix).
  - destruct (NewVersion (TrimPrefix name wamrAotPrefix)); [|constructor].
    rewrite Hmax. constructor.
  - destruct (decide (name = wamrAot)); [constructor|done].
Qed.

Lemma containsWamrAotInCustomSection_world_only path :
  world_only 1 (containsWamrAotInCustomSection path).
Proof.
  constructor. intros [wasmBinary|]; [|constructor].
  destruct (CustomSectionNames wasmBinary); [|constructor].
  apply scanCustomSections_world_only.
Qed.

Lemma rewriteToLocal_world_only ec w vm f has :
  world_only 1 (rewriteToLocal ec w vm f has).
Proof.
  unfold rewriteToLocal.
  destruct (anypb_New_Wasm _); [repeat constructor|].
  destruct (anypb_New_TypedExtensionConfig _); repeat constructor.
Qed.

Lemma convertWasmConfigFromRemoteToLocal_world_only ec w :
  world_only 3 (convertWasmConfigFromRemoteToLocal ec w).
Proof.
  unfold convertWasmConfigFromRemoteToLocal.
  destruct (GetVmConfig (wasm_Config w)) as [vm|]; [|repeat constructor].
  destruct (readAndStripEnvs _ vm) as [err|[[[pullSecret pullPolicy] rv] vm']];
    [repeat constructor|].
  destruct (GetRemote (vm_Code vm')) as [remote|]; [|repeat constructor].
  destruct (GetHttpUri (Some remote)) as [httpURI|]; [|repeat constructor].
  constructor. intros [err|f]; [repeat constructor|].
  apply (world_only_bind 1 1).
  - apply containsWamrAotInCustomSection_world_only.
  - intros has. apply rewriteToLocal_world_only.
Qed.

Lemma goroutine_safe i : safe i goroutine_steps (goroutine i).
Proof.
  unfold goroutine_steps, goroutine. constructor. intros resource.
  destruct (tryUnmarshal resource) as [err|[[ec w]|]].
  - repeat constructor.
  - apply (safe_bind i 3 1).
    + apply convertWasmConfigFromRemoteToLocal_world_only.
    + intros [err|nec]; repeat constructor.
  - repeat constructor.
Qed.

Lemma pool_inv_init resources counts (w : W) :
  pool_inv resources (replicate (length resources) goroutine_steps)
    (mkState w counts resources (replicate (length resources) None))
    (goroutine <$> seq 0 (length resources)).
Proof.
  split_and!; simpl;
    rewrite ?length_replicate, ?length_fmap, ?length_seq; try done.
  intros j r Hj. apply lookup_lt_Some in Hj as Hlt.
  exists (goroutine j), (r, None), goroutine_steps. split_and!.
  - rewrite list_lookup_fmap, lookup_seq_lt by done. done.
  - apply slot_of_Some; simpl. split; [done|].
    by apply lookup_replicate_2.
  - by apply lookup_replicate_2.
  - apply goroutine_safe.
  - done.
Qed.

(** Whatever the scheduler decides, the call returns, and each slot holds
    what its own goroutine made of it. *)
Lemma MaybeConvert_slots sched resources counts (w : W) :
  ∃ resources' errs counts' w',
    MaybeConvertWasmExtensionConfig sched resources counts w =
      Returned resources' (ErrorOrNil (multierror_Append_nil errs)) counts' w' ∧
    st_resources (runGoroutines sched resources counts w).1 = resources' ∧
    st_convertErrs (runGoroutines sched resources counts w).1 = errs ∧
    length resources' = length resources ∧
    length errs = length resources ∧
    ∀ j r, resources !! j = Some r →
      ∃ a e, resources' !! j = Some a ∧ errs !! j = Some e ∧
             rtc (tstep j) (goroutine j, (r, None)) (Ret tt, (a, e)).
Proof.
  unfold MaybeConvertWasmExtensionConfig, runGoroutines.
  destruct (run_pool_inv sched (goroutine_steps * length resources) 0 resources
              _ _ _ (pool_inv_init resources counts w))
    as (bounds & (Hr & He & Hp & Hb & Hall) & Hfin).
  { rewrite sum_list_replicate. lia. }
  destruct (run sched _ 0 _ _) as [σ pool]; simpl in *.
  assert (Forall (λ p, p = Ret tt) pool) as Hret.
  { apply Forall_lookup. intros j p Hj.
    destruct (lookup_lt_is_Some_2 resources j) as [r Hrj].
    { apply lookup_lt_Some in Hj. lia. }
    destruct (Hall j r Hrj) as (p' & s & n & Hp' & _ & _ & Hsafe & _).
    assert (p' = p) as -> by congruence.
    eapply safe_finished; [done|].
    by eapply (proj1 (Forall_lookup _ _) Hfin). }
  assert (forallb returned pool = true) as ->.
  { apply forallb_forall. intros p Hin%list_elem_of_In.
    by rewrite (proj1 (Forall_forall _ _) Hret p Hin). }
  exists (st_resources σ), (st_convertErrs σ), (st_counts σ), (st_world σ).
  split_and!; [done..|].
  intros j r Hrj.
  destruct (Hall j r Hrj) as (p & [a e] & n & Hp' & Hs & _ & _ & Hrtc).
  apply slot_of_Some in Hs as [Ha Hee]; simpl in *.
  exists a, e. split_and!; [done..|].
  assert (p = Ret tt) as <-; [|done].
  by eapply (proj1 (Forall_lookup _ _) Hret).
Qed.

(** A program that touches no slot runs to a value, then the rest goes on. *)
Lemma bind_rtc_inv {A : Type} j n (p : prog A) (K : A → prog unit) s s' :
  world_only n p →
  rtc (tstep (W:=W) j) (bind p K, s) (Ret tt, s') →
  ∃ a, may_return (W:=W) p a ∧ rtc (tstep (W:=W) j) (K a, s) (Ret tt, s').
Proof.
  intros Hp. revert s.
  induction Hp as [n a|n uri opts k _ IH|n path k _ IH|n tag k _ IH];
    intros s Hrtc; simpl in Hrtc.
  - exists a. split; [constructor|done].
  - apply rtc_inv in Hrtc as [[=]|(y & Hstep & Hrtc)].
    inversion Hstep; subst.
    destruct (IH _ _ Hrtc) as (a & Hret & Hrest).
    exists a. split; [|done]. by econstructor.
  - apply rtc_inv in Hrtc as [[=]|(y & Hstep & Hrtc)].
    inversion Hstep; subst.
    destruct (IH _ _ Hrtc) as (a & Hret & Hrest).
    exists a. split; [|done]. by econstructor.
  - apply rtc_inv in Hrtc as [[=]|(y & Hstep & Hrtc)].
    inversion Hstep; subst.
    destruct (IH _ Hrtc) as (a & Hret & Hrest).
    exists a. split; [|done]. by econstructor.
Qed.

(** Only the starting point is a path to itself. *)
Lemma rtc_tstep_Ret j s s' :
  rtc (tstep (W:=W) j) (Ret tt, s) (Ret tt, s') → s' = s.
Proof.
  intros Hrtc. apply rtc_inv in Hrtc as [[= ->]|(y & Hstep & _)]; [done|].
  inversion Hstep.
Qed.

(** What a goroutine leaves in its slot is an outcome of its resource. *)
Lemma goroutine_outcome j r a e :
  rtc (tstep (W:=W) j) (goroutine j, (r, None)) (Ret tt, (a, e)) →
  resource_outcome (W:=W) r a e.
Proof.
  unfold goroutine. intros Hrtc.
  apply rtc_inv in Hrtc as [[=]|(y & Hstep & Hrtc)].
  inversion Hstep; subst; simpl in *. clear Hstep.
  destruct (tryUnmarshal r) as [err|[[ec w]|]] eqn:Htry.
  - apply rtc_inv in Hrtc as [[=]|(y & Hstep & Hrtc)].
    inversion Hstep; subst; clear Hstep.
    apply rtc_inv in Hrtc as [[=]|(y & Hstep & Hrtc)].
    inversion Hstep; subst; clear Hstep.
    apply rtc_tstep_Ret in Hrtc as [= -> ->]. by constructor.
  - eapply bind_rtc_inv in Hrtc as ([err|nec] & Hret & Hrtc);
      [| |apply convertWasmConfigFromRemoteToLocal_world_only].
    + apply rtc_inv in Hrtc as [[=]|(y & Hstep & Hrtc)].
      inversion Hstep; subst; clear Hstep.
      apply rtc_tstep_Ret in Hrtc as [= -> ->].
      by eapply outcome_conversion_failure.
    + apply rtc_inv in Hrtc as [[=]|(y & Hstep & Hrtc)].
      inversion Hstep; subst; clear Hstep.
      apply rtc_tstep_Ret in Hrtc as [= -> ->].
      by eapply outcome_converted.
  - apply rtc_inv in Hrtc as [[=]|(y & Hstep & Hrtc)].
    inversion Hstep; subst; clear Hstep.
    apply rtc_tstep_Ret in Hrtc as [= -> ->]. by constructor.
Qed.

(** The slots of a returned batch, by the outcome of each resource. *)
Lemma MaybeConvert_outcomes sched resources counts (w : W) :
  ∃ resources' errs counts' w',
    MaybeConvertWasmExtensionConfig sched resources counts w =
      Returned resources' (ErrorOrNil (multierror_Append_nil errs)) counts' w' ∧
    st_resources (runGoroutines sched resources counts w).1 = resources' ∧
    st_convertErrs (runGoroutines sched resources counts w).1 = errs ∧
    length resources' = length resources ∧
    length errs = length resources ∧
    ∀ j r, resources !! j = Some r →
      ∃ a e, resources' !! j = Some a ∧ errs !! j = Some e ∧
             resource_outcome (W:=W) r a e.
Proof.
  destruct (MaybeConvert_slots sched resources counts w)
    as (resources' & errs & counts' & w' & Heq & Hsr & Hse & Hlr & Hle & Hall).
  exists resources', errs, counts', w'. split_and!; [done..|].
  intros j r Hj. destruct (Hall j r Hj) as (a & e & Ha & He & Hrtc).
  exists a, e. split_and!; [done..|]. by apply (goroutine_outcome j).
Qed.

Lemma elem_of_multierror_Append_nil (errs : list (option error)) err :
  err ∈ multierror_Append_nil errs ↔ ∃ j, errs !! j = Some (Some err).
Proof.
  unfold multierror_Append_nil. rewrite list_elem_of_omap. split.
  - intros (x & Hx & Hid). simpl in Hid. subst x.
    by apply list_elem_of_lookup in Hx.
  - intros [j Hj]. exists (Some err). split; [|done].
    apply list_elem_of_lookup. by exists j.
Qed.

Lemma ErrorOrNil_None (errs : list (option error)) :
  ErrorOrNil (multierror_Append_nil errs) = None ↔
  ∀ j e, errs !! j = Some e → e = None.
Proof.
  unfold multierror_Append_nil. split.
  - intros Hnil j e Hj. destruct e as [err|]; [|done].
    assert (err ∈ omap id errs) as Hin.
    { apply list_elem_of_omap. exists (Some err). split; [|done].
      apply list_elem_of_lookup. by exists j. }
    destruct (omap id errs); [by apply not_elem_of_nil in Hin|done].
  - intros Hall. destruct (omap id errs) as [|err rest] eqn:Homap; [done|].
    assert (err ∈ omap id errs) as Hin by (rewrite Homap; apply list_elem_of_here).
    apply list_elem_of_omap in Hin as (x & Hx & Hid). simpl in Hid. subst x.
    apply list_elem_of_lookup in Hx as [j Hj]. by specialize (Hall j _ Hj).
Qed.

(** With stateless answers a program returns one value only. *)
Lemma may_return_functional {A : Type} (p : prog A) a a' :
  answers_stateless (W:=W) →
  may_return (W:=W) p a → may_return (W:=W) p a' → a = a'.
Proof.
  intros [Hcache Hfiles] Hret. revert a'.
  induction Hret as [a|uri opts k w a _ IH|path k w a _ IH|tag k a _ IH];
    intros a' Hret'.
  - by inversion Hret'.
  - inversion Hret' as [|? ? ? w' ? Hk| |]; subst.
    apply IH. by rewrite (Hcache w w').
  - inversion Hret' as [| |? ? w' ? Hk|]; subst.
    apply IH. by rewrite (Hfiles w w').
  - inversion Hret' as [| | |? ? ? Hk]; subst. by apply IH.
Qed.

Lemma resource_outcome_functional r a e a' e' :
  answers_stateless (W:=W) →
  resource_outcome (W:=W) r a e → resource_outcome (W:=W) r a' e' →
  a = a' ∧ e = e'.
Proof.
  intros Hstateless Hout Hout'.
  inversion Hout as [err Htry|Htry|ec w err Htry Hret|ec w nec Htry Hret];
    inversion Hout' as [err' Htry'|Htry'|ec' w' err' Htry' Hret'
                       |ec' w' nec' Htry' Hret'];
    subst; try (split; congruence).
  all: assert (ec' = ec ∧ w' = w) as [-> ->] by (split; congruence).
  all: pose proof (may_return_functional _ _ _ Hstateless Hret Hret') as Heq.
  all: by simplify_eq.
Qed.

(** A resource whose processing can only fail with [err] keeps its place in
    the batch, and [err] is in the error returned, whatever the scheduler
    decides. *)
Lemma MaybeConvert_failed_slot sched resources counts (w : W) i r err :
  resources !! i = Some r →
  (∀ a e, resource_outcome (W:=W) r a e → a = r ∧ e = Some err) →
  st_resources (runGoroutines sched resources counts w).1 !! i = Some r ∧
  st_convertErrs (runGoroutines sched resources counts w).1 !! i
    = Some (Some err) ∧
  ∃ resources' errs counts' w',
    MaybeConvertWasmExtensionConfig sched resources counts w
      = Returned resources' (Some (MultiError errs)) counts' w' ∧
    err ∈ errs.
Proof.
  intros Hi Hout.
  destruct (MaybeConvert_outcomes sched resources counts w)
    as (resources' & errs & counts' & w' & Heq & Hsr & Hse & _ & _ & Hall).
  destruct (Hall i r Hi) as (a & e & Ha & He & Houtcome).
  destruct (Hout a e Houtcome) as [-> ->].
  rewrite Hsr, Hse. split_and!; [done..|].
  assert (err ∈ multierror_Append_nil errs) as Hin.
  { apply elem_of_multierror_Append_nil. by exists i. }
  exists resources', (multierror_Append_nil errs), counts', w'.
  split; [|done]. rewrite Heq.
  by destruct (multierror_Append_nil errs); [apply not_elem_of_nil in Hin|].
Qed.

(** A resource whose processing can only leave it as it is stays in the
    batch with no error recorded, whatever the scheduler decides. *)
Lemma MaybeConvert_bypassed_slot sched resources counts (w : W) i r :
  resources !! i = Some r →
  (∀ a e, resource_outcome (W:=W) r a e → a = r ∧ e = None) →
  st_resources (runGoroutines sched resources counts w).1 !! i = Some r ∧
  st_convertErrs (runGoroutines sched resources counts w).1 !! i = Some None.
Proof.
  intros Hi Hout.
  destruct (MaybeConvert_outcomes sched resources counts w)
    as (resources' & errs & counts' & w' & Heq & Hsr & Hse & _ & _ & Hall).
  destruct (Hall i r Hi) as (a & e & Ha & He & Houtcome).
  destruct (Hout a e Houtcome) as [-> ->].
  by rewrite Hsr, Hse.
Qed.
End Goroutine.

(** ** The inspection of the fetched module *)

Section Inspection.
Context `{!Constants, !Protobuf, !GoVersion, !Wazero}.
Context {W : Type} `{!World W}.

Lemma scanCustomSections_granted (maxVersion : Version) sections :
  NewVersion wamrAotMaxVersion = Some maxVersion →
  scanCustomSections sections = Ret (wamrHintGranted maxVersion sections).
Proof.
  intros Hmax. unfold wamrHintGranted.
  induction sections as [|name rest IH]; simpl; [done|].
  destruct (HasPrefix name wamrAotPrefix) eqn:Hprefix; simpl.
  - rewrite orb_false_r.
    destruct (NewVersion (TrimPrefix name wamrAotPrefix)); [|done].
    by rewrite Hmax.
  - destruct (decide (name = wamrAot)) as [->|Hne].
    + rewrite bool_decide_true by apply list_elem_of_here.
      by rewrite orb_true_r.
    + rewrite IH. do 2 f_equal. apply bool_decide_ext.
      rewrite elem_of_cons. split; [by right|intros [?|?]; [congruence|done]].
Qed.

(** The scan stops at the first section that has the prefix or is named
    [wamr-aot]; when that one has the prefix and a version that does not
    parse, there is no hint. *)
Lemma scanCustomSections_parse_error sections name :
  find (λ s, HasPrefix s wamrAotPrefix || bool_decide (s = wamrAot)) sections
    = Some name →
  HasPrefix name wamrAotPrefix = true →
  NewVersion (TrimPrefix name wamrAotPrefix) = None →
  scanCustomSections sections = Ret false.
Proof.
  intros Hfind Hprefix Hparse.
  induction sections as [|s rest IH]; simpl in *; [done|].
  destruct (HasPrefix s wamrAotPrefix) eqn:Hs; simpl in *.
  - injection Hfind as ->. by rewrite Hparse.
  - destruct (decide (s = wamrAot)) as [->|Hne].
    + rewrite bool_decide_true in Hfind by done. injection Hfind as <-.
      congruence.
    + rewrite bool_decide_false in Hfind by done. auto.
Qed.

(** A program that touches no slot and does not panic runs to a value, one
    that it can return. *)
Lemma run_prog_may_return {A : Type} n (p : prog A) (σ : state W) :
  world_only n p →
  ∃ σ' a, run_prog σ p = (σ', Some a) ∧ may_return (W:=W) p a.
Proof.
  intros Hp. revert σ.
  induction Hp as [n a|n uri opts k _ IH|n path k _ IH|n tag k _ IH];
    intros σ; simpl.
  - exists σ, a. split; [done|constructor].
  - destruct (cache_Get (st_world σ) uri opts) as [got w'] eqn:Hget.
    destruct (IH got (mkState w' (st_counts σ) (st_resources σ)
                        (st_convertErrs σ))) as (σ' & a & Hrun & Hret).
    exists σ', a. split; [done|].
    apply (may_return_cache uri opts k (st_world σ)). by rewrite Hget.
  - destruct (IH (os_ReadFile (st_world σ) path) σ) as (σ' & a & Hrun & Hret).
    exists σ', a. split; [done|]. by econstructor.
  - destruct (IH (mkState (st_world σ) (tag :: st_counts σ) (st_resources σ)
                    (st_convertErrs σ))) as (σ' & a & Hrun & Hret).
    exists σ', a. split; [done|]. by constructor.
Qed.

(** Whatever the path, the inspection returns a boolean and leaves the
    state as it is; the boolean is [false] when the file cannot be read,
    when the bytes do not compile as a Wasm module, and when the version
    of the section the scan stops at does not parse. *)
Lemma containsWamrAotInCustomSection_inspected (maxVersion : Version)
    (σ : state W) (path : string) :
  NewVersion wamrAotMaxVersion = Some maxVersion →
  ∃ b : bool,
    run_prog σ (containsWamrAotInCustomSection path) = (σ, Some b) ∧
    (∀ (A : Type) (K : bool → prog A),
       run_prog σ (bind (containsWamrAotInCustomSection path) K)
       = run_prog σ (K b)) ∧
    (os_ReadFile (st_world σ) path = None → b = false) ∧
    (∀ wasmBinary,
       os_ReadFile (st_world σ) path = Some wasmBinary →
       CustomSectionNames wasmBinary = None → b = false) ∧
    (∀ wasmBinary sections name,
       os_ReadFile (st_world σ) path = Some wasmBinary →
       CustomSectionNames wasmBinary = Some sections →
       find (λ s, HasPrefix s wamrAotPrefix || bool_decide (s = wamrAot))
            sections = Some name →
       HasPrefix name wamrAotPrefix = true →
       NewVersion (TrimPrefix name wamrAotPrefix) = None →
       b = false).
Proof.
  intros Hmax. unfold containsWamrAotInCustomSection; simpl.
  destruct (os_ReadFile (st_world σ) path) as [wasmBinary|] eqn:Hread;
    [|exists false; split_and!; done].
  destruct (CustomSectionNames wasmBinary) as [sections|] eqn:Hcompile;
    [|exists false; split_and!; try done].
  exists (wamrHintGranted maxVersion sections).
  rewrite (scanCustomSections_granted maxVersion) by done.
  split_and!; try done.
  - intros ? [= <-] Hnone. congruence.
  - intros ? sections' name [= <-] Hsome Hfind Hprefix Hparse.
    assert (sections' = sections) as -> by congruence.
    pose proof (scanCustomSections_parse_error _ _ Hfind Hprefix Hparse)
      as Hscan.
    rewrite (scanCustomSections_granted maxVersion) in Hscan by done.
    by injection Hscan.
Qed.

(** C9. The scan of the custom sections returns the hint of the
    specification: [true] exactly when the first section with the prefix
    [wamr-aot-] carries a version that parses and is less than
    [wamrAotMaxVersion], or a section named [wamr-aot] comes before any
    section with the prefix; [containsWamrAotInCustomSection] returns
    [true] exactly when the file is read, compiles and its sections grant
    the hint; and once a section with the prefix is met the later ones are
    not looked at: met first with a version that is not less than the
    maximum, it gives no hint whatever follows it. *)
Theorem wamr_hint_granted_exactly (maxVersion : Version) :
  NewVersion wamrAotMaxVersion = Some maxVersion →
  (∀ sections,
     scanCustomSections sections = Ret (wamrHintGranted maxVersion sections)) ∧
  (∀ (σ : state W) path,
     run_prog σ (containsWamrAotInCustomSection path) = (σ, Some true) ↔
     ∃ wasmBinary sections,
       os_ReadFile (st_world σ) path = Some wasmBinary ∧
       CustomSectionNames wasmBinary = Some sections ∧
       wamrHintGranted maxVersion sections = true) ∧
  (∀ before name after v,
     Forall (λ s, HasPrefix s wamrAotPrefix = false ∧ s ≠ wamrAot) before →
     HasPrefix name wamrAotPrefix = true →
     NewVersion (TrimPrefix name wamrAotPrefix) = Some v →
     LessThan v maxVersion = false →
     scanCustomSections (before ++ name :: after) = Ret false).
Proof.
  intros Hmax. split_and!.
  - intros sections. by apply scanCustomSections_granted.
  - intros σ path. unfold containsWamrAotInCustomSection; simpl.
    destruct (os_ReadFile (st_world σ) path) as [wasmBinary|] eqn:Hread.
    + destruct (CustomSectionNames wasmBinary) as [sections|] eqn:Hcompile.
      * rewrite (scanCustomSections_granted maxVersion) by done. simpl. split.
        -- intros [= Hb]. by exists wasmBinary, sections.
        -- intros (binary' & sections' & Hb & Hs & Hgranted).
           assert (binary' = wasmBinary) as -> by congruence.
           assert (sections' = sections) as -> by congruence.
           by rewrite Hgranted.
      * simpl. split; [done|].
        intros (binary' & sections' & Hb & Hs & _).
        assert (binary' = wasmBinary) as -> by congruence. congruence.
    + simpl. split; [done|]. by intros (? & ? & [=] & _).
  - intros before name after v Hbefore Hprefix Hparse Hless.
    induction Hbefore as [|s before [Hs Hne] _ IH]; simpl.
    + by rewrite Hprefix, Hparse, Hmax, Hless.
    + rewrite Hs. by rewrite decide_False.
Qed.
End Inspection.

(** ** The conversion of one remote Wasm config *)

Section Conversion.
Context `{!Constants, !Protobuf, !GoVersion, !Wazero}.
Context {W : Type} `{!World W}.

Lemma deleteWithPrefix_fold prefix (m0 m : gmap string string) k :
  map_fold (λ k _ acc, if HasPrefix k prefix then delete k acc else acc) m0 m
    !! k
  = match m !! k with
    | Some _ => if HasPrefix k prefix then None else m0 !! k
    | None => m0 !! k
    end.
Proof.
  revert k.
  apply (map_fold_weak_ind
    (λ (acc m : gmap string string), ∀ k, acc !! k =
       match m !! k with
       | Some _ => if HasPrefix k prefix then None else m0 !! k
       | None => m0 !! k
       end)).
  - intros k. by rewrite lookup_empty.
  - intros i x m' acc Hi IH k.
    destruct (decide (k = i)) as [->|Hne].
    + rewrite lookup_insert_eq. specialize (IH i). rewrite Hi in IH.
      destruct (HasPrefix i prefix); [apply lookup_delete_eq|done].
    + rewrite lookup_insert_ne by done.
      destruct (HasPrefix i prefix); [rewrite lookup_delete_ne by done|];
        apply IH.
Qed.

Lemma deleteWithPrefix_lookup prefix (m : gmap string string) k :
  deleteWithPrefix prefix m !! k = if HasPrefix k prefix then None else m !! k.
Proof.
  unfold deleteWithPrefix. rewrite deleteWithPrefix_fold.
  destruct (m !! k) eqn:Hk; [done|]. by destruct (HasPrefix k prefix).
Qed.

Lemma deleteWithPrefix_empty prefix (m : gmap string string) :
  size (deleteWithPrefix prefix m) = 0 ↔
  ∀ k v, m !! k = Some v → HasPrefix k prefix = true.
Proof.
  rewrite map_size_empty_iff, map_empty. split.
  - intros Hall k v Hk. specialize (Hall k).
    rewrite deleteWithPrefix_lookup in Hall.
    destruct (HasPrefix k prefix); [done|congruence].
  - intros Hall k. rewrite deleteWithPrefix_lookup.
    destruct (HasPrefix k prefix) eqn:Hp; [done|].
    destruct (m !! k) as [v|] eqn:Hk; [|done].
    specialize (Hall k v Hk). congruence.
Qed.

Lemma may_return_bind_inv {A B : Type} (p : prog A) (K : A → prog B) b :
  may_return (W:=W) (bind p K) b →
  ∃ a, may_return (W:=W) p a ∧ may_return (W:=W) (K a) b.
Proof.
  induction p as [a| |uri opts k IH|path k IH|tag k IH|i k IH|i a k IH|i e k IH];
    simpl; intros Hret.
  - exists a. split; [constructor|done].
  - inversion Hret.
  - inversion Hret as [|? ? ? w a Hk| |]; subst.
    destruct (IH _ Hk) as (a' & Ha & Hb). exists a'. split; [|done].
    by econstructor.
  - inversion Hret as [| |? ? w a Hk|]; subst.
    destruct (IH _ Hk) as (a' & Ha & Hb). exists a'. split; [|done].
    by econstructor.
  - inversion Hret as [| | |? ? a Hk]; subst.
    destruct (IH Hk) as (a' & Ha & Hb). exists a'. split; [|done].
    by econstructor.
  - inversion Hret.
  - inversion Hret.
  - inversion Hret.
Qed.

Lemma fetches_bind_inv {A B : Type} uri o (p : prog A) (K : A → prog B) :
  fetches uri o (bind p K) → fetches uri o p ∨ ∃ a, fetches uri o (K a).
Proof.
  induction p as [a| |uri' o' k IH|path k IH|tag k IH|i k IH|i a k IH|i e k IH];
    simpl; intros Hf.
  - right. by exists a.
  - inversion Hf.
  - inversion Hf as [|? ? ? x Hk| | | | |]; subst.
    + left. constructor.
    + destruct (IH _ Hk) as [Hp|Ha]; [left|by right]. by econstructor.
  - inversion Hf as [| |? ? x Hk| | | |]; subst.
    destruct (IH _ Hk) as [Hp|Ha]; [left|by right]. by econstructor.
  - inversion Hf as [| | |? ? Hk| | |]; subst.
    destruct (IH Hk) as [Hp|Ha]; [left|by right]. by econstructor.
  - inversion Hf as [| | | |? ? x Hk| |]; subst.
    destruct (IH _ Hk) as [Hp|Ha]; [left|by right]. by econstructor.
  - inversion Hf as [| | | | |? ? ? Hk|]; subst.
    destruct (IH Hk) as [Hp|Ha]; [left|by right]. by econstructor.
  - inversion Hf as [| | | | | |? ? ? Hk]; subst.
    destruct (IH Hk) as [Hp|Ha]; [left|by right]. by econstructor.
Qed.

Lemma scanCustomSections_no_fetch uri o sections :
  ¬ fetches uri o (scanCustomSections sections).
Proof.
  induction sections as [|name rest IH]; simpl; [by inversion 1|].
  destruct (HasPrefix name wamrAotPrefix).
  - destruct (NewVersion (TrimPrefix name wamrAotPrefix)); [|by inversion 1].
    destruct (NewVersion wamrAotMaxVersion); by inversion 1.
  - destruct (decide (name = wamrAot)); [by inversion 1|done].
Qed.

Lemma containsWamrAotInCustomSection_no_fetch uri o path :
  ¬ fetches uri o (containsWamrAotInCustomSection path).
Proof.
  unfold containsWamrAotInCustomSection.
  inversion 1 as [| |? ? x Hk| | | |]; subst.
  destruct x as [wasmBinary|]; [|by inversion Hk].
  destruct (CustomSectionNames wasmBinary); [|by inversion Hk].
  by apply scanCustomSections_no_fetch in Hk.
Qed.

Lemma rewriteToLocal_no_fetch uri o ec w vm f has :
  ¬ fetches uri o (rewriteToLocal ec w vm f has).
Proof.
  unfold rewriteToLocal.
  destruct (anypb_New_Wasm _).
  { inversion 1 as [| | |? ? Hk| | |]; inversion Hk. }
  destruct (anypb_New_TypedExtensionConfig _);
    inversion 1 as [| | |? ? Hk| | |]; inversion Hk.
Qed.

(** What the environment block computes when the secret is not missing. *)
Lemma readAndStripEnvs_inr name vm pullSecret pullPolicy resourceVersion vm' :
  readAndStripEnvs name vm
    = inr (pullSecret, pullPolicy, resourceVersion, vm') →
  match vm_EnvironmentVariables vm with
  | None =>
    pullSecret = [] ∧ pullPolicy = PullPolicy_UNSPECIFIED_POLICY ∧
    resourceVersion = "" ∧ vm' = vm
  | Some envs =>
    let keyValues := deleteWithPrefix IstioMetaPrefix <$> env_KeyValues envs in
    map_index (env_KeyValues envs) WasmSecretEnv ≠ Some "" ∧
    pullSecret = from_option list_byte_of_string []
                   (map_index (env_KeyValues envs) WasmSecretEnv) ∧
    pullPolicy = default PullPolicy_UNSPECIFIED_POLICY
                   (map_index (env_KeyValues envs) WasmPolicyEnv
                      ≫= (λ ps, PullPolicy_value !! ps)) ∧
    resourceVersion
      = map_index_default (env_KeyValues envs) WasmResourceVersionEnv ∧
    vm' = setEnvironmentVariables vm
            (if decide (map_len keyValues = 0) then
               if decide (length (env_HostEnvKeys envs) = 0) then None
               else Some (mkEnvironmentVariables (env_HostEnvKeys envs) None)
             else Some (mkEnvironmentVariables (env_HostEnvKeys envs)
                          keyValues))
  end.
Proof.
  unfold readAndStripEnvs.
  destruct (vm_EnvironmentVariables vm) as [envs|] eqn:Henvs.
  - destruct (map_index (env_KeyValues envs) WasmSecretEnv) as [sec|] eqn:Hsec;
      simpl.
    + destruct (decide (sec = "")) as [->|Hne]; [done|].
      intros [= <- <- <- <-]. split_and!; try done.
      * congruence.
      * by destruct (map_index (env_KeyValues envs) WasmPolicyEnv) as [ps|];
          simpl; [destruct (PullPolicy_value !! ps)|].
      * by repeat case_decide.
    + intros [= <- <- <- <-]. split_and!; try done.
      * by destruct (map_index (env_KeyValues envs) WasmPolicyEnv) as [ps|];
          simpl; [destruct (PullPolicy_value !! ps)|].
      * by repeat case_decide.
  - by intros [= <- <- <- <-].
Qed.

Lemma readAndStripEnvs_Code name vm pullSecret pullPolicy resourceVersion vm' :
  readAndStripEnvs name vm
    = inr (pullSecret, pullPolicy, resourceVersion, vm') →
  vm_Code vm' = vm_Code vm.
Proof.
  intros Hread%readAndStripEnvs_inr.
  destruct (vm_EnvironmentVariables vm).
  - by destruct Hread as (_ & _ & _ & _ & ->).
  - by destruct Hread as (_ & _ & _ & ->).
Qed.

(** The inspection returns a boolean and leaves the state as it is. *)
Lemma containsWamrAotInCustomSection_run (maxVersion : Version)
    (σ : state W) path :
  NewVersion wamrAotMaxVersion = Some maxVersion →
  ∃ b : bool, ∀ (A : Type) (K : bool → prog A),
    run_prog σ (bind (containsWamrAotInCustomSection path) K)
    = run_prog σ (K b).
Proof.
  intros Hmax. unfold containsWamrAotInCustomSection; simpl.
  destruct (os_ReadFile (st_world σ) path) as [wasmBinary|];
    [|by exists false].
  destruct (CustomSectionNames wasmBinary) as [sections|];
    [|by exists false].
  exists (wamrHintGranted maxVersion sections).
  by rewrite (scanCustomSections_granted maxVersion).
Qed.

Lemma rewriteToLocal_run ec w vm f has (σ : state W) :
  ∃ r, run_prog σ (rewriteToLocal ec w vm f has)
       = (mkState (st_world σ) (statusOf r :: st_counts σ) (st_resources σ)
            (st_convertErrs σ), Some r).
Proof.
  unfold rewriteToLocal.
  destruct (anypb_New_Wasm _) as [err|typedConfig].
  { match goal with
    | |- context [ErrMarshalWasm ?x ?e] => by exists (inl (ErrMarshalWasm x e))
    end. }
  destruct (anypb_New_TypedExtensionConfig _) as [err|nec].
  - by exists (inl (ErrMarshalExtensionConfig err)).
  - by exists (inr nec).
Qed.

(** The run of the rewriting, by what the marshalling gives: it fails
    only when one of the two messages cannot be marshalled. *)
Lemma rewriteToLocal_run_cases ec w vm f has (σ : state W) :
  ∃ r, run_prog σ (rewriteToLocal ec w vm f has)
       = (mkState (st_world σ) (statusOf r :: st_counts σ) (st_resources σ)
            (st_convertErrs σ), Some r) ∧
    match r with
    | inr nec =>
      ∃ vm2 typedConfig,
        anypb_New_Wasm (withVmConfig w vm2) = inr typedConfig ∧
        anypb_New_TypedExtensionConfig
          (mkTypedExtensionConfig (ec_Name ec) (Some typedConfig)) = inr nec ∧
        vm_Code vm2 = Some (AsyncDataSource_Local (DataSource_Filename f)) ∧
        vm_Runtime vm2 = (if has then wamrRuntime else vm_Runtime vm) ∧
        vm_AllowPrecompiled vm2
          = (if has then true else vm_AllowPrecompiled vm)
    | inl err =>
      (∃ m e, err = ErrMarshalWasm m e ∧ anypb_New_Wasm m = inl e) ∨
      (∃ m e, err = ErrMarshalExtensionConfig e ∧
              anypb_New_TypedExtensionConfig m = inl e)
    end.
Proof.
  unfold rewriteToLocal.
  destruct (anypb_New_Wasm _) as [err|typedConfig] eqn:Hwasm.
  { match goal with
    | |- context [ErrMarshalWasm ?x ?e] =>
      exists (inl (ErrMarshalWasm x e)); split; [done|left; by exists x, e]
    end. }
  destruct (anypb_New_TypedExtensionConfig _) as [err|nec] eqn:Hec.
  - exists (inl (ErrMarshalExtensionConfig err)). split; [done|right]. eauto.
  - exists (inr nec). split; [done|]. eexists _, typedConfig.
    split; [exact Hwasm|]. split; [exact Hec|]. by destruct has.
Qed.

#[local] Opaque containsWamrAotInCustomSection rewriteToLocal.

(** The conversion of a config with a remote source that has an HTTP URI,
    once the environment is read: the request to the cache, then the
    failure of the fetch or the inspection and the rewriting. *)
Lemma convert_request ec w vm pullSecret pullPolicy resourceVersion vm' remote
    httpURI :
  GetVmConfig (wasm_Config w) = Some vm →
  readAndStripEnvs (from_option pc_Name "" (wasm_Config w)) vm
    = inr (pullSecret, pullPolicy, resourceVersion, vm') →
  GetRemote (vm_Code vm) = Some remote →
  rds_HttpUri remote = Some httpURI →
  convertWasmConfigFromRemoteToLocal ec w
  = CacheGet (hu_Uri httpURI)
      {| Checksum := if decide (rds_Sha256 remote = "nil") then ""
                     else rds_Sha256 remote;
         ResourceName := ec_Name ec;
         ResourceVersion := resourceVersion;
         RequestTimeout := match hu_Timeout httpURI with
                           | Some t => AsDuration t
                           | None => (time_Second * 5)%Z
                           end;
         PullSecret := pullSecret;
         opt_PullPolicy := pullPolicy |}
      (λ got,
        match got with
        | inl err =>
          Increment fetchFailure
            (Ret (inl (ErrCannotFetch (hu_Uri httpURI) err)))
        | inr f =>
          bind (containsWamrAotInCustomSection f)
            (rewriteToLocal ec w
               (setCode vm'
                  (Some (AsyncDataSource_Remote
                           (if decide (rds_Sha256 remote = "nil")
                            then mkRemoteDataSource (rds_HttpUri remote) ""
                            else remote))))
               f)
        end).
Proof.
  intros Hvm Hread Hremote Huri.
  unfold convertWasmConfigFromRemoteToLocal.
  rewrite Hvm, Hread, (readAndStripEnvs_Code _ _ _ _ _ _ Hread), Hremote.
  change (GetHttpUri (Some remote)) with (rds_HttpUri remote). rewrite Huri.
  by case_decide.
Qed.

(** The one request that a conversion can make to the fetch cache. *)
Lemma convert_fetches ec w uri o :
  fetches uri o (convertWasmConfigFromRemoteToLocal ec w) →
  ∃ vm pullSecret pullPolicy resourceVersion vm' remote httpURI,
    GetVmConfig (wasm_Config w) = Some vm ∧
    readAndStripEnvs (from_option pc_Name "" (wasm_Config w)) vm
      = inr (pullSecret, pullPolicy, resourceVersion, vm') ∧
    GetRemote (vm_Code vm) = Some remote ∧
    rds_HttpUri remote = Some httpURI ∧
    uri = hu_Uri httpURI ∧
    o = {| Checksum := if decide (rds_Sha256 remote = "nil") then ""
                       else rds_Sha256 remote;
           ResourceName := ec_Name ec;
           ResourceVersion := resourceVersion;
           RequestTimeout := match hu_Timeout httpURI with
                             | Some t => AsDuration t
                             | None => (time_Second * 5)%Z
                             end;
           PullSecret := pullSecret;
           opt_PullPolicy := pullPolicy |}.
Proof.
  unfold convertWasmConfigFromRemoteToLocal.
  destruct (GetVmConfig (wasm_Config w)) as [vm|];
    [|by inversion 1 as [| | |? ? Hk| | |]; inversion Hk].
  destruct (readAndStripEnvs _ vm)
    as [err|[[[pullSecret pullPolicy] resourceVersion] vm']] eqn:Hread;
    [by inversion 1 as [| | |? ? Hk| | |]; inversion Hk|].
  rewrite (readAndStripEnvs_Code _ _ _ _ _ _ Hread).
  destruct (GetRemote (vm_Code vm)) as [remote|] eqn:Hremote;
    [|by inversion 1 as [| | |? ? Hk| | |]; inversion Hk].
  change (GetHttpUri (Some remote)) with (rds_HttpUri remote).
  destruct (rds_HttpUri remote) as [httpURI|] eqn:Huri;
    [|by inversion 1 as [| | |? ? Hk| | |]; inversion Hk].
  inversion 1 as [|? ? ? got Hk| | | | |]; subst.
  - exists vm, pullSecret, pullPolicy, resourceVersion, vm', remote, httpURI.
    split_and!; try done. by case_decide.
  - destruct got as [err|f].
    + inversion Hk as [| | |? ? Hk'| | |]; inversion Hk'.
    + apply fetches_bind_inv in Hk as [Hk|[has Hk]].
      * by apply containsWamrAotInCustomSection_no_fetch in Hk.
      * by apply rewriteToLocal_no_fetch in Hk.
Qed.

Lemma readAndStripEnvs_missing_secret name vm envs :
  vm_EnvironmentVariables vm = Some envs →
  map_index (env_KeyValues envs) WasmSecretEnv = Some "" →
  readAndStripEnvs name vm = inl (ErrMissingPullSecret name).
Proof. intros Henvs Hsec. unfold readAndStripEnvs. by rewrite Henvs, Hsec. Qed.

Lemma readAndStripEnvs_with_secret name vm envs :
  vm_EnvironmentVariables vm = Some envs →
  map_index (env_KeyValues envs) WasmSecretEnv ≠ Some "" →
  ∃ pullSecret pullPolicy resourceVersion vm',
    readAndStripEnvs name vm
      = inr (pullSecret, pullPolicy, resourceVersion, vm').
Proof.
  intros Henvs Hsec. unfold readAndStripEnvs. rewrite Henvs.
  destruct (map_index (env_KeyValues envs) WasmSecretEnv) as [sec|];
    [destruct (decide (sec = "")) as [->|]; [done|]|]; eauto.
Qed.

(** A conversion whose only effect is the deferred increment returns what
    it is fixed to return. *)
Lemma may_return_Increment_Ret {A : Type} tag (a b : A) :
  may_return (W:=W) (Increment tag (Ret a)) b → b = a.
Proof. inversion 1 as [| | |? ? ? Hk]; subst. by inversion Hk. Qed.

Lemma no_fetch_Increment_Ret {A : Type} tag (a : A) :
  ¬ consults_cache (Increment tag (Ret a)).
Proof. intros (uri & o & Hf). inversion Hf as [| | |? ? Hk| | |]. inversion Hk. Qed.

(** C10. A pull-policy value that is present in the environment but is not
    the name of a pull policy is ignored, and the fetch goes on with
    [UNSPECIFIED_POLICY]: for a remote source with an HTTP URI whose pull
    secret is not missing, the environment is read without an error and
    with that policy; the conversion is the request to the cache with that
    policy, followed by what follows every request (the failure of the
    fetch, or the inspection and the rewriting); it makes no request with
    another policy; and run from any state it returns, with an error only
    when the cache fails the fetch or one of the two messages cannot be
    marshalled.  The constant [wamrAotMaxVersion] is assumed to parse. *)
Theorem unknown_pull_policy_ignored (maxVersion : Version) ec w vm envs ps
    remote httpURI (σ : state W) :
  NewVersion wamrAotMaxVersion = Some maxVersion →
  GetVmConfig (wasm_Config w) = Some vm →
  vm_EnvironmentVariables vm = Some envs →
  map_index (env_KeyValues envs) WasmPolicyEnv = Some ps →
  PullPolicy_value !! ps = None →
  map_index (env_KeyValues envs) WasmSecretEnv ≠ Some "" →
  GetRemote (vm_Code vm) = Some remote →
  rds_HttpUri remote = Some httpURI →
  ∃ pullSecret resourceVersion vm',
    readAndStripEnvs (from_option pc_Name "" (wasm_Config w)) vm
      = inr (pullSecret, PullPolicy_UNSPECIFIED_POLICY, resourceVersion, vm') ∧
    let uri := hu_Uri httpURI in
    let o := {| Checksum := if decide (rds_Sha256 remote = "nil") then ""
                            else rds_Sha256 remote;
                ResourceName := ec_Name ec;
                ResourceVersion := resourceVersion;
                RequestTimeout := match hu_Timeout httpURI with
                                  | Some t => AsDuration t
                                  | None => (time_Second * 5)%Z
                                  end;
                PullSecret := pullSecret;
                opt_PullPolicy := PullPolicy_UNSPECIFIED_POLICY |} in
    convertWasmConfigFromRemoteToLocal ec w
    = CacheGet uri o
        (λ got,
          match got with
          | inl err => Increment fetchFailure (Ret (inl (ErrCannotFetch uri err)))
          | inr f =>
            bind (containsWamrAotInCustomSection f)
              (rewriteToLocal ec w
                 (setCode vm'
                    (Some (AsyncDataSource_Remote
                             (if decide (rds_Sha256 remote = "nil")
                              then mkRemoteDataSource (rds_HttpUri remote) ""
                              else remote))))
                 f)
          end) ∧
    (∀ uri' o',
       fetches uri' o' (convertWasmConfigFromRemoteToLocal ec w) →
       opt_PullPolicy o' = PullPolicy_UNSPECIFIED_POLICY) ∧
    ∃ σ' r,
      run_prog σ (convertWasmConfigFromRemoteToLocal ec w) = (σ', Some r) ∧
      match r with
      | inr nec => ∃ f, (cache_Get (st_world σ) uri o).1 = inr f
      | inl err =>
        (∃ e, (cache_Get (st_world σ) uri o).1 = inl e ∧
              err = ErrCannotFetch uri e) ∨
        (∃ m e, err = ErrMarshalWasm m e ∧ anypb_New_Wasm m = inl e) ∨
        (∃ m e, err = ErrMarshalExtensionConfig e ∧
                anypb_New_TypedExtensionConfig m = inl e)
      end.
Proof.
  intros Hmax Hvm Henvs Hps Hvalue Hsec Hremote Huri.
  assert (∀ name pullSecret pullPolicy resourceVersion vm',
            readAndStripEnvs name vm
              = inr (pullSecret, pullPolicy, resourceVersion, vm') →
            pullPolicy = PullPolicy_UNSPECIFIED_POLICY) as Hpolicy.
  { intros name pullSecret pullPolicy resourceVersion vm' Hread.
    apply readAndStripEnvs_inr in Hread. rewrite Henvs in Hread.
    destruct Hread as (_ & _ & -> & _). rewrite Hps.
    unfold mbind, option_bind. by rewrite Hvalue. }
  destruct (readAndStripEnvs_with_secret
              (from_option pc_Name "" (wasm_Config w)) vm envs Henvs Hsec)
    as (pullSecret & pullPolicy & resourceVersion & vm' & Hread).
  pose proof (Hpolicy _ _ _ _ _ Hread) as ->.
  exists pullSecret, resourceVersion, vm'. split; [done|].
  pose proof (convert_request ec w vm _ _ _ _ remote httpURI
                Hvm Hread Hremote Huri) as Hconv.
  intros uri o. split; [exact Hconv|]. split.
  - intros uri' o' Hf.
    apply convert_fetches in Hf
      as (vm0 & pullSecret0 & pullPolicy0 & resourceVersion0 & vm0' & remote0
          & httpURI0 & Hvm0 & Hread0 & _ & _ & _ & ->).
    assert (vm0 = vm) as -> by congruence. simpl. by eapply Hpolicy.
  - rewrite Hconv. simpl. fold uri o.
    destruct (cache_Get (st_world σ) uri o) as [[err|f] world'] eqn:Hget.
    + simpl. eexists _, (inl (ErrCannotFetch uri err)). split; [done|].
      left. by exists err.
    + destruct (containsWamrAotInCustomSection_run maxVersion
                  (mkState world' (st_counts σ) (st_resources σ)
                     (st_convertErrs σ)) f Hmax) as [b Hb].
      rewrite Hb.
      match goal with
      | |- context [rewriteToLocal ec w ?vm1 f b] =>
        destruct (rewriteToLocal_run_cases ec w vm1 f b
                    (mkState world' (st_counts σ) (st_resources σ)
                       (st_convertErrs σ))) as (r & Hr & Hcases)
      end.
      rewrite Hr. eexists _, r. split; [done|].
      destruct r as [err|nec]; [by right|by exists f].
Qed.

(** What upstream leaves in the environment for a secret name that it
    cannot resolve. *)
Lemma insertedExtensionConfiguration_unresolved
    (pullSecrets : gmap string (list Byte.byte)) p kv secretName :
  GetKeyValues (wp_WasmExtensionConfig p) = Some kv →
  kv !! WasmSecretEnv = Some secretName →
  secretName ≠ "" →
  pullSecrets !! secretName = None →
  ∃ w', insertedExtensionConfiguration pullSecrets p
          = mkTypedExtensionConfig (wp_ResourceName p) (MessageToAny w') ∧
        map_index (GetKeyValues w') WasmSecretEnv = Some "".
Proof.
  intros Hkv Hname Hne Hnone. unfold insertedExtensionConfiguration.
  assert (map_index_default (GetKeyValues (wp_WasmExtensionConfig p))
            WasmSecretEnv = secretName) as ->.
  { unfold map_index_default, map_index. rewrite Hkv. simpl. by rewrite Hname. }
  rewrite decide_True by done. rewrite Hnone.
  eexists. split; [done|].
  destruct (wp_WasmExtensionConfig p) as [[[name rootId [vm|] conf failOpen]|]];
    try done.
  destruct vm as [? ? ? ? ? ? [[hostEnvKeys [kv'|]]|]]; try done.
  unfold map_index, GetKeyValues; simpl. apply lookup_insert_eq.
Qed.

(** C4. A remote Wasm config whose environment holds the pull-secret key
    with an empty value fails with the missing-secret error, and the fetch
    cache is not consulted: the conversion is the deferred increment of the
    counter and the return of the error, it consults the cache on no path,
    and run from any state it leaves the world (the cache and its files) as
    it was, so no artifact cached before is served.  In a batch, the slot
    of such a resource keeps the resource and holds the error, which is in
    the returned error, whatever the scheduler does.  Upstream,
    [InsertedExtensionConfigurations] puts the empty value in place of a
    secret name that it cannot resolve. *)
Theorem missing_pull_secret_fails_before_fetch ec w vm envs :
  GetVmConfig (wasm_Config w) = Some vm →
  vm_EnvironmentVariables vm = Some envs →
  map_index (env_KeyValues envs) WasmSecretEnv = Some "" →
  let err := ErrMissingPullSecret (from_option pc_Name "" (wasm_Config w)) in
  convertWasmConfigFromRemoteToLocal ec w
    = Increment fetchFailure (Ret (inl err)) ∧
  ¬ consults_cache (convertWasmConfigFromRemoteToLocal ec w) ∧
  (∀ σ : state W,
     run_prog σ (convertWasmConfigFromRemoteToLocal ec w)
     = (mkState (st_world σ) (fetchFailure :: st_counts σ) (st_resources σ)
          (st_convertErrs σ), Some (inl err))) ∧
  (∀ (maxVersion : Version) sched resources counts (world : W) i resource,
     NewVersion wamrAotMaxVersion = Some maxVersion →
     resources !! i = Some resource →
     tryUnmarshal resource = inr (Some (ec, w)) →
     st_resources (runGoroutines sched resources counts world).1 !! i
       = Some resource ∧
     st_convertErrs (runGoroutines sched resources counts world).1 !! i
       = Some (Some err) ∧
     ∃ resources' errs counts' world',
       MaybeConvertWasmExtensionConfig sched resources counts world
         = Returned resources' (Some (MultiError errs)) counts' world' ∧
       err ∈ errs) ∧
  (∀ (pullSecrets : gmap string (list Byte.byte)) p kv secretName,
     GetKeyValues (wp_WasmExtensionConfig p) = Some kv →
     kv !! WasmSecretEnv = Some secretName →
     secretName ≠ "" →
     pullSecrets !! secretName = None →
     ∃ w', insertedExtensionConfiguration pullSecrets p
             = mkTypedExtensionConfig (wp_ResourceName p) (MessageToAny w') ∧
           map_index (GetKeyValues w') WasmSecretEnv = Some "").
Proof.
  intros Hvm Henvs Hsec err.
  assert (convertWasmConfigFromRemoteToLocal ec w
            = Increment fetchFailure (Ret (inl err))) as Hconvert.
  { unfold convertWasmConfigFromRemoteToLocal.
    by rewrite Hvm, (readAndStripEnvs_missing_secret _ _ _ Henvs Hsec). }
  split_and!.
  - done.
  - rewrite Hconvert. apply no_fetch_Increment_Ret.
  - intros σ. by rewrite Hconvert.
  - intros maxVersion sched resources counts world i resource Hmax Hi Htry.
    apply (MaybeConvert_failed_slot maxVersion Hmax); [done|].
    intros a e Hout.
    inversion Hout as [? Htry'|Htry'|ec' w' ? Htry' Hret|ec' w' ? Htry' Hret];
      subst; try congruence.
    + assert (ec' = ec ∧ w' = w) as [-> ->] by (split; congruence).
      rewrite Hconvert in Hret. apply may_return_Increment_Ret in Hret.
      by injection Hret as <-.
    + assert (ec' = ec ∧ w' = w) as [-> ->] by (split; congruence).
      rewrite Hconvert in Hret. by apply may_return_Increment_Ret in Hret.
  - apply insertedExtensionConfiguration_unresolved.
Qed.

#[local] Transparent rewriteToLocal.

Lemma may_return_CacheGet_inv {A : Type} uri opts k (a : A) :
  may_return (W:=W) (CacheGet uri opts k) a →
  ∃ w : W, may_return (W:=W) (k (cache_Get w uri opts).1) a.
Proof. inversion 1; subst. eauto. Qed.

Lemma rewriteToLocal_inr ec w vm f has nec :
  may_return (W:=W) (rewriteToLocal ec w vm f has) (inr nec) →
  ∃ vm' typedConfig,
    vm_EnvironmentVariables vm' = vm_EnvironmentVariables vm ∧
    anypb_New_Wasm (withVmConfig w vm') = inr typedConfig ∧
    anypb_New_TypedExtensionConfig
      (mkTypedExtensionConfig (ec_Name ec) (Some typedConfig)) = inr nec.
Proof.
  unfold rewriteToLocal. intros Hret.
  destruct (anypb_New_Wasm _) as [err|typedConfig] eqn:Hwasm.
  { by apply may_return_Increment_Ret in Hret. }
  destruct (anypb_New_TypedExtensionConfig _) as [err|nec'] eqn:Hec.
  { by apply may_return_Increment_Ret in Hret. }
  apply may_return_Increment_Ret in Hret. injection Hret as ->.
  eexists _, typedConfig. split_and!; [|exact Hwasm|exact Hec].
  by destruct has.
Qed.

Lemma GetKeyValues_withVmConfig w vm vm' :
  GetVmConfig (wasm_Config w) = Some vm →
  GetKeyValues (withVmConfig w vm')
  = vm_EnvironmentVariables vm' ≫= env_KeyValues.
Proof. by destruct w as [[c|]]. Qed.

Lemma GetKeyValues_GetVmConfig w vm :
  GetVmConfig (wasm_Config w) = Some vm →
  GetKeyValues w = vm_EnvironmentVariables vm ≫= env_KeyValues.
Proof. unfold GetKeyValues. by intros ->. Qed.

(** C7. The resource that a successful conversion returns is the
    marshalled extension config holding the marshalled Wasm config with the
    VM config [vm']; no key of the environment of [vm'] has the internal
    prefix, the other keys are as they were, and, when only internal keys
    were there, the environment variables are dropped from [vm'], or kept
    with a nil map when there are host environment keys. *)
Theorem internal_env_stripped ec w nec :
  may_return (W:=W) (convertWasmConfigFromRemoteToLocal ec w) (inr nec) →
  ∃ vm vm' typedConfig,
    GetVmConfig (wasm_Config w) = Some vm ∧
    anypb_New_Wasm (withVmConfig w vm') = inr typedConfig ∧
    anypb_New_TypedExtensionConfig
      (mkTypedExtensionConfig (ec_Name ec) (Some typedConfig)) = inr nec ∧
    (∀ k, HasPrefix k IstioMetaPrefix = true →
          map_index (GetKeyValues (withVmConfig w vm')) k = None) ∧
    (∀ k, HasPrefix k IstioMetaPrefix = false →
          map_index (GetKeyValues (withVmConfig w vm')) k
          = map_index (GetKeyValues w) k) ∧
    match vm_EnvironmentVariables vm with
    | None => vm_EnvironmentVariables vm' = None
    | Some envs =>
      ((∀ k v, map_index (env_KeyValues envs) k = Some v →
               HasPrefix k IstioMetaPrefix = true) →
       vm_EnvironmentVariables vm'
       = if decide (env_HostEnvKeys envs = []) then None
         else Some (mkEnvironmentVariables (env_HostEnvKeys envs) None)) ∧
      (∀ k v, map_index (env_KeyValues envs) k = Some v →
              HasPrefix k IstioMetaPrefix = false →
       ∃ keyValues,
         vm_EnvironmentVariables vm'
         = Some (mkEnvironmentVariables (env_HostEnvKeys envs)
                   (Some keyValues)))
    end.
Proof.
  unfold convertWasmConfigFromRemoteToLocal. intros Hret.
  destruct (GetVmConfig (wasm_Config w)) as [vm|] eqn:Hvm;
    [|by apply may_return_Increment_Ret in Hret].
  destruct (readAndStripEnvs _ vm)
    as [err|[[[pullSecret pullPolicy] resourceVersion] vm1]] eqn:Hread;
    [by apply may_return_Increment_Ret in Hret|].
  destruct (GetRemote (vm_Code vm1)) as [remote|];
    [|by apply may_return_Increment_Ret in Hret].
  change (GetHttpUri (Some remote)) with (rds_HttpUri remote) in Hret.
  destruct (rds_HttpUri remote) as [httpURI|];
    [|by apply may_return_Increment_Ret in Hret].
  apply may_return_CacheGet_inv in Hret as [world Hk].
  destruct (cache_Get world _ _).1 as [err|f];
    [by apply may_return_Increment_Ret in Hk|].
  apply may_return_bind_inv in Hk as (has & _ & Hk).
  apply rewriteToLocal_inr in Hk as (vm' & typedConfig & Henv & Hwasm & Hec).
  exists vm, vm', typedConfig.
  rewrite (GetKeyValues_withVmConfig _ _ _ Hvm), (GetKeyValues_GetVmConfig _ _ Hvm).
  simpl in Henv. rewrite Henv.
  split; [done|]. split; [done|]. split; [done|]. clear Henv Hwasm Hec.
  apply readAndStripEnvs_inr in Hread.
  destruct (vm_EnvironmentVariables vm) as [[hostEnvKeys keyValues]|]
    eqn:Henvs; simpl in Hread.
  2: { destruct Hread as (_ & _ & _ & ->). rewrite Henvs. by split_and!. }
  destruct Hread as (_ & _ & _ & _ & ->).
  destruct vm; simpl in *. clear Henvs. split_and!.
  - intros k Hk.
    repeat case_decide; simpl; try done.
    destruct keyValues as [kv|]; simpl; [|done].
    by rewrite deleteWithPrefix_lookup, Hk.
  - intros k Hk.
    destruct keyValues as [kv|]; simpl in *; [|by repeat case_decide].
    case_decide as Hlen.
    + apply map_size_empty_iff in Hlen.
      transitivity (deleteWithPrefix IstioMetaPrefix kv !! k).
      * rewrite Hlen, lookup_empty. by case_decide.
      * by rewrite deleteWithPrefix_lookup, Hk.
    + simpl. by rewrite deleteWithPrefix_lookup, Hk.
  - intros Hall. destruct keyValues as [kv|]; simpl in *.
    + rewrite decide_True.
      * repeat case_decide; try done; by destruct hostEnvKeys.
      * apply deleteWithPrefix_empty. intros k v Hk. by eapply Hall.
    + repeat case_decide; try done; by destruct hostEnvKeys.
  - intros k v Hk Hprefix. destruct keyValues as [kv|]; simpl in *; [|done].
    rewrite decide_False; [by eexists|].
    rewrite deleteWithPrefix_empty. intros Hall.
    specialize (Hall k v Hk). congruence.
Qed.

Lemma readAndStripEnvs_setCode name vm code :
  readAndStripEnvs name (setCode vm code)
  = match readAndStripEnvs name vm with
    | inl err => inl err
    | inr (pullSecret, pullPolicy, resourceVersion, vm') =>
      inr (pullSecret, pullPolicy, resourceVersion, setCode vm' code)
    end.
Proof.
  unfold readAndStripEnvs; simpl.
  destruct (vm_EnvironmentVariables vm) as [envs|]; [|done].
  destruct (map_index (env_KeyValues envs) WasmSecretEnv) as [sec|];
    [destruct (decide (sec = "")); [done|]|]; by repeat case_decide.
Qed.

(** C3. A remote checksum equal to the literal ["nil"] is taken as empty
    before the fetch cache is asked.  For a remote source with that
    checksum and an HTTP URI, once the environment is read without an
    error, the conversion is the request to the cache with the empty
    checksum, followed by what follows every request, in which the remote
    source kept in the config has the empty checksum too; that request is
    made, and no other; and the conversion is the very program that the
    same config with an empty checksum gives, so that it runs alike from
    every state. *)
Theorem nil_checksum_treated_as_empty ec w vm remote httpURI pullSecret
    pullPolicy resourceVersion vm' :
  GetVmConfig (wasm_Config w) = Some vm →
  GetRemote (vm_Code vm) = Some remote →
  rds_Sha256 remote = "nil" →
  rds_HttpUri remote = Some httpURI →
  readAndStripEnvs (from_option pc_Name "" (wasm_Config w)) vm
    = inr (pullSecret, pullPolicy, resourceVersion, vm') →
  let uri := hu_Uri httpURI in
  let o := {| Checksum := "";
              ResourceName := ec_Name ec;
              ResourceVersion := resourceVersion;
              RequestTimeout := match hu_Timeout httpURI with
                                | Some t => AsDuration t
                                | None => (time_Second * 5)%Z
                                end;
              PullSecret := pullSecret;
              opt_PullPolicy := pullPolicy |} in
  convertWasmConfigFromRemoteToLocal ec w
  = CacheGet uri o
      (λ got,
        match got with
        | inl err => Increment fetchFailure (Ret (inl (ErrCannotFetch uri err)))
        | inr f =>
          bind (containsWamrAotInCustomSection f)
            (rewriteToLocal ec w
               (setCode vm'
                  (Some (AsyncDataSource_Remote
                           (mkRemoteDataSource (Some httpURI) ""))))
               f)
        end) ∧
  fetches uri o (convertWasmConfigFromRemoteToLocal ec w) ∧
  (∀ uri' o',
     fetches uri' o' (convertWasmConfigFromRemoteToLocal ec w) →
     uri' = uri ∧ o' = o) ∧
  convertWasmConfigFromRemoteToLocal ec w
  = convertWasmConfigFromRemoteToLocal ec (setRemoteSha256 w "") ∧
  (∀ σ : state W,
     run_prog σ (convertWasmConfigFromRemoteToLocal ec w)
     = run_prog σ (convertWasmConfigFromRemoteToLocal ec (setRemoteSha256 w ""))).
Proof.
  intros Hvm Hremote Hsha Huri Hread uri o.
  assert (convertWasmConfigFromRemoteToLocal ec w
          = convertWasmConfigFromRemoteToLocal ec (setRemoteSha256 w ""))
    as Heq.
  { clear Hread.
    destruct w as [[[name rootId [vm0|] conf failOpen]|]]; try done.
    simpl in Hvm. injection Hvm as ->.
    destruct (vm_Code vm) as [[|local|remote0]|] eqn:Hcode; try done.
    simpl in Hremote. injection Hremote as ->.
    unfold convertWasmConfigFromRemoteToLocal; simpl.
    rewrite Hcode; simpl. rewrite readAndStripEnvs_setCode.
    destruct (readAndStripEnvs name vm)
      as [err|[[[pullSecret0 pullPolicy0] resourceVersion0] vm0']] eqn:Hread;
      [done|].
    rewrite (readAndStripEnvs_Code _ _ _ _ _ _ Hread), Hcode. simpl.
    rewrite Huri, Hsha. reflexivity. }
  pose proof (convert_request ec w vm _ _ _ _ remote httpURI
                Hvm Hread Hremote Huri) as Hconv.
  rewrite !decide_True, Huri in Hconv by done.
  split_and!.
  - exact Hconv.
  - rewrite Hconv. constructor.
  - intros uri' o' Hf.
    apply convert_fetches in Hf
      as (vm0 & pullSecret0 & pullPolicy0 & resourceVersion0 & vm0' & remote0
          & httpURI0 & Hvm0 & Hread0 & Hremote0 & Huri0 & -> & ->).
    assert (vm0 = vm) as -> by congruence.
    assert (remote0 = remote) as -> by congruence.
    assert (httpURI0 = httpURI) as -> by congruence.
    rewrite Hread in Hread0. injection Hread0 as <- <- <- <-.
    split; [done|]. subst o. by rewrite decide_True.
  - exact Heq.
  - intros σ. by rewrite Heq.
Qed.

(** Without an HTTP URI neither config makes a request. *)
Lemma nil_checksum_without_uri ec w vm remote :
  GetVmConfig (wasm_Config w) = Some vm →
  GetRemote (vm_Code vm) = Some remote →
  rds_HttpUri remote = None →
  ¬ consults_cache (convertWasmConfigFromRemoteToLocal ec w) ∧
  ¬ consults_cache
      (convertWasmConfigFromRemoteToLocal ec (setRemoteSha256 w "")).
Proof.
  intros Hvm Hremote Huri.
  assert (∀ w', GetVmConfig (wasm_Config w') = Some vm ∨
                (∃ vm', GetVmConfig (wasm_Config w') = Some vm' ∧
                        GetRemote (vm_Code vm')
                        = Some (mkRemoteDataSource None "")) →
                ¬ consults_cache (convertWasmConfigFromRemoteToLocal ec w'))
    as Hno.
  { intros w' Hw' (uri & o & Hf).
    apply convert_fetches in Hf
      as (vm0 & _ & _ & _ & _ & remote0 & httpURI & Hvm0 & _ & Hremote0
          & Huri0 & _).
    destruct Hw' as [Hw'|(vm' & Hw' & Hremote')].
    - assert (vm0 = vm) as -> by congruence. congruence.
    - assert (vm0 = vm') as -> by congruence.
      rewrite Hremote' in Hremote0. injection Hremote0 as <-. done. }
  split; apply Hno; [by left|right].
  destruct w as [[[name rootId [vm0|] conf failOpen]|]]; try done.
  simpl in Hvm. injection Hvm as ->. eexists. split; [done|].
  destruct (vm_Code vm) as [[|local|remote0]|]; try done.
  simpl in *. injection Hremote as ->. by rewrite Huri.
Qed.

#[local] Transparent containsWamrAotInCustomSection.

(** C8. The inspection of the fetched file never fails the resolution.
    Whatever the path and the state, [containsWamrAotInCustomSection]
    returns a boolean and leaves the state as it is.  When the cache has
    given the file of a conversion and the file cannot be read, or its
    bytes do not compile as a Wasm module, or the version of the section
    the scan stops at does not parse, the boolean is [false] and the
    conversion goes on as the rewriting without the hint does: it
    returns, with an error only when one of the two messages cannot be
    marshalled, and otherwise with the rewritten resource, in which the
    code is the local file and the runtime and the permission for
    precompiled code are as they were.  The constant [wamrAotMaxVersion]
    is assumed to parse. *)
Theorem inspection_fails_open (maxVersion : Version) ec w vm remote httpURI
    pullSecret pullPolicy resourceVersion vm' (σ : state W) f world' :
  let uri := hu_Uri httpURI in
  let o := {| Checksum := if decide (rds_Sha256 remote = "nil") then ""
                          else rds_Sha256 remote;
              ResourceName := ec_Name ec;
              ResourceVersion := resourceVersion;
              RequestTimeout := match hu_Timeout httpURI with
                                | Some t => AsDuration t
                                | None => (time_Second * 5)%Z
                                end;
              PullSecret := pullSecret;
              opt_PullPolicy := pullPolicy |} in
  let σ1 := mkState world' (st_counts σ) (st_resources σ) (st_convertErrs σ) in
  let vm1 :=
    setCode vm'
      (Some (AsyncDataSource_Remote
               (if decide (rds_Sha256 remote = "nil")
                then mkRemoteDataSource (rds_HttpUri remote) ""
                else remote))) in
  NewVersion wamrAotMaxVersion = Some maxVersion →
  GetVmConfig (wasm_Config w) = Some vm →
  readAndStripEnvs (from_option pc_Name "" (wasm_Config w)) vm
    = inr (pullSecret, pullPolicy, resourceVersion, vm') →
  GetRemote (vm_Code vm) = Some remote →
  rds_HttpUri remote = Some httpURI →
  cache_Get (st_world σ) uri o = (inr f, world') →
  (os_ReadFile world' f = None ∨
   (∃ wasmBinary,
      os_ReadFile world' f = Some wasmBinary ∧
      CustomSectionNames wasmBinary = None) ∨
   (∃ wasmBinary sections name,
      os_ReadFile world' f = Some wasmBinary ∧
      CustomSectionNames wasmBinary = Some sections ∧
      find (λ s, HasPrefix s wamrAotPrefix || bool_decide (s = wamrAot))
           sections = Some name ∧
      HasPrefix name wamrAotPrefix = true ∧
      NewVersion (TrimPrefix name wamrAotPrefix) = None)) →
  (∀ (σ0 : state W) path,
     ∃ b : bool,
       run_prog σ0 (containsWamrAotInCustomSection path) = (σ0, Some b) ∧
       ∀ (A : Type) (K : bool → prog A),
         run_prog σ0 (bind (containsWamrAotInCustomSection path) K)
         = run_prog σ0 (K b)) ∧
  run_prog σ1 (containsWamrAotInCustomSection f) = (σ1, Some false) ∧
  run_prog σ (convertWasmConfigFromRemoteToLocal ec w)
  = run_prog σ1 (rewriteToLocal ec w vm1 f false) ∧
  ∃ r,
    run_prog σ (convertWasmConfigFromRemoteToLocal ec w)
    = (mkState world' (statusOf r :: st_counts σ) (st_resources σ)
         (st_convertErrs σ), Some r) ∧
    match r with
    | inr nec =>
      ∃ vm2 typedConfig,
        anypb_New_Wasm (withVmConfig w vm2) = inr typedConfig ∧
        anypb_New_TypedExtensionConfig
          (mkTypedExtensionConfig (ec_Name ec) (Some typedConfig)) = inr nec ∧
        vm_Code vm2 = Some (AsyncDataSource_Local (DataSource_Filename f)) ∧
        vm_Runtime vm2 = vm_Runtime vm ∧
        vm_AllowPrecompiled vm2 = vm_AllowPrecompiled vm
    | inl err =>
      (∃ m e, err = ErrMarshalWasm m e ∧ anypb_New_Wasm m = inl e) ∨
      (∃ m e, err = ErrMarshalExtensionConfig e ∧
              anypb_New_TypedExtensionConfig m = inl e)
    end.
Proof.
  intros uri o σ1 vm1 Hmax Hvm Hread Hremote Huri Hget Hfails.
  assert (∀ (σ0 : state W) path,
            ∃ b : bool,
              run_prog σ0 (containsWamrAotInCustomSection path) = (σ0, Some b) ∧
              ∀ (A : Type) (K : bool → prog A),
                run_prog σ0 (bind (containsWamrAotInCustomSection path) K)
                = run_prog σ0 (K b)) as Htotal.
  { intros σ0 path.
    destruct (containsWamrAotInCustomSection_inspected maxVersion σ0 path Hmax)
      as (b & Hb & HK & _).
    by exists b. }
  assert (run_prog σ1 (containsWamrAotInCustomSection f) = (σ1, Some false) ∧
          ∀ (A : Type) (K : bool → prog A),
            run_prog σ1 (bind (containsWamrAotInCustomSection f) K)
            = run_prog σ1 (K false)) as [Hfalse HK].
  { destruct (containsWamrAotInCustomSection_inspected maxVersion σ1 f Hmax)
      as (b & Hb & HK & Hnofile & Hnomodule & Hnoversion).
    assert (b = false) as ->; [|done].
    destruct Hfails as [Hnone|[(wasmBinary & Hfile & Hcompile)
                              |(wasmBinary & sections & name & Hfile & Hcompile
                                & Hfind & Hprefix & Hparse)]].
    - by apply Hnofile.
    - by apply (Hnomodule wasmBinary).
    - by apply (Hnoversion wasmBinary sections name). }
  assert (run_prog σ (convertWasmConfigFromRemoteToLocal ec w)
          = run_prog σ1 (rewriteToLocal ec w vm1 f false)) as Hrun.
  { rewrite (convert_request ec w vm _ _ _ _ remote httpURI
               Hvm Hread Hremote Huri).
    cbn [run_prog]. fold uri o. rewrite Hget. fold σ1. apply HK. }
  split; [exact Htotal|]. split; [exact Hfalse|]. split; [exact Hrun|].
  destruct (rewriteToLocal_run_cases ec w vm1 f false σ1)
    as (r & Hr & Hcases).
  exists r. split; [by rewrite Hrun|].
  destruct r as [err|nec]; [done|].
  destruct Hcases as (vm2 & typedConfig & Hwasm & Hec & Hcode & Hruntime
                      & Hallow).
  exists vm2, typedConfig. split_and!; [done..| |].
  - rewrite Hruntime. subst vm1. simpl.
    apply readAndStripEnvs_inr in Hread.
    destruct (vm_EnvironmentVariables vm).
    + by destruct Hread as (_ & _ & _ & _ & ->).
    + by destruct Hread as (_ & _ & _ & ->).
  - rewrite Hallow. subst vm1. simpl.
    apply readAndStripEnvs_inr in Hread.
    destruct (vm_EnvironmentVariables vm).
    + by destruct Hread as (_ & _ & _ & _ & ->).
    + by destruct Hread as (_ & _ & _ & ->).
Qed.
End Conversion.

(** ** The batch *)

Section BatchProperties.
Context `{!Constants, !Protobuf, !GoVersion, !Wazero}.
Context {W : Type} `{!World W}.

(** What [tryUnmarshal] makes of a resource that decodes to a Wasm filter. *)
Lemma tryUnmarshal_wasm_filter resource ec w :
  decodes_wasm_filter resource ec w →
  tryUnmarshal resource
  = match GetRemote (GetCode (GetVmConfig (wasm_Config w))) with
    | Some _ => inr (Some (ec, w))
    | None =>
      match GetLocal (GetCode (GetVmConfig (wasm_Config w))) with
      | Some _ => inr None
      | None => inl (ErrNoRemoteAndLocal w)
      end
    end.
Proof.
  intros (Hec & typedConfig & Htc & Hdecode). unfold tryUnmarshal.
  rewrite Hec, Htc.
  destruct Hdecode as [[Hurl Hwasm]|(Hne & Hurl & ts & Hts & Hturl & Hmsg)].
  - rewrite decide_True by done. by rewrite Hwasm.
  - rewrite decide_False, decide_True by done.
    rewrite Hts, decide_True by done. by rewrite Hmsg.
Qed.

(** What [tryUnmarshal] makes of an extension config that holds a typed
    config of another kind than a Wasm filter. *)
Lemma tryUnmarshal_other_filter resource ec typedConfig :
  UnmarshalTo_TypedExtensionConfig resource = inr ec →
  ec_TypedConfig ec = Some typedConfig →
  any_TypeUrl typedConfig ≠ WasmHTTPFilterType →
  (any_TypeUrl typedConfig ≠ TypedStructType ∨
   ∃ typedStruct, UnmarshalTo_TypedStruct typedConfig = inr typedStruct ∧
                  ts_TypeUrl typedStruct ≠ WasmHTTPFilterType) →
  tryUnmarshal resource = inr None.
Proof.
  intros Hec Htc Hne Hother. unfold tryUnmarshal.
  rewrite Hec, Htc, decide_False by done.
  destruct Hother as [Hns|(ts & Hts & Hturl)].
  - by rewrite decide_False.
  - case_decide; [|done]. by rewrite Hts, decide_False.
Qed.

(** C2. Every resource of a batch is processed on its own.  Whatever the
    scheduler decides, the call returns; the slices keep their length; the
    slot of each index holds an outcome of the processing of the resource
    at that index alone (its unmarshalling and its conversion, with the
    answers of the cache and of the files), so that a failure at one index
    takes nothing from the others; the error returned is the multi-error of
    the errors of all slots, in the order of the indices, and it is nil
    exactly when no slot holds an error.  When the cache and the files
    answer a request alike in every state, the slot of a resource ends as
    it does in the batch made of that resource alone, under any scheduler:
    neither the other resources nor their failures have a part in it.  The
    constant [wamrAotMaxVersion] is assumed to parse. *)
Theorem resources_processed_independently (maxVersion : Version)
    sched resources counts (w : W) :
  NewVersion wamrAotMaxVersion = Some maxVersion →
  ∃ resources' errs counts' w',
    MaybeConvertWasmExtensionConfig sched resources counts w
      = Returned resources' (ErrorOrNil (multierror_Append_nil errs))
          counts' w' ∧
    st_resources (runGoroutines sched resources counts w).1 = resources' ∧
    st_convertErrs (runGoroutines sched resources counts w).1 = errs ∧
    length resources' = length resources ∧
    length errs = length resources ∧
    (∀ j r, resources !! j = Some r →
       ∃ a e, resources' !! j = Some a ∧ errs !! j = Some e ∧
              resource_outcome (W:=W) r a e) ∧
    (∀ err, ErrorOrNil (multierror_Append_nil errs) = Some err →
            err = MultiError (omap id errs)) ∧
    (∀ err, err ∈ omap id errs ↔ ∃ j, errs !! j = Some (Some err)) ∧
    (ErrorOrNil (multierror_Append_nil errs) = None ↔
     ∀ j e, errs !! j = Some e → e = None) ∧
    (answers_stateless (W:=W) →
     ∀ j r sched1 counts1 (w1 : W),
       resources !! j = Some r →
       resources' !! j
         = st_resources (runGoroutines sched1 [r] counts1 w1).1 !! 0 ∧
       errs !! j
         = st_convertErrs (runGoroutines sched1 [r] counts1 w1).1 !! 0).
Proof.
  intros Hmax.
  destruct (MaybeConvert_outcomes maxVersion Hmax sched resources counts w)
    as (resources' & errs & counts' & w' & Heq & Hsr & Hse & Hlr & Hle & Hall).
  exists resources', errs, counts', w'. split_and!; try done.
  - intros err. unfold multierror_Append_nil.
    destruct (omap id errs); [done|]. by intros [= <-].
  - apply elem_of_multierror_Append_nil.
  - apply ErrorOrNil_None.
  - intros Hstateless j r sched1 counts1 w1 Hj.
    destruct (Hall j r Hj) as (a & e & Ha & He & Hout).
    destruct (MaybeConvert_outcomes maxVersion Hmax sched1 [r] counts1 w1)
      as (resources1 & errs1 & _ & _ & _ & Hsr1 & Hse1 & _ & _ & Hall1).
    destruct (Hall1 0 r eq_refl) as (a1 & e1 & Ha1 & He1 & Hout1).
    destruct (resource_outcome_functional _ _ _ _ _ Hstateless Hout Hout1)
      as [-> ->].
    by rewrite Hsr1, Hse1, Ha, He, Ha1, He1.
Qed.

(** C5. A Wasm extension config with neither a remote nor a local code
    source is rejected by [tryUnmarshal], a function that has no access to
    the fetch cache; the goroutine of such a resource records the error
    without consulting the cache; and in a batch the slot of the resource
    keeps the resource and holds the error, which is in the error returned,
    whatever the scheduler decides. *)
Theorem no_remote_no_local_rejected resource ec w :
  decodes_wasm_filter resource ec w →
  GetRemote (GetCode (GetVmConfig (wasm_Config w))) = None →
  GetLocal (GetCode (GetVmConfig (wasm_Config w))) = None →
  tryUnmarshal resource = inl (ErrNoRemoteAndLocal w) ∧
  (∀ i, ∃ k, goroutine i = LoadResource i k ∧
             k resource = Increment unmarshalFailure
                            (StoreErr i (ErrNoRemoteAndLocal w) (Ret tt)) ∧
             ¬ consults_cache (k resource)) ∧
  (∀ (maxVersion : Version) sched resources counts (world : W) i,
     NewVersion wamrAotMaxVersion = Some maxVersion →
     resources !! i = Some resource →
     st_resources (runGoroutines sched resources counts world).1 !! i
       = Some resource ∧
     st_convertErrs (runGoroutines sched resources counts world).1 !! i
       = Some (Some (ErrNoRemoteAndLocal w)) ∧
     ∃ resources' errs counts' world',
       MaybeConvertWasmExtensionConfig sched resources counts world
         = Returned resources' (Some (MultiError errs)) counts' world' ∧
       ErrNoRemoteAndLocal w ∈ errs).
Proof.
  intros Hdecode Hremote Hlocal.
  assert (tryUnmarshal resource = inl (ErrNoRemoteAndLocal w)) as Htry.
  { by rewrite (tryUnmarshal_wasm_filter _ _ _ Hdecode), Hremote, Hlocal. }
  split_and!.
  - done.
  - intros i. eexists. split; [reflexivity|]. simpl. rewrite Htry.
    split; [done|]. intros (uri & o & Hf).
    inversion Hf as [| | |? ? Hk| | |]; subst.
    inversion Hk as [| | | | | |? ? ? Hk']; subst. inversion Hk'.
  - intros maxVersion sched resources counts world i Hmax Hi.
    apply (MaybeConvert_failed_slot maxVersion Hmax); [done|].
    intros a e Hout. inversion Hout; subst; try congruence.
    split; [done|]. congruence.
Qed.

(** C6, as amended.  A resource is left as it is, with no error recorded,
    whatever the scheduler decides, when it decodes to a typed extension
    config whose typed config is present and is neither a Wasm filter nor a
    typed struct, or is a typed struct that decodes to another type than
    the Wasm filter, or is a Wasm filter with a local code source and no
    remote one. *)
Theorem non_wasm_and_local_pass_through (maxVersion : Version)
    sched resources counts (world : W) i resource ec typedConfig :
  NewVersion wamrAotMaxVersion = Some maxVersion →
  resources !! i = Some resource →
  UnmarshalTo_TypedExtensionConfig resource = inr ec →
  ec_TypedConfig ec = Some typedConfig →
  (any_TypeUrl typedConfig ≠ WasmHTTPFilterType ∧
   (any_TypeUrl typedConfig ≠ TypedStructType ∨
    ∃ typedStruct, UnmarshalTo_TypedStruct typedConfig = inr typedStruct ∧
                   ts_TypeUrl typedStruct ≠ WasmHTTPFilterType)) ∨
  (∃ w, decodes_wasm_filter resource ec w ∧
        GetRemote (GetCode (GetVmConfig (wasm_Config w))) = None ∧
        is_Some (GetLocal (GetCode (GetVmConfig (wasm_Config w))))) →
  tryUnmarshal resource = inr None ∧
  st_resources (runGoroutines sched resources counts world).1 !! i
    = Some resource ∧
  st_convertErrs (runGoroutines sched resources counts world).1 !! i
    = Some None.
Proof.
  intros Hmax Hi Hec Htc Hcases.
  assert (tryUnmarshal resource = inr None) as Htry.
  { destruct Hcases as [[Hne Hother]|(w & Hdecode & Hremote & [l Hlocal])].
    - by eapply tryUnmarshal_other_filter.
    - by rewrite (tryUnmarshal_wasm_filter _ _ _ Hdecode), Hremote, Hlocal. }
  split; [done|].
  apply (MaybeConvert_bypassed_slot maxVersion Hmax); [done|].
  intros a e Hout. inversion Hout; subst; try congruence. done.
Qed.
End BatchProperties.

(** ** The properties on a concrete batch *)

Module Examples.
Import Sample.

#[local] Existing Instance constants.
#[local] Existing Instance protobuf.
#[local] Existing Instance goVersion.
#[local] Existing Instance wazero.
#[local] Existing Instance world.

Example batch_round_robin :
  convert roundRobin batch
  = Returned
      [ mkAny TypedExtensionConfigType (payload "ec:plugin-a");
        resource ""; resource "rbac";
        mkAny TypedExtensionConfigType (payload "ec:plugin-c");
        resource "neither"; resource "local"; resource "no-secret" ]
      (Some (MultiError
               [ ErrNoTypedConfig (mkTypedExtensionConfig "" None);
                 ErrNoRemoteAndLocal (mkWasm None);
                 ErrMissingPullSecret "plugin-b" ]))
      [ conversionSuccess; conversionSuccess; fetchFailure; unmarshalFailure;
        noRemoteLoad; noRemoteLoad; unmarshalFailure ]
      2.
Proof. vm_compute. reflexivity. Qed.

Example batch_first_runnable :
  convert firstRunnable batch
  = Returned
      [ mkAny TypedExtensionConfigType (payload "ec:plugin-a");
        resource ""; resource "rbac";
        mkAny TypedExtensionConfigType (payload "ec:plugin-c");
        resource "neither"; resource "local"; resource "no-secret" ]
      (Some (MultiError
               [ ErrNoTypedConfig (mkTypedExtensionConfig "" None);
                 ErrNoRemoteAndLocal (mkWasm None);
                 ErrMissingPullSecret "plugin-b" ]))
      [ fetchFailure; noRemoteLoad; unmarshalFailure; conversionSuccess;
        noRemoteLoad; unmarshalFailure; conversionSuccess ]
      2.
Proof. vm_compute. reflexivity. Qed.

Example sample_answers_stateless : answers_stateless (W:=nat).
Proof.
  split.
  - intros w w' uri o. simpl. by repeat case_decide.
  - intros w w' path. reflexivity.
Qed.

Lemma resources_processed_independently_witness :
  NewVersion wamrAotMaxVersion = Some maxVersion ∧
  ∃ resources' errs counts' w',
    MaybeConvertWasmExtensionConfig roundRobin batch [] 0
      = Returned resources' (ErrorOrNil (multierror_Append_nil errs))
          counts' w' ∧
    st_resources (runGoroutines roundRobin batch [] 0).1 = resources' ∧
    st_convertErrs (runGoroutines roundRobin batch [] 0).1 = errs ∧
    length resources' = length batch ∧
    length errs = length batch ∧
    (∀ j r, batch !! j = Some r →
       ∃ a e, resources' !! j = Some a ∧ errs !! j = Some e ∧
              resource_outcome (W:=nat) r a e) ∧
    (∀ err, ErrorOrNil (multierror_Append_nil errs) = Some err →
            err = MultiError (omap id errs)) ∧
    (∀ err, err ∈ omap id errs ↔ ∃ j, errs !! j = Some (Some err)) ∧
    (ErrorOrNil (multierror_Append_nil errs) = None ↔
     ∀ j e, errs !! j = Some e → e = None) ∧
    (answers_stateless (W:=nat) →
     ∀ j r sched1 counts1 (w1 : nat),
       batch !! j = Some r →
       resources' !! j
         = st_resources (runGoroutines sched1 [r] counts1 w1).1 !! 0 ∧
       errs !! j
         = st_convertErrs (runGoroutines sched1 [r] counts1 w1).1 !! 0).
Proof.
  split; [reflexivity|].
  apply (resources_processed_independently (W:=nat) maxVersion). reflexivity.
Defined.

Example setRemoteSha256_remoteWasm :
  setRemoteSha256 remoteWasm "" = remoteWasmEmptySha.
Proof. reflexivity. Qed.

Example remote_converted :
  run_prog σ0 (convertWasmConfigFromRemoteToLocal ecRemote remoteWasm)
  = (mkState 1 [conversionSuccess] [] [],
     Some (inr (mkAny TypedExtensionConfigType (payload "ec:plugin-a")))).
Proof. vm_compute. reflexivity. Qed.

Example aot_inspected :
  run_prog σ0 (containsWamrAotInCustomSection aotPath) = (σ0, Some true) ∧
  run_prog σ0 (containsWamrAotInCustomSection modulePath) = (σ0, Some false) ∧
  run_prog σ0 (containsWamrAotInCustomSection "/nowhere") = (σ0, Some false).
Proof. by vm_compute. Qed.

Example scan_order :
  scanCustomSections ["name"; "wamr-aot-2.1.0"; "wamr-aot"] = Ret false ∧
  scanCustomSections ["wamr-aot"; "wamr-aot-2.1.0"] = Ret true ∧
  scanCustomSections ["wamr-aot-2.0.9"] = Ret true ∧
  scanCustomSections ["wamr-aot-x"; "wamr-aot"] = Ret false.
Proof. by vm_compute. Qed.

Lemma nil_checksum_treated_as_empty_witness :
  let ec := ecRemote in
  let w := remoteWasm in
  let vm := remoteVm moduleUri "nil" (Some remoteEnvs) in
  let httpURI := mkHttpUri moduleUri None in
  let remote := mkRemoteDataSource (Some httpURI) "nil" in
  let pullSecret := payload "token" in
  let pullPolicy := 2%Z in
  let resourceVersion := "7" in
  let vm' :=
    remoteVm moduleUri "nil"
      (Some (mkEnvironmentVariables [] (Some {[ "LOG_LEVEL" := "debug" ]}))) in
  (GetVmConfig (wasm_Config w) = Some vm ∧
   GetRemote (vm_Code vm) = Some remote ∧
   rds_Sha256 remote = "nil" ∧
   rds_HttpUri remote = Some httpURI ∧
   readAndStripEnvs (from_option pc_Name "" (wasm_Config w)) vm
     = inr (pullSecret, pullPolicy, resourceVersion, vm')) ∧
  let uri := hu_Uri httpURI in
  let o := {| Checksum := "";
              ResourceName := ec_Name ec;
              ResourceVersion := resourceVersion;
              RequestTimeout := match hu_Timeout httpURI with
                                | Some t => AsDuration t
                                | None => (time_Second * 5)%Z
                                end;
              PullSecret := pullSecret;
              opt_PullPolicy := pullPolicy |} in
  convertWasmConfigFromRemoteToLocal ec w
  = CacheGet uri o
      (λ got,
        match got with
        | inl err => Increment fetchFailure (Ret (inl (ErrCannotFetch uri err)))
        | inr f =>
          bind (containsWamrAotInCustomSection f)
            (rewriteToLocal ec w
               (setCode vm'
                  (Some (AsyncDataSource_Remote
                           (mkRemoteDataSource (Some httpURI) ""))))
               f)
        end) ∧
  fetches uri o (convertWasmConfigFromRemoteToLocal ec w) ∧
  (∀ uri' o',
     fetches uri' o' (convertWasmConfigFromRemoteToLocal ec w) →
     uri' = uri ∧ o' = o) ∧
  convertWasmConfigFromRemoteToLocal ec w
  = convertWasmConfigFromRemoteToLocal ec (setRemoteSha256 w "") ∧
  (∀ σ : state nat,
     run_prog σ (convertWasmConfigFromRemoteToLocal ec w)
     = run_prog σ (convertWasmConfigFromRemoteToLocal ec (setRemoteSha256 w ""))).
Proof.
  intros ec w vm httpURI remote pullSecret pullPolicy resourceVersion vm'.
  assert (readAndStripEnvs (from_option pc_Name "" (wasm_Config w)) vm
          = inr (pullSecret, pullPolicy, resourceVersion, vm')) as Hread
    by (vm_compute; reflexivity).
  split.
  - split_and!; [reflexivity..|exact Hread].
  - apply (nil_checksum_treated_as_empty (W:=nat) ec w vm remote httpURI
             pullSecret pullPolicy resourceVersion vm');
      [reflexivity..|exact Hread].
Defined.

Lemma missing_pull_secret_fails_before_fetch_witness :
  let ec := ecNoSecret in
  let w := noSecretWasm in
  let vm := remoteVm moduleUri "" (Some noSecretEnvs) in
  let envs := noSecretEnvs in
  (GetVmConfig (wasm_Config w) = Some vm ∧
   vm_EnvironmentVariables vm = Some envs ∧
   map_index (env_KeyValues envs) WasmSecretEnv = Some "") ∧
  let err := ErrMissingPullSecret (from_option pc_Name "" (wasm_Config w)) in
  convertWasmConfigFromRemoteToLocal ec w
    = Increment fetchFailure (Ret (inl err)) ∧
  ¬ consults_cache (convertWasmConfigFromRemoteToLocal ec w) ∧
  (∀ σ : state nat,
     run_prog σ (convertWasmConfigFromRemoteToLocal ec w)
     = (mkState (st_world σ) (fetchFailure :: st_counts σ) (st_resources σ)
          (st_convertErrs σ), Some (inl err))) ∧
  (∀ (maxVersion : Version) sched resources counts (world : nat) i resource,
     NewVersion wamrAotMaxVersion = Some maxVersion →
     resources !! i = Some resource →
     tryUnmarshal resource = inr (Some (ec, w)) →
     st_resources (runGoroutines sched resources counts world).1 !! i
       = Some resource ∧
     st_convertErrs (runGoroutines sched resources counts world).1 !! i
       = Some (Some err) ∧
     ∃ resources' errs counts' world',
       MaybeConvertWasmExtensionConfig sched resources counts world
         = Returned resources' (Some (MultiError errs)) counts' world' ∧
       err ∈ errs) ∧
  (∀ (pullSecrets : gmap string (list Byte.byte)) p kv secretName,
     GetKeyValues (wp_WasmExtensionConfig p) = Some kv →
     kv !! WasmSecretEnv = Some secretName →
     secretName ≠ "" →
     pullSecrets !! secretName = None →
     ∃ w', insertedExtensionConfiguration pullSecrets p
             = mkTypedExtensionConfig (wp_ResourceName p) (MessageToAny w') ∧
           map_index (GetKeyValues w') WasmSecretEnv = Some "").
Proof.
  intros ec w vm envs. split.
  - split_and!; reflexivity.
  - apply (missing_pull_secret_fails_before_fetch (W:=nat) ec w vm envs);
      reflexivity.
Defined.

Lemma no_remote_no_local_rejected_witness :
  let resource := resource "neither" in
  let ec := ecNeither in
  let w := mkWasm None in
  (decodes_wasm_filter resource ec w ∧
   GetRemote (GetCode (GetVmConfig (wasm_Config w))) = None ∧
   GetLocal (GetCode (GetVmConfig (wasm_Config w))) = None) ∧
  tryUnmarshal resource = inl (ErrNoRemoteAndLocal w) ∧
  (∀ i, ∃ k, goroutine i = LoadResource i k ∧
             k resource = Increment unmarshalFailure
                            (StoreErr i (ErrNoRemoteAndLocal w) (Ret tt)) ∧
             ¬ consults_cache (k resource)) ∧
  (∀ (maxVersion : Version) sched resources counts (world : nat) i,
     NewVersion wamrAotMaxVersion = Some maxVersion →
     resources !! i = Some resource →
     st_resources (runGoroutines sched resources counts world).1 !! i
       = Some resource ∧
     st_convertErrs (runGoroutines sched resources counts world).1 !! i
       = Some (Some (ErrNoRemoteAndLocal w)) ∧
     ∃ resources' errs counts' world',
       MaybeConvertWasmExtensionConfig sched resources counts world
         = Returned resources' (Some (MultiError errs)) counts' world' ∧
       ErrNoRemoteAndLocal w ∈ errs).
Proof.
  intros resource ec w.
  assert (decodes_wasm_filter resource ec w) as Hdecode.
  { split; [reflexivity|]. exists (wasmAny ""). split; [reflexivity|].
    left. split; reflexivity. }
  split.
  - split_and!; [exact Hdecode|reflexivity..].
  - apply (no_remote_no_local_rejected (W:=nat) resource ec w);
      [exact Hdecode|reflexivity..].
Defined.

Lemma non_wasm_and_local_pass_through_witness :
  let resource := resource "rbac" in
  let ec := ecRbac in
  let typedConfig := mkAny RBACHTTPFilterType [] in
  (NewVersion wamrAotMaxVersion = Some maxVersion ∧
   batch !! 2 = Some resource ∧
   UnmarshalTo_TypedExtensionConfig resource = inr ec ∧
   ec_TypedConfig ec = Some typedConfig ∧
   ((any_TypeUrl typedConfig ≠ WasmHTTPFilterType ∧
     (any_TypeUrl typedConfig ≠ TypedStructType ∨
      ∃ typedStruct, UnmarshalTo_TypedStruct typedConfig = inr typedStruct ∧
                     ts_TypeUrl typedStruct ≠ WasmHTTPFilterType)) ∨
    (∃ w, decodes_wasm_filter resource ec w ∧
          GetRemote (GetCode (GetVmConfig (wasm_Config w))) = None ∧
          is_Some (GetLocal (GetCode (GetVmConfig (wasm_Config w))))))) ∧
  tryUnmarshal resource = inr None ∧
  st_resources (runGoroutines roundRobin batch [] 0).1 !! 2 = Some resource ∧
  st_convertErrs (runGoroutines roundRobin batch [] 0).1 !! 2 = Some None.
Proof.
  intros resource ec typedConfig.
  assert (any_TypeUrl typedConfig ≠ WasmHTTPFilterType ∧
          (any_TypeUrl typedConfig ≠ TypedStructType ∨
           ∃ typedStruct, UnmarshalTo_TypedStruct typedConfig = inr typedStruct ∧
                          ts_TypeUrl typedStruct ≠ WasmHTTPFilterType))
    as Hother.
  { split; [discriminate|]. left. discriminate. }
  split.
  - split_and!; [reflexivity..|]. left. exact Hother.
  - apply (non_wasm_and_local_pass_through (W:=nat) maxVersion roundRobin
             batch [] 0 2 resource ec typedConfig);
      [reflexivity..|]. left. exact Hother.
Defined.

(** C6, as stated, fails: an extension config with no typed config is not
    a Wasm filter at all and has no remote-module reference, yet an error
    is recorded for it. *)
Lemma nil_typed_config_is_recorded_as_error :
  ¬ passes_through_every_non_remote (W:=nat).
Proof.
  intros Hclaim.
  destruct (Hclaim firstRunnable [resource ""] [] 0 0 (resource "") eq_refl)
    as [_ Herr].
  - left. exists (mkTypedExtensionConfig "" None). split; [reflexivity|].
    intros (typedConfig & Htc & _). discriminate.
  - vm_compute in Herr. discriminate.
Qed.

Example nil_typed_config_outcome :
  convert firstRunnable [resource ""]
  = Returned [resource ""]
      (Some (MultiError [ErrNoTypedConfig (mkTypedExtensionConfig "" None)]))
      [unmarshalFailure] 0.
Proof. vm_compute. reflexivity. Qed.

Lemma remote_may_be_converted :
  may_return (W:=nat) (convertWasmConfigFromRemoteToLocal ecRemote remoteWasm)
    (inr (mkAny TypedExtensionConfigType (payload "ec:plugin-a"))).
Proof.
  destruct (run_prog_may_return 3
              (convertWasmConfigFromRemoteToLocal ecRemote remoteWasm) σ0)
    as (σ' & a & Hrun & Hret).
  { by apply (convertWasmConfigFromRemoteToLocal_world_only maxVersion). }
  rewrite remote_converted in Hrun. by injection Hrun as <- <-.
Qed.

Lemma internal_env_stripped_witness :
  let ec := ecRemote in
  let w := remoteWasm in
  let nec := mkAny TypedExtensionConfigType (payload "ec:plugin-a") in
  may_return (W:=nat) (convertWasmConfigFromRemoteToLocal ec w) (inr nec) ∧
  ∃ vm vm' typedConfig,
    GetVmConfig (wasm_Config w) = Some vm ∧
    anypb_New_Wasm (withVmConfig w vm') = inr typedConfig ∧
    anypb_New_TypedExtensionConfig
      (mkTypedExtensionConfig (ec_Name ec) (Some typedConfig)) = inr nec ∧
    (∀ k, HasPrefix k IstioMetaPrefix = true →
          map_index (GetKeyValues (withVmConfig w vm')) k = None) ∧
    (∀ k, HasPrefix k IstioMetaPrefix = false →
          map_index (GetKeyValues (withVmConfig w vm')) k
          = map_index (GetKeyValues w) k) ∧
    match vm_EnvironmentVariables vm with
    | None => vm_EnvironmentVariables vm' = None
    | Some envs =>
      ((∀ k v, map_index (env_KeyValues envs) k = Some v →
               HasPrefix k IstioMetaPrefix = true) →
       vm_EnvironmentVariables vm'
       = if decide (env_HostEnvKeys envs = []) then None
         else Some (mkEnvironmentVariables (env_HostEnvKeys envs) None)) ∧
      (∀ k v, map_index (env_KeyValues envs) k = Some v →
              HasPrefix k IstioMetaPrefix = false →
       ∃ keyValues,
         vm_EnvironmentVariables vm'
         = Some (mkEnvironmentVariables (env_HostEnvKeys envs)
                   (Some keyValues)))
    end.
Proof.
  intros ec w nec. split.
  - exact remote_may_be_converted.
  - apply (internal_env_stripped (W:=nat) ec w nec).
    exact remote_may_be_converted.
Defined.

Lemma wamr_hint_granted_exactly_witness :
  NewVersion wamrAotMaxVersion = Some maxVersion ∧
  (∀ sections,
     scanCustomSections sections = Ret (wamrHintGranted maxVersion sections)) ∧
  (∀ (σ : state nat) path,
     run_prog σ (containsWamrAotInCustomSection path) = (σ, Some true) ↔
     ∃ wasmBinary sections,
       os_ReadFile (st_world σ) path = Some wasmBinary ∧
       CustomSectionNames wasmBinary = Some sections ∧
       wamrHintGranted maxVersion sections = true) ∧
  (∀ before name after v,
     Forall (λ s, HasPrefix s wamrAotPrefix = false ∧ s ≠ wamrAot) before →
     HasPrefix name wamrAotPrefix = true →
     NewVersion (TrimPrefix name wamrAotPrefix) = Some v →
     LessThan v maxVersion = false →
     scanCustomSections (before ++ name :: after) = Ret false).
Proof.
  split; [reflexivity|].
  apply (wamr_hint_granted_exactly (W:=nat) maxVersion). reflexivity.
Defined.

Lemma unknown_pull_policy_ignored_witness :
  let ec := ecOddPolicy in
  let w := oddPolicyWasm in
  let vm := remoteVm aotUri "" (Some oddPolicyEnvs) in
  let envs := oddPolicyEnvs in
  let ps := "Never" in
  let remote := mkRemoteDataSource (Some (mkHttpUri aotUri None)) "" in
  let httpURI := mkHttpUri aotUri None in
  (NewVersion wamrAotMaxVersion = Some maxVersion ∧
   GetVmConfig (wasm_Config w) = Some vm ∧
   vm_EnvironmentVariables vm = Some envs ∧
   map_index (env_KeyValues envs) WasmPolicyEnv = Some ps ∧
   PullPolicy_value !! ps = None ∧
   map_index (env_KeyValues envs) WasmSecretEnv ≠ Some "" ∧
   GetRemote (vm_Code vm) = Some remote ∧
   rds_HttpUri remote = Some httpURI) ∧
  ∃ pullSecret resourceVersion vm',
    readAndStripEnvs (from_option pc_Name "" (wasm_Config w)) vm
      = inr (pullSecret, PullPolicy_UNSPECIFIED_POLICY, resourceVersion, vm') ∧
    let uri := hu_Uri httpURI in
    let o := {| Checksum := if decide (rds_Sha256 remote = "nil") then ""
                            else rds_Sha256 remote;
                ResourceName := ec_Name ec;
                ResourceVersion := resourceVersion;
                RequestTimeout := match hu_Timeout httpURI with
                                  | Some t => AsDuration t
                                  | None => (time_Second * 5)%Z
                                  end;
                PullSecret := pullSecret;
                opt_PullPolicy := PullPolicy_UNSPECIFIED_POLICY |} in
    convertWasmConfigFromRemoteToLocal ec w
    = CacheGet uri o
        (λ got,
          match got with
          | inl err => Increment fetchFailure (Ret (inl (ErrCannotFetch uri err)))
          | inr f =>
            bind (containsWamrAotInCustomSection f)
              (rewriteToLocal ec w
                 (setCode vm'
                    (Some (AsyncDataSource_Remote
                             (if decide (rds_Sha256 remote = "nil")
                              then mkRemoteDataSource (rds_HttpUri remote) ""
                              else remote))))
                 f)
          end) ∧
    (∀ uri' o',
       fetches uri' o' (convertWasmConfigFromRemoteToLocal ec w) →
       opt_PullPolicy o' = PullPolicy_UNSPECIFIED_POLICY) ∧
    ∃ σ' r,
      run_prog σ0 (convertWasmConfigFromRemoteToLocal ec w) = (σ', Some r) ∧
      match r with
      | inr nec => ∃ f, (cache_Get (st_world σ0) uri o).1 = inr f
      | inl err =>
        (∃ e, (cache_Get (st_world σ0) uri o).1 = inl e ∧
              err = ErrCannotFetch uri e) ∨
        (∃ m e, err = ErrMarshalWasm m e ∧ anypb_New_Wasm m = inl e) ∨
        (∃ m e, err = ErrMarshalExtensionConfig e ∧
                anypb_New_TypedExtensionConfig m = inl e)
      end.
Proof.
  intros ec w vm envs ps remote httpURI. split.
  - split_and!; try reflexivity. discriminate.
  - apply (unknown_pull_policy_ignored (W:=nat) maxVersion ec w vm envs ps
             remote httpURI σ0); try reflexivity.
    discriminate.
Defined.

Example odd_policy_read :
  readAndStripEnvs "plugin-c" (remoteVm aotUri "" (Some oddPolicyEnvs))
  = inr ([], PullPolicy_UNSPECIFIED_POLICY, "",
         remoteVm aotUri "" (Some (mkEnvironmentVariables ["HOME"] None))).
Proof. vm_compute. reflexivity. Qed.

Example odd_policy_converted :
  run_prog σ0 (convertWasmConfigFromRemoteToLocal ecOddPolicy oddPolicyWasm)
  = (mkState 1 [conversionSuccess] [] [],
     Some (inr (mkAny TypedExtensionConfigType (payload "ec:plugin-c")))).
Proof. vm_compute. reflexivity. Qed.
End Examples.

(** ** The inspection on files that cannot be inspected *)

Module InspectionExamples.
Import Sample Fixtures.

#[local] Existing Instance constants.
#[local] Existing Instance protobuf.
#[local] Existing Instance goVersion.
#[local] Existing Instance faultyWazero.
#[local] Existing Instance faultyWorld.

Lemma inspection_fails_open_witness :
  let ec := ecBroken in
  let w := brokenWasm in
  let vm := remoteVm brokenUri "" None in
  let httpURI := mkHttpUri brokenUri None in
  let remote := mkRemoteDataSource (Some httpURI) "" in
  let pullSecret : list Byte.byte := [] in
  let pullPolicy := PullPolicy_UNSPECIFIED_POLICY in
  let resourceVersion := "" in
  let vm' := vm in
  let σ := σ0 in
  let f := brokenPath in
  let world' := 1 in
  let uri := hu_Uri httpURI in
  let o := {| Checksum := if decide (rds_Sha256 remote = "nil") then ""
                          else rds_Sha256 remote;
              ResourceName := ec_Name ec;
              ResourceVersion := resourceVersion;
              RequestTimeout := match hu_Timeout httpURI with
                                | Some t => AsDuration t
                                | None => (time_Second * 5)%Z
                                end;
              PullSecret := pullSecret;
              opt_PullPolicy := pullPolicy |} in
  let σ1 := mkState world' (st_counts σ) (st_resources σ) (st_convertErrs σ) in
  let vm1 :=
    setCode vm'
      (Some (AsyncDataSource_Remote
               (if decide (rds_Sha256 remote = "nil")
                then mkRemoteDataSource (rds_HttpUri remote) ""
                else remote))) in
  (NewVersion wamrAotMaxVersion = Some maxVersion ∧
   GetVmConfig (wasm_Config w) = Some vm ∧
   readAndStripEnvs (from_option pc_Name "" (wasm_Config w)) vm
     = inr (pullSecret, pullPolicy, resourceVersion, vm') ∧
   GetRemote (vm_Code vm) = Some remote ∧
   rds_HttpUri remote = Some httpURI ∧
   cache_Get (st_world σ) uri o = (inr f, world') ∧
   (os_ReadFile world' f = None ∨
    (∃ wasmBinary,
       os_ReadFile world' f = Some wasmBinary ∧
       CustomSectionNames wasmBinary = None) ∨
    (∃ wasmBinary sections name,
       os_ReadFile world' f = Some wasmBinary ∧
       CustomSectionNames wasmBinary = Some sections ∧
       find (λ s, HasPrefix s wamrAotPrefix || bool_decide (s = wamrAot))
            sections = Some name ∧
       HasPrefix name wamrAotPrefix = true ∧
       NewVersion (TrimPrefix name wamrAotPrefix) = None))) ∧
  (∀ (σ0 : state nat) path,
     ∃ b : bool,
       run_prog σ0 (containsWamrAotInCustomSection path) = (σ0, Some b) ∧
       ∀ (A : Type) (K : bool → prog A),
         run_prog σ0 (bind (containsWamrAotInCustomSection path) K)
         = run_prog σ0 (K b)) ∧
  run_prog σ1 (containsWamrAotInCustomSection f) = (σ1, Some false) ∧
  run_prog σ (convertWasmConfigFromRemoteToLocal ec w)
  = run_prog σ1 (rewriteToLocal ec w vm1 f false) ∧
  ∃ r,
    run_prog σ (convertWasmConfigFromRemoteToLocal ec w)
    = (mkState world' (statusOf r :: st_counts σ) (st_resources σ)
         (st_convertErrs σ), Some r) ∧
    match r with
    | inr nec =>
      ∃ vm2 typedConfig,
        anypb_New_Wasm (withVmConfig w vm2) = inr typedConfig ∧
        anypb_New_TypedExtensionConfig
          (mkTypedExtensionConfig (ec_Name ec) (Some typedConfig)) = inr nec ∧
        vm_Code vm2 = Some (AsyncDataSource_Local (DataSource_Filename f)) ∧
        vm_Runtime vm2 = vm_Runtime vm ∧
        vm_AllowPrecompiled vm2 = vm_AllowPrecompiled vm
    | inl err =>
      (∃ m e, err = ErrMarshalWasm m e ∧ anypb_New_Wasm m = inl e) ∨
      (∃ m e, err = ErrMarshalExtensionConfig e ∧
              anypb_New_TypedExtensionConfig m = inl e)
    end.
Proof.
  intros ec w vm httpURI remote pullSecret pullPolicy resourceVersion vm' σ f
    world' uri o σ1 vm1.
  assert (os_ReadFile world' f = None ∨
          (∃ wasmBinary,
             os_ReadFile world' f = Some wasmBinary ∧
             CustomSectionNames wasmBinary = None) ∨
          (∃ wasmBinary sections name,
             os_ReadFile world' f = Some wasmBinary ∧
             CustomSectionNames wasmBinary = Some sections ∧
             find (λ s, HasPrefix s wamrAotPrefix || bool_decide (s = wamrAot))
                  sections = Some name ∧
             HasPrefix name wamrAotPrefix = true ∧
             NewVersion (TrimPrefix name wamrAotPrefix) = None)) as Hfails.
  { right; left. exists (payload "not a module"). split; reflexivity. }
  split.
  - split_and!; [reflexivity..|exact Hfails].
  - apply (inspection_fails_open (W:=nat) maxVersion ec w vm remote httpURI
             pullSecret pullPolicy resourceVersion vm' σ f world');
      [reflexivity..|exact Hfails].
Defined.

Example broken_converted :
  run_prog σ0 (convertWasmConfigFromRemoteToLocal ecBroken brokenWasm)
  = (mkState 1 [conversionSuccess] [] [],
     Some (inr (mkAny TypedExtensionConfigType (payload "ec:plugin-x")))).
Proof. vm_compute. reflexivity. Qed.

Example odd_aot_not_granted :
  run_prog σ0 (containsWamrAotInCustomSection oddAotPath) = (σ0, Some false).
Proof. vm_compute. reflexivity. Qed.

Example gone_not_granted :
  run_prog σ0 (containsWamrAotInCustomSection gonePath) = (σ0, Some false).
Proof. vm_compute. reflexivity. Qed.
End InspectionExamples.

(** * More properties of the modelled code *)

(** ** One conversion *)

Section ConversionMore.
Context `{!Constants, !Protobuf, !GoVersion, !Wazero}.
Context {W : Type} `{!World W}.

Lemma GetKeyValues_vm w vm :
  GetVmConfig (wasm_Config w) = Some vm →
  GetKeyValues w = vm_EnvironmentVariables vm ≫= env_KeyValues.
Proof. unfold GetKeyValues. by intros ->. Qed.

(** The result of the environment block, in terms of the key/value map. *)
Lemma readAndStripEnvs_keyValues name w vm :
  GetVmConfig (wasm_Config w) = Some vm →
  (map_index (GetKeyValues w) WasmSecretEnv = Some "" ∧
   readAndStripEnvs name vm = inl (ErrMissingPullSecret name)) ∨
  (map_index (GetKeyValues w) WasmSecretEnv ≠ Some "" ∧
   ∃ vm',
     readAndStripEnvs name vm
     = inr (from_option list_byte_of_string []
              (map_index (GetKeyValues w) WasmSecretEnv),
            default PullPolicy_UNSPECIFIED_POLICY
              (map_index (GetKeyValues w) WasmPolicyEnv
                 ≫= (λ ps, PullPolicy_value !! ps)),
            map_index_default (GetKeyValues w) WasmResourceVersionEnv,
            vm') ∧
     vm_Code vm' = vm_Code vm).
Proof.
  intros Hvm. rewrite (GetKeyValues_vm _ _ Hvm).
  destruct (vm_EnvironmentVariables vm) as [envs|] eqn:Henvs; simpl.
  - destruct (decide (map_index (env_KeyValues envs) WasmSecretEnv = Some ""))
      as [Hsec|Hsec].
    + left. split; [done|]. by apply (readAndStripEnvs_missing_secret _ _ envs).
    + right. split; [done|].
      destruct (readAndStripEnvs_with_secret name vm envs Henvs Hsec)
        as (pullSecret & pullPolicy & resourceVersion & vm' & Hread).
      exists vm'. split; [|by eapply readAndStripEnvs_Code].
      pose proof (readAndStripEnvs_inr _ _ _ _ _ _ Hread) as Hfacts.
      rewrite Henvs in Hfacts. destruct Hfacts as (_ & -> & -> & -> & _).
      done.
  - right. split; [done|]. exists vm. split; [|done].
    unfold readAndStripEnvs. by rewrite Henvs.
Qed.

#[local] Opaque containsWamrAotInCustomSection rewriteToLocal.

(** A conversion with a request starts with it; one without makes none. *)
Lemma convert_by_fetchRequest ec w :
  match fetchRequest ec w with
  | Some (uri, o) =>
    ∃ vm vm1 code,
      GetVmConfig (wasm_Config w) = Some vm ∧
      readAndStripEnvs (from_option pc_Name "" (wasm_Config w)) vm
      = inr (PullSecret o, opt_PullPolicy o, ResourceVersion o, vm1) ∧
      convertWasmConfigFromRemoteToLocal ec w
      = CacheGet uri o (λ got,
          match got with
          | inl err =>
            Increment fetchFailure (Ret (inl (ErrCannotFetch uri err)))
          | inr f =>
            bind (containsWamrAotInCustomSection f)
              (rewriteToLocal ec w (setCode vm1 code) f)
          end)
  | None =>
    ∃ err,
      convertWasmConfigFromRemoteToLocal ec w
      = Increment (statusOf (inl err)) (Ret (inl err))
  end.
Proof.
  unfold fetchRequest, convertWasmConfigFromRemoteToLocal.
  destruct (GetVmConfig (wasm_Config w)) as [vm|] eqn:Hvm; simpl.
  2: { by exists (ErrNoHttpUri None). }
  destruct (readAndStripEnvs_keyValues (from_option pc_Name "" (wasm_Config w))
              w vm Hvm) as [[Hsec Hread]|(Hsec & vm1 & Hread & Hcode)].
  - rewrite Hread.
    destruct (GetRemote (vm_Code vm)) as [remote|]; simpl;
      [destruct (rds_HttpUri remote); [rewrite decide_True by done|]|];
      by exists (ErrMissingPullSecret (from_option pc_Name "" (wasm_Config w))).
  - rewrite Hread, Hcode.
    destruct (GetRemote (vm_Code vm)) as [remote|] eqn:Hremote; simpl.
    2: { by exists (ErrNoHttpUri None). }
    change (GetHttpUri (Some remote)) with (rds_HttpUri remote).
    destruct (rds_HttpUri remote) as [httpURI|] eqn:Huri.
    2: { by exists (ErrNoHttpUri (Some remote)). }
    rewrite decide_False by done.
    exists vm, vm1. eexists. split; [done|]. split; [done|].
    f_equal. by case_decide.
Qed.

(** X1. A conversion asks the fetch cache for something exactly when the
    code of the VM is remote with an HTTP URI and the pull secret is not
    present and empty; what it asks is then the request of [fetchRequest]:
    the URI, the checksum (empty for ["nil"]), the name of the extension
    config as resource name, the resource version, the bytes of the pull
    secret and the pull policy read from the environment, and the timeout
    of the URI, or five seconds when it has none. *)
Theorem fetch_request_characterised ec w uri o :
  fetches uri o (convertWasmConfigFromRemoteToLocal ec w) ↔
  fetchRequest ec w = Some (uri, o).
Proof.
  pose proof (convert_by_fetchRequest ec w) as Hconv.
  destruct (fetchRequest ec w) as [[uri' o']|].
  - destruct Hconv as (vm & vm1 & code & _ & _ & ->). split.
    + inversion 1 as [|? ? ? got Hk| | | | |]; subst; [done|].
      destruct got as [err|f].
      * inversion Hk as [| | |? ? Hk'| | |]; inversion Hk'.
      * apply fetches_bind_inv in Hk as [Hk|[has Hk]].
        -- by apply containsWamrAotInCustomSection_no_fetch in Hk.
        -- by apply rewriteToLocal_no_fetch in Hk.
    + intros [= -> ->]. constructor.
  - destruct Hconv as (err & ->). split; [|done].
    inversion 1 as [| | |? ? Hk| | |]; inversion Hk.
Qed.

(** X2. Every run of a conversion increments the counter once, with the
    tag that goes with its result ([conversionSuccess] exactly for a
    rewritten resource), and leaves the two slices of the batch as they
    are.  The constant [wamrAotMaxVersion] is assumed to parse. *)
Theorem conversion_counted_by_result (maxVersion : Version) ec w
    (σ : state W) :
  NewVersion wamrAotMaxVersion = Some maxVersion →
  ∃ σ' r,
    run_prog σ (convertWasmConfigFromRemoteToLocal ec w) = (σ', Some r) ∧
    st_counts σ' = statusOf r :: st_counts σ ∧
    (statusOf r = conversionSuccess ↔ ∃ nec, r = inr nec) ∧
    st_resources σ' = st_resources σ ∧
    st_convertErrs σ' = st_convertErrs σ.
Proof.
  intros Hmax.
  assert (∀ r : error + Any,
            statusOf r = conversionSuccess ↔ ∃ nec, r = inr nec) as Hsuccess.
  { intros [[]|nec]; simpl; split; try done; try (by intros [? [=]]).
    by exists nec. }
  pose proof (convert_by_fetchRequest ec w) as Hconv.
  destruct (fetchRequest ec w) as [[uri o]|].
  - destruct Hconv as (vm & vm1 & code & _ & _ & ->). simpl.
    destruct (cache_Get (st_world σ) uri o) as [[err|f] w'].
    + simpl. by eexists _, (inl (ErrCannotFetch uri err)).
    + destruct (containsWamrAotInCustomSection_run maxVersion
                  (mkState w' (st_counts σ) (st_resources σ)
                     (st_convertErrs σ)) f Hmax) as [b Hb].
      rewrite Hb.
      destruct (rewriteToLocal_run ec w (setCode vm1 code) f b
                  (mkState w' (st_counts σ) (st_resources σ)
                     (st_convertErrs σ))) as [r Hr].
      rewrite Hr. by eexists _, r.
  - destruct Hconv as (err & ->). simpl. by eexists _, (inl err).
Qed.

(** X3. When the cache answers the request of a conversion with an error,
    the conversion returns that error wrapped with the URI, counts a
    [fetchFailure] and changes nothing else but the world as the cache
    left it.  When the cache answers so in every state, the slot of the
    resource in a batch keeps the resource and holds the error, which is
    in the error returned, whatever the scheduler decides. *)
Theorem fetch_failure_reported ec w uri o (σ : state W) err w' :
  fetchRequest ec w = Some (uri, o) →
  cache_Get (st_world σ) uri o = (inl err, w') →
  run_prog σ (convertWasmConfigFromRemoteToLocal ec w)
  = (mkState w' (fetchFailure :: st_counts σ) (st_resources σ)
       (st_convertErrs σ), Some (inl (ErrCannotFetch uri err))) ∧
  ((∀ w0 : W, (cache_Get w0 uri o).1 = inl err) →
   ∀ (maxVersion : Version) sched resources counts (world : W) i resource,
     NewVersion wamrAotMaxVersion = Some maxVersion →
     resources !! i = Some resource →
     tryUnmarshal resource = inr (Some (ec, w)) →
     st_resources (runGoroutines sched resources counts world).1 !! i
       = Some resource ∧
     st_convertErrs (runGoroutines sched resources counts world).1 !! i
       = Some (Some (ErrCannotFetch uri err)) ∧
     ∃ resources' errs counts' world',
       MaybeConvertWasmExtensionConfig sched resources counts world
         = Returned resources' (Some (MultiError errs)) counts' world' ∧
       ErrCannotFetch uri err ∈ errs).
Proof.
  intros Hreq Hget.
  pose proof (convert_by_fetchRequest ec w) as Hconv. rewrite Hreq in Hconv.
  destruct Hconv as (vm & vm1 & code & _ & _ & Hconv). split.
  - rewrite Hconv. simpl. by rewrite Hget.
  - intros Hfail maxVersion sched resources counts world i resource Hmax Hi Htry.
    apply (MaybeConvert_failed_slot maxVersion Hmax); [done|].
    assert (∀ r, may_return (W:=W) (convertWasmConfigFromRemoteToLocal ec w) r →
                 r = inl (ErrCannotFetch uri err)) as Honly.
    { intros r Hret. rewrite Hconv in Hret.
      apply may_return_CacheGet_inv in Hret as [w0 Hk].
      rewrite Hfail in Hk. by apply may_return_Increment_Ret in Hk. }
    intros a e Hout.
    inversion Hout as [? Htry'|Htry'|ec' w1 ? Htry' Hret|ec' w1 ? Htry' Hret];
      subst; try congruence.
    + assert (ec' = ec ∧ w1 = w) as [-> ->] by (split; congruence).
      apply Honly in Hret. by injection Hret as ->.
    + assert (ec' = ec ∧ w1 = w) as [-> ->] by (split; congruence).
      by apply Honly in Hret.
Qed.

#[local] Transparent rewriteToLocal.

(** X4. The resource that a successful conversion returns is the
    marshalled extension config, under its name, of the marshalled Wasm
    config in which the code of the VM is the local file that the cache
    gave for the request; the runtime is [wamrRuntime] with precompiled
    code allowed when the inspection of that file says so, and as it was
    when not; the VM id, the VM configuration, the flag
    [NackOnCodeCacheMiss] and the fields of the plugin config outside its
    VM are as they were. *)
Theorem conversion_rewrites_remote_to_local ec w nec :
  may_return (W:=W) (convertWasmConfigFromRemoteToLocal ec w) (inr nec) →
  ∃ uri o f has vm vm' typedConfig,
    fetchRequest ec w = Some (uri, o) ∧
    (∃ w0 : W, (cache_Get w0 uri o).1 = inr f) ∧
    may_return (W:=W) (containsWamrAotInCustomSection f) has ∧
    GetVmConfig (wasm_Config w) = Some vm ∧
    anypb_New_Wasm (withVmConfig w vm') = inr typedConfig ∧
    anypb_New_TypedExtensionConfig
      (mkTypedExtensionConfig (ec_Name ec) (Some typedConfig)) = inr nec ∧
    GetVmConfig (wasm_Config (withVmConfig w vm')) = Some vm' ∧
    vm_Code vm' = Some (AsyncDataSource_Local (DataSource_Filename f)) ∧
    vm_Runtime vm' = (if has then wamrRuntime else vm_Runtime vm) ∧
    vm_AllowPrecompiled vm' = (if has then true else vm_AllowPrecompiled vm) ∧
    vm_VmId vm' = vm_VmId vm ∧
    vm_Configuration vm' = vm_Configuration vm ∧
    vm_NackOnCodeCacheMiss vm' = vm_NackOnCodeCacheMiss vm ∧
    pc_Name <$> wasm_Config (withVmConfig w vm') = pc_Name <$> wasm_Config w ∧
    pc_RootId <$> wasm_Config (withVmConfig w vm')
      = pc_RootId <$> wasm_Config w ∧
    pc_Configuration <$> wasm_Config (withVmConfig w vm')
      = pc_Configuration <$> wasm_Config w ∧
    pc_FailOpen <$> wasm_Config (withVmConfig w vm')
      = pc_FailOpen <$> wasm_Config w.
Proof.
  intros Hret.
  pose proof (convert_by_fetchRequest ec w) as Hconv.
  destruct (fetchRequest ec w) as [[uri o]|].
  2: { destruct Hconv as (err & Hconv). rewrite Hconv in Hret.
       by apply may_return_Increment_Ret in Hret. }
  destruct Hconv as (vm & vm1 & code & Hvm & Hread & Hconv).
  rewrite Hconv in Hret.
  apply may_return_CacheGet_inv in Hret as [w0 Hk].
  destruct (cache_Get w0 uri o).1 as [err|f] eqn:Hgot;
    [by apply may_return_Increment_Ret in Hk|].
  apply may_return_bind_inv in Hk as (has & Hhas & Hk).
  unfold rewriteToLocal in Hk.
  destruct (anypb_New_Wasm _) as [err|typedConfig] eqn:Hwasm;
    [by apply may_return_Increment_Ret in Hk|].
  destruct (anypb_New_TypedExtensionConfig _) as [err|nec'] eqn:Hec;
    [by apply may_return_Increment_Ret in Hk|].
  apply may_return_Increment_Ret in Hk. injection Hk as ->.
  eexists uri, o, f, has, vm, _, typedConfig.
  split; [done|]. split; [by exists w0|]. split; [done|]. split; [done|].
  split; [exact Hwasm|]. split; [exact Hec|].
  assert (vm_Runtime vm1 = vm_Runtime vm ∧
          vm_AllowPrecompiled vm1 = vm_AllowPrecompiled vm ∧
          vm_VmId vm1 = vm_VmId vm ∧
          vm_Configuration vm1 = vm_Configuration vm ∧
          vm_NackOnCodeCacheMiss vm1 = vm_NackOnCodeCacheMiss vm)
    as (Hruntime & Hallow & Hid & Hconf & Hnack).
  { apply readAndStripEnvs_inr in Hread.
    destruct (vm_EnvironmentVariables vm).
    - by destruct Hread as (_ & _ & _ & _ & ->).
    - by destruct Hread as (_ & _ & _ & ->). }
  destruct w as [[c|]]; [|done].
  destruct has; simpl; by rewrite ?Hruntime, ?Hallow, ?Hid, ?Hconf, ?Hnack.
Qed.
End ConversionMore.

(** ** Effects of a batch *)

Section RunInvariants.
Context `{!Constants, !Protobuf, !GoVersion, !Wazero}.
Context {W : Type} `{!World W}.

(** What every step of a goroutine that can run keeps, the whole run
    keeps. *)
Lemma run_preserves (R : state W → list (prog unit) → Prop) :
  (∀ σ pool i p,
     R σ pool → pool !! i = Some p → finished p = false →
     R (step_prog σ p).1 (<[i:=(step_prog σ p).2]> pool)) →
  ∀ fuel sched t σ pool,
    R σ pool → R (run sched fuel t σ pool).1 (run sched fuel t σ pool).2.
Proof.
  intros Hstep fuel sched.
  induction fuel as [|fuel IH]; intros t σ pool HR; cbn [run]; [done|].
  destruct (runnable pool) as [|i0 rest] eqn:Hrun; [done|].
  set (i := nth (sched t mod length (i0 :: rest)) (i0 :: rest) i0).
  assert (i ∈ runnable pool) as Hin.
  { rewrite Hrun. by apply pick_in_list. }
  apply elem_of_runnable in Hin as (p & Hp & Hf). rewrite Hp.
  specialize (Hstep σ pool i p HR Hp Hf).
  destruct (step_prog σ p) as [σ' p']. by apply IH.
Qed.

Lemma sum_list_insert_eq (l : list nat) i n m :
  l !! i = Some n → sum_list (<[i:=m]> l) + n = sum_list l + m.
Proof.
  revert i. induction l as [|x l IH]; intros [|i] Hi; simpl in *; try done.
  - injection Hi as ->. lia.
  - specialize (IH i Hi). lia.
Qed.

Lemma increments_bind {A B : Type} n m (p : prog A) (K : A → prog B) :
  increments n p → (∀ a, increments m (K a)) → increments (n + m) (bind p K).
Proof.
  intros Hp HK.
  induction Hp as [a|n|n uri opts k _ IH|n path k _ IH|n tag k _ IH
                  |n i k _ IH|n i a k _ IH|n i e k _ IH]; simpl;
    try (constructor; try intros x; by apply IH).
  apply HK.
Qed.

Lemma scanCustomSections_increments sections :
  increments 0 (scanCustomSections sections).
Proof.
  induction sections as [|name rest IH]; simpl; [constructor|].
  destruct (HasPrefix name wamrAotPrefix).
  - destruct (NewVersion (TrimPrefix name wamrAotPrefix)); [|constructor].
    destruct (NewVersion wamrAotMaxVersion); constructor.
  - destruct (decide (name = wamrAot)); [constructor|done].
Qed.

Lemma convert_increments ec w :
  increments 1 (convertWasmConfigFromRemoteToLocal ec w).
Proof.
  pose proof (convert_by_fetchRequest ec w) as Hconv.
  destruct (fetchRequest ec w) as [[uri o]|].
  - destruct Hconv as (vm & vm1 & code & _ & _ & ->).
    constructor. intros [err|f]; [repeat constructor|].
    apply (increments_bind 0 1).
    + constructor. intros [wasmBinary|]; [|constructor].
      destruct (CustomSectionNames wasmBinary); [|constructor].
      apply scanCustomSections_increments.
    + intros has. unfold rewriteToLocal.
      destruct (anypb_New_Wasm _); [repeat constructor|].
      destruct (anypb_New_TypedExtensionConfig _); repeat constructor.
  - destruct Hconv as (err & ->). repeat constructor.
Qed.

Lemma goroutine_increments i : increments 1 (goroutine i).
Proof.
  unfold goroutine. constructor. intros resource.
  destruct (tryUnmarshal resource) as [err|[[ec w]|]].
  - repeat constructor.
  - apply (increments_bind 1 0); [apply convert_increments|].
    intros [err|nec]; repeat constructor.
  - repeat constructor.
Qed.

Lemma step_prog_increments n (σ : state W) (p : prog unit) :
  increments n p → finished p = false →
  ∃ n', increments n' (step_prog σ p).2 ∧
        length (st_counts (step_prog σ p).1) + n' = length (st_counts σ) + n ∧
        ∃ new, st_counts (step_prog σ p).1 = (new ++ st_counts σ)%list.
Proof.
  intros Hp Hf.
  destruct Hp as [a|n|n uri opts k Hk|n path k Hk|n tag k Hk
                 |n i k Hk|n i a k Hk|n i e k Hk]; simpl in *; try done.
  - destruct (cache_Get (st_world σ) uri opts) as [got w']; simpl.
    exists n. split_and!; [done..|]. by exists [].
  - exists n. split_and!; [done..|]. by exists [].
  - exists n. split_and!; [done|lia|]. by exists [tag].
  - destruct (st_resources σ !! i); simpl;
      (exists n; split_and!; [done || constructor|done|by exists []]).
  - case_decide; simpl;
      (exists n; split_and!; [done || constructor|done|by exists []]).
  - case_decide; simpl;
      (exists n; split_and!; [done || constructor|done|by exists []]).
Qed.

(** The counter through a batch: what was there stays, and the increments
    made and still to make add up to one for each goroutine. *)
Lemma runGoroutines_counts sched resources counts (w : W) :
  ∃ ks new,
    Forall2 increments ks (runGoroutines sched resources counts w).2 ∧
    st_counts (runGoroutines sched resources counts w).1
      = (new ++ counts)%list ∧
    length new + sum_list ks = length resources.
Proof.
  unfold runGoroutines.
  apply (run_preserves (λ σ pool, ∃ ks new,
           Forall2 increments ks pool ∧
           st_counts σ = (new ++ counts)%list ∧
           length new + sum_list ks = length resources)).
  - intros σ pool i p (ks & new & Hall & Hcounts & Hsum) Hp Hf.
    destruct (Forall2_lookup_r _ _ _ _ _ Hall Hp) as (k & Hk & Hincr).
    destruct (step_prog_increments k σ p Hincr Hf)
      as (k' & Hincr' & Hlen & new' & Hnew).
    exists (<[i:=k']> ks), (new' ++ new)%list. split_and!.
    + by apply Forall2_insert.
    + by rewrite Hnew, Hcounts, (assoc_L (++)).
    + pose proof (sum_list_insert_eq ks i k k' Hk) as Hins.
      rewrite Hnew, Hcounts in Hlen. rewrite !length_app in Hlen.
      rewrite length_app. lia.
  - exists (replicate (length resources) 1), []. split_and!; [|done|].
    + apply Forall2_lookup. intros j.
      destruct (decide (j < length resources)) as [Hlt|Hge].
      * rewrite lookup_replicate_2 by done.
        rewrite list_lookup_fmap, lookup_seq_lt by done. simpl.
        constructor. apply goroutine_increments.
      * assert (replicate (length resources) 1 !! j = None) as ->
          by (apply lookup_replicate_None; lia).
        rewrite list_lookup_fmap, lookup_seq_ge by lia. constructor.
    + rewrite sum_list_replicate. simpl. lia.
Qed.
End RunInvariants.

Section BatchMore.
Context `{!Constants, !Protobuf, !GoVersion, !Wazero}.
Context {W : Type} `{!World W}.

(** At [wg.Wait] every goroutine has returned. *)
Lemma runGoroutines_all_returned (maxVersion : Version) sched resources
    counts (w : W) :
  NewVersion wamrAotMaxVersion = Some maxVersion →
  Forall (λ p, p = Ret tt) (runGoroutines sched resources counts w).2.
Proof.
  intros Hmax. unfold runGoroutines.
  destruct (run_pool_inv sched (goroutine_steps * length resources) 0 resources
              _ _ _ (pool_inv_init maxVersion Hmax resources counts w))
    as (bounds & (Hr & He & Hp & Hb & Hall) & Hfin).
  { rewrite sum_list_replicate. lia. }
  apply Forall_lookup. intros j p Hj.
  destruct (lookup_lt_is_Some_2 resources j) as [r Hrj].
  { apply lookup_lt_Some in Hj. lia. }
  destruct (Hall j r Hrj) as (p' & s & n & Hp' & _ & _ & Hsafe & _).
  assert (p' = p) as -> by congruence.
  eapply safe_finished; [done|].
  by eapply (proj1 (Forall_lookup _ _) Hfin).
Qed.

Lemma increments_all_returned (ks : list nat) (pool : list (prog unit)) :
  Forall2 increments ks pool → Forall (λ p, p = Ret tt) pool →
  sum_list ks = 0.
Proof.
  induction 1 as [|k p ks pool Hk _ IH]; intros Hret; [done|].
  apply Forall_cons in Hret as [-> Hret]. simpl. rewrite IH by done.
  by inversion Hk.
Qed.

(** X5. A batch increments the conversion counter exactly once for each
    resource, whatever the scheduler decides and whatever the resources
    are: the counter that the call leaves is the one it found with as many
    new entries as there are resources.  The constant [wamrAotMaxVersion]
    is assumed to parse. *)
Theorem batch_counts_each_resource_once (maxVersion : Version) sched
    resources counts (w : W) :
  NewVersion wamrAotMaxVersion = Some maxVersion →
  ∃ resources' err new w',
    MaybeConvertWasmExtensionConfig sched resources counts w
      = Returned resources' err (new ++ counts)%list w' ∧
    length new = length resources.
Proof.
  intros Hmax.
  destruct (MaybeConvert_slots maxVersion Hmax sched resources counts w)
    as (resources' & errs & counts' & w' & Heq & _).
  destruct (runGoroutines_counts sched resources counts w)
    as (ks & new & Hall & Hcounts & Hsum).
  pose proof (runGoroutines_all_returned maxVersion sched resources counts w
                Hmax) as Hret.
  rewrite (increments_all_returned _ _ Hall Hret) in Hsum.
  exists resources', (ErrorOrNil (multierror_Append_nil errs)), new, w'.
  split; [|lia]. rewrite Heq. f_equal.
  unfold MaybeConvertWasmExtensionConfig in Heq.
  destruct (runGoroutines sched resources counts w) as [σ pool].
  simpl in *. destruct (forallb returned pool); [|by destruct (existsb _ _)].
  injection Heq as _ _ <- _. done.
Qed.

(** X6. In a batch, a slot that holds an error holds the resource it was
    given, and a slot whose resource differs from the one given holds no
    error: a resource is replaced only by a conversion that succeeded.
    The constant [wamrAotMaxVersion] is assumed to parse. *)
Theorem failed_resource_left_as_given (maxVersion : Version) sched resources
    counts (w : W) j r :
  NewVersion wamrAotMaxVersion = Some maxVersion →
  resources !! j = Some r →
  let σ := (runGoroutines sched resources counts w).1 in
  (∀ e, st_convertErrs σ !! j = Some (Some e) →
        st_resources σ !! j = Some r) ∧
  (st_resources σ !! j ≠ Some r → st_convertErrs σ !! j = Some None).
Proof.
  intros Hmax Hj σ.
  destruct (MaybeConvert_outcomes maxVersion Hmax sched resources counts w)
    as (resources' & errs & counts' & w' & _ & Hsr & Hse & _ & _ & Hall).
  destruct (Hall j r Hj) as (a & e & Ha & He & Hout).
  subst σ. rewrite Hsr, Hse, Ha, He.
  inversion Hout; subst; split; try done; intros; congruence.
Qed.

(** X7. With a cache whose answers do not depend on the state of the
    world, the resources and the errors that a batch leaves do not depend
    on the scheduler, nor on the counter and the world it starts from.
    The constant [wamrAotMaxVersion] is assumed to parse. *)
Theorem batch_result_independent_of_schedule (maxVersion : Version)
    sched1 sched2 resources counts1 counts2 (w1 w2 : W) :
  NewVersion wamrAotMaxVersion = Some maxVersion →
  answers_stateless (W:=W) →
  ∃ resources' err c1 c2 w1' w2',
    MaybeConvertWasmExtensionConfig sched1 resources counts1 w1
      = Returned resources' err c1 w1' ∧
    MaybeConvertWasmExtensionConfig sched2 resources counts2 w2
      = Returned resources' err c2 w2'.
Proof.
  intros Hmax Hstateless.
  destruct (MaybeConvert_outcomes maxVersion Hmax sched1 resources counts1 w1)
    as (r1 & e1 & c1 & w1' & Heq1 & _ & _ & Hlr1 & Hle1 & Hall1).
  destruct (MaybeConvert_outcomes maxVersion Hmax sched2 resources counts2 w2)
    as (r2 & e2 & c2 & w2' & Heq2 & _ & _ & Hlr2 & Hle2 & Hall2).
  assert (r1 = r2 ∧ e1 = e2) as [-> ->].
  { split; apply list_eq; intros j.
    - destruct (resources !! j) as [r|] eqn:Hj.
      + destruct (Hall1 j r Hj) as (a & e & -> & _ & Ho1).
        destruct (Hall2 j r Hj) as (a' & e' & -> & _ & Ho2).
        by destruct (resource_outcome_functional r a e a' e' Hstateless Ho1 Ho2)
          as [-> _].
      + apply lookup_ge_None in Hj.
        rewrite !(proj2 (lookup_ge_None _ _)) by lia. done.
    - destruct (resources !! j) as [r|] eqn:Hj.
      + destruct (Hall1 j r Hj) as (a & e & _ & -> & Ho1).
        destruct (Hall2 j r Hj) as (a' & e' & _ & -> & Ho2).
        by destruct (resource_outcome_functional r a e a' e' Hstateless Ho1 Ho2)
          as [_ ->].
      + apply lookup_ge_None in Hj.
        rewrite !(proj2 (lookup_ge_None _ _)) by lia. done. }
  by exists r2, (ErrorOrNil (multierror_Append_nil e2)), c1, c2, w1', w2'.
Qed.
End BatchMore.

(** ** Calls of the cache in a batch *)

Section FetchBound.
Context `{!Constants, !Protobuf, !GoVersion, !Wazero}.
Context {W : Type} `{!World W}.

Lemma fetch_bound_mono {A : Type} n m (p : prog A) :
  fetch_bound n p → n ≤ m → fetch_bound m p.
Proof.
  intros Hp. revert m.
  induction Hp as [n a|n|n uri opts k _ IH|n path k _ IH|n tag k _ IH
                  |n i k _ IH|n i a k _ IH|n i e k _ IH]; intros m Hle;
    try (constructor; try intros x; by apply IH).
  destruct m as [|m]; [lia|]. constructor. intros x. apply IH. lia.
Qed.

Lemma fetch_bound_bind {A B : Type} n m (p : prog A) (K : A → prog B) :
  fetch_bound n p → (∀ a, fetch_bound m (K a)) →
  fetch_bound (n + m) (bind p K).
Proof.
  intros Hp HK.
  induction Hp as [n a|n|n uri opts k _ IH|n path k _ IH|n tag k _ IH
                  |n i k _ IH|n i a k _ IH|n i e k _ IH]; simpl;
    try (constructor; try intros x; by apply IH).
  apply (fetch_bound_mono m); [apply HK|lia].
Qed.

Lemma scanCustomSections_fetch_bound sections :
  fetch_bound 0 (scanCustomSections sections).
Proof.
  induction sections as [|name rest IH]; simpl; [constructor|].
  destruct (HasPrefix name wamrAotPrefix).
  - destruct (NewVersion (TrimPrefix name wamrAotPrefix)); [|constructor].
    destruct (NewVersion wamrAotMaxVersion); constructor.
  - destruct (decide (name = wamrAot)); [constructor|done].
Qed.

Lemma convert_fetch_bound ec w :
  fetch_bound 1 (convertWasmConfigFromRemoteToLocal ec w).
Proof.
  pose proof (convert_by_fetchRequest ec w) as Hconv.
  destruct (fetchRequest ec w) as [[uri o]|].
  - destruct Hconv as (vm & vm1 & code & _ & _ & ->).
    constructor. intros [err|f]; [repeat constructor|].
    apply (fetch_bound_bind 0 0).
    + constructor. intros [wasmBinary|]; [|constructor].
      destruct (CustomSectionNames wasmBinary); [|constructor].
      apply scanCustomSections_fetch_bound.
    + intros has. unfold rewriteToLocal.
      destruct (anypb_New_Wasm _); [repeat constructor|].
      destruct (anypb_New_TypedExtensionConfig _); repeat constructor.
  - destruct Hconv as (err & ->). repeat constructor.
Qed.

Lemma goroutine_fetch_bound i : fetch_bound 1 (goroutine i).
Proof.
  unfold goroutine. constructor. intros resource.
  destruct (tryUnmarshal resource) as [err|[[ec w]|]].
  - repeat constructor.
  - apply (fetch_bound_bind 1 0); [apply convert_fetch_bound|].
    intros [err|nec]; repeat constructor.
  - repeat constructor.
Qed.

Lemma step_prog_fetch_bound n (σ : state (W * nat)) (p : prog unit) :
  fetch_bound n p →
  ∃ n', fetch_bound n' (step_prog (World0:=counting_world) σ p).2 ∧
        (st_world (step_prog (World0:=counting_world) σ p).1).2 + n'
          ≤ (st_world σ).2 + n.
Proof.
  intros Hp.
  destruct Hp as [n a|n|n uri opts k Hk|n path k Hk|n tag k Hk
                 |n i k Hk|n i a k Hk|n i e k Hk]; simpl.
  - exists n. split; [constructor|done].
  - exists n. split; [constructor|done].
  - destruct (cache_Get (st_world σ).1 uri opts) as [got w']; simpl.
    exists n. split; [done|lia].
  - by exists n.
  - by exists n.
  - destruct (st_resources σ !! i); simpl;
      (exists n; split; [done || constructor|done]).
  - case_decide; simpl; (exists n; split; [done || constructor|done]).
  - case_decide; simpl; (exists n; split; [done || constructor|done]).
Qed.

Lemma step_prog_forget (σ : state (W * nat)) (p : prog unit) :
  step_prog (forget σ) p
  = (forget (step_prog (World0:=counting_world) σ p).1,
     (step_prog (World0:=counting_world) σ p).2).
Proof.
  destruct p as [a| |uri opts k|path k|tag k|i k|i a k|i e k]; simpl;
    try done.
  - by destruct (cache_Get (st_world σ).1 uri opts) as [got w'].
  - by destruct (st_resources σ !! i).
  - by case_decide.
  - by case_decide.
Qed.

Lemma run_forget sched fuel t (σ : state (W * nat)) pool :
  run sched fuel t (forget σ) pool
  = (forget (run (World0:=counting_world) sched fuel t σ pool).1,
     (run (World0:=counting_world) sched fuel t σ pool).2).
Proof.
  revert t σ pool.
  induction fuel as [|fuel IH]; intros t σ pool; cbn [run]; [done|].
  destruct (runnable pool) as [|i0 rest]; [done|].
  destruct (pool !! _) as [p|]; [|done].
  rewrite step_prog_forget.
  destruct (step_prog (World0:=counting_world) σ p) as [σ' p']. apply IH.
Qed.

(** X8. A batch asks the fetch cache at most once for each resource,
    whatever the scheduler decides: run in a world that counts the calls
    of [cache.Get], it does what it does in the world without the count,
    and the count grows by the number of resources at most. *)
Theorem batch_asks_cache_at_most_once_per_resource sched resources counts
    (w : W) (calls : nat) :
  let counted :=
    runGoroutines (World0:=counting_world) sched resources counts (w, calls) in
  runGoroutines sched resources counts w = (forget counted.1, counted.2) ∧
  calls ≤ (st_world counted.1).2 ≤ calls + length resources.
Proof.
  simpl. split.
  - unfold runGoroutines. by rewrite <- run_forget.
  - unfold runGoroutines.
    cut (∃ ks,
           Forall2 fetch_bound ks
             (run (World0:=counting_world) sched
                (goroutine_steps * length resources) 0
                (mkState (w, calls) counts resources
                   (replicate (length resources) None))
                (goroutine <$> seq 0 (length resources))).2 ∧
           calls ≤ (st_world
             (run (World0:=counting_world) sched
                (goroutine_steps * length resources) 0
                (mkState (w, calls) counts resources
                   (replicate (length resources) None))
                (goroutine <$> seq 0 (length resources))).1).2 ∧
           (st_world
             (run (World0:=counting_world) sched
                (goroutine_steps * length resources) 0
                (mkState (w, calls) counts resources
                   (replicate (length resources) None))
                (goroutine <$> seq 0 (length resources))).1).2 + sum_list ks
           ≤ calls + length resources).
    { intros (ks & _ & Hge & Hle). lia. }
    apply (run_preserves (World0:=counting_world) (λ σ pool, ∃ ks,
             Forall2 fetch_bound ks pool ∧
             calls ≤ (st_world σ).2 ∧
             (st_world σ).2 + sum_list ks ≤ calls + length resources)).
    + intros σ pool i p (ks & Hall & Hge & Hsum) Hp Hf.
      destruct (Forall2_lookup_r _ _ _ _ _ Hall Hp) as (k & Hk & Hbound).
      destruct (step_prog_fetch_bound k σ p Hbound) as (k' & Hbound' & Hle).
      exists (<[i:=k']> ks). split_and!.
      * by apply Forall2_insert.
      * destruct p as [a| |uri opts k0|path k0|tag k0|j k0|j a k0|j e k0];
          simpl in *; try done.
        -- destruct (cache_Get (st_world σ).1 uri opts); simpl. lia.
        -- by destruct (st_resources σ !! j).
        -- by case_decide.
        -- by case_decide.
      * pose proof (sum_list_insert_eq ks i k k' Hk). lia.
    + exists (replicate (length resources) 1). split_and!; [|done|].
      * apply Forall2_lookup. intros j.
        destruct (decide (j < length resources)) as [Hlt|Hge].
        -- rewrite lookup_replicate_2 by done.
           rewrite list_lookup_fmap, lookup_seq_lt by done. simpl.
           constructor. apply goroutine_fetch_bound.
        -- assert (replicate (length resources) 1 !! j = None) as ->
             by (apply lookup_replicate_None; lia).
           rewrite list_lookup_fmap, lookup_seq_ge by lia. constructor.
      * rewrite sum_list_replicate. simpl. lia.
Qed.
End FetchBound.

(** ** From the control plane to the agent *)

Section UpstreamMore.
Context `{!Constants, !Protobuf, !GoVersion, !Wazero}.
Context {W : Type} `{!World W}.

Lemma GetKeyValues_assignKeyValue w k v :
  GetKeyValues (assignKeyValue w k v) = <[k:=v]> <$> GetKeyValues w.
Proof.
  destruct w as [[[name rootId [vm|] conf failOpen]|]]; try done.
  destruct vm as [? ? ? ? ? ? [[hostEnvKeys [kv|]]|]]; done.
Qed.

Lemma GetCode_assignKeyValue w k v :
  GetCode (GetVmConfig (wasm_Config (assignKeyValue w k v)))
  = GetCode (GetVmConfig (wasm_Config w)).
Proof.
  destruct w as [[[name rootId [vm|] conf failOpen]|]]; try done.
Qed.

Lemma Name_assignKeyValue w k v :
  from_option pc_Name "" (wasm_Config (assignKeyValue w k v))
  = from_option pc_Name "" (wasm_Config w).
Proof. by destruct w as [[c|]]. Qed.

Lemma insertedExtensionConfiguration_resolvePullSecret
    (pullSecrets : gmap string (list Byte.byte)) p :
  insertedExtensionConfiguration pullSecrets p
  = mkTypedExtensionConfig (wp_ResourceName p)
      (MessageToAny
         (resolvePullSecret pullSecrets (wp_WasmExtensionConfig p))).
Proof. done. Qed.

(** What the resolution of the pull secret does to the key/value map: the
    secret key, when it holds a name, gets the secret of that name as a
    string, or the empty string when there is no such secret. *)
Lemma GetKeyValues_resolvePullSecret
    (pullSecrets : gmap string (list Byte.byte)) w :
  GetKeyValues (resolvePullSecret pullSecrets w)
  = match map_index (GetKeyValues w) WasmSecretEnv with
    | Some secretName =>
      if decide (secretName = "") then GetKeyValues w
      else <[WasmSecretEnv :=
               from_option string_of_list_byte "" (pullSecrets !! secretName)]>
             <$> GetKeyValues w
    | None => GetKeyValues w
    end.
Proof.
  unfold resolvePullSecret, map_index_default.
  destruct (map_index (GetKeyValues w) WasmSecretEnv) as [secretName|]; simpl.
  - destruct (decide (secretName = "")) as [->|Hne].
    + by destruct (decide ("" ≠ "")).
    + destruct (decide (secretName ≠ "")); [|done].
      destruct (pullSecrets !! secretName); simpl;
        apply GetKeyValues_assignKeyValue.
  - by destruct (decide ("" ≠ "")).
Qed.

Lemma GetCode_resolvePullSecret (pullSecrets : gmap string (list Byte.byte)) w :
  GetCode (GetVmConfig (wasm_Config (resolvePullSecret pullSecrets w)))
  = GetCode (GetVmConfig (wasm_Config w)).
Proof.
  unfold resolvePullSecret. case_decide; [|done].
  destruct (pullSecrets !! _); apply GetCode_assignKeyValue.
Qed.

Lemma Name_resolvePullSecret (pullSecrets : gmap string (list Byte.byte)) w :
  from_option pc_Name "" (wasm_Config (resolvePullSecret pullSecrets w))
  = from_option pc_Name "" (wasm_Config w).
Proof.
  unfold resolvePullSecret. case_decide; [|done].
  destruct (pullSecrets !! _); apply Name_assignKeyValue.
Qed.

(** X9. A pull secret that the control plane resolves reaches the cache of
    the agent.  The Wasm config of a plugin names a secret that is known;
    the message of the config with the secret in place of its name is
    marshalled, and the resource that the agent receives decodes to the
    extension config made for the plugin, its typed config to that Wasm
    config.  Then the extension config carries the marshalled message,
    [tryUnmarshal] hands the two to the conversion, and the conversion
    asks the cache what it would have asked for the original config under
    the name of the plugin, with the bytes of the secret as pull secret;
    except when the secret is empty, which the conversion takes for a
    secret that is missing: it fails without asking the cache.  The three
    internal variables are assumed to have different names. *)
Theorem resolved_pull_secret_reaches_cache
    (pullSecrets : gmap string (list Byte.byte)) p ec0 secretName sec uri o
    typedConfig resource :
  let w' := resolvePullSecret pullSecrets (wp_WasmExtensionConfig p) in
  let ec := insertedExtensionConfiguration pullSecrets p in
  WasmPolicyEnv ≠ WasmSecretEnv →
  WasmResourceVersionEnv ≠ WasmSecretEnv →
  map_index (GetKeyValues (wp_WasmExtensionConfig p)) WasmSecretEnv
    = Some secretName →
  secretName ≠ "" →
  pullSecrets !! secretName = Some sec →
  fetchRequest ec0 (wp_WasmExtensionConfig p) = Some (uri, o) →
  MessageToAny w' = Some typedConfig →
  any_TypeUrl typedConfig = WasmHTTPFilterType →
  UnmarshalTo_Wasm typedConfig = inr w' →
  UnmarshalTo_TypedExtensionConfig resource = inr ec →
  ec = mkTypedExtensionConfig (wp_ResourceName p) (Some typedConfig) ∧
  tryUnmarshal resource = inr (Some (ec, w')) ∧
  if decide (sec = []) then
    fetchRequest ec w' = None ∧
    convertWasmConfigFromRemoteToLocal ec w'
    = Increment fetchFailure
        (Ret (inl (ErrMissingPullSecret
                     (from_option pc_Name ""
                        (wasm_Config (wp_WasmExtensionConfig p))))))
  else
    let o' := {| Checksum := Checksum o;
                 ResourceName := wp_ResourceName p;
                 ResourceVersion := ResourceVersion o;
                 RequestTimeout := RequestTimeout o;
                 PullSecret := sec;
                 opt_PullPolicy := opt_PullPolicy o |} in
    fetchRequest ec w' = Some (uri, o') ∧
    ∃ k, convertWasmConfigFromRemoteToLocal ec w' = CacheGet uri o' k.
Proof.
  intros w' ec Hpolicy Hversion Hname Hne Hsec Hreq Hmsg Hurl Hwasm Hec.
  set (w := wp_WasmExtensionConfig p) in *.
  assert (ec = mkTypedExtensionConfig (wp_ResourceName p) (Some typedConfig))
    as Hinserted.
  { subst ec. rewrite insertedExtensionConfiguration_resolvePullSecret.
    fold w w'. by rewrite Hmsg. }
  pose proof (GetKeyValues_resolvePullSecret pullSecrets w) as Hkv.
  rewrite Hname, decide_False, Hsec in Hkv by done. simpl in Hkv.
  pose proof (GetCode_resolvePullSecret pullSecrets w) as Hcode.
  fold w' in Hkv, Hcode.
  destruct (GetKeyValues w) as [kv|] eqn:Hw; [|done]. simpl in Hkv, Hname.
  assert (map_index (GetKeyValues w') WasmSecretEnv
          = Some (string_of_list_byte sec)) as Hsecret.
  { rewrite Hkv. simpl. apply lookup_insert_eq. }
  assert (∀ k, k ≠ WasmSecretEnv →
            map_index (GetKeyValues w') k = map_index (GetKeyValues w) k)
    as Hother.
  { intros k Hk. rewrite Hkv, Hw. simpl. by apply lookup_insert_ne. }
  unfold fetchRequest in Hreq.
  destruct (GetRemote (GetCode (GetVmConfig (wasm_Config w))))
    as [remote|] eqn:Hremote; [|done].
  destruct (rds_HttpUri remote) as [httpURI|] eqn:Huri; [|done].
  rewrite Hw in Hreq. simpl in Hreq. rewrite Hname in Hreq.
  rewrite decide_False in Hreq by congruence.
  injection Hreq as <- <-.
  assert (ec_Name ec = wp_ResourceName p) as Hecname by by rewrite Hinserted.
  split; [done|]. split.
  { rewrite (tryUnmarshal_wasm_filter resource ec w').
    - by rewrite Hcode, Hremote.
    - split; [done|]. exists typedConfig. rewrite Hinserted.
      split; [done|]. by left. }
  pose proof (convert_by_fetchRequest ec w') as Hconv.
  unfold fetchRequest in Hconv |- *. rewrite Hcode, Hremote, Huri in Hconv |- *.
  rewrite Hsecret in Hconv |- *.
  unfold map_index_default in Hconv |- *.
  rewrite !Hother in Hconv |- * by done. rewrite Hw, Hecname in Hconv |- *.
  simpl in Hconv |- *.
  destruct (decide (sec = [])) as [->|Hsecne].
  - change (string_of_list_byte []) with "" in *.
    rewrite decide_True in Hconv |- * by done. split; [done|].
    destruct Hconv as (err & Hconv).
    unfold convertWasmConfigFromRemoteToLocal in Hconv |- *.
    assert (is_Some (GetVmConfig (wasm_Config w'))) as [vm Hvm].
    { destruct (GetVmConfig (wasm_Config w')); [done|].
      by rewrite <- Hcode in Hremote. }
    rewrite Hvm.
    destruct (readAndStripEnvs_keyValues
                (from_option pc_Name "" (wasm_Config w')) w' vm Hvm)
      as [[_ ->]|[Hno _]]; [|by rewrite Hsecret in Hno].
    subst w'. by rewrite Name_resolvePullSecret.
  - rewrite decide_False in Hconv |- *.
    2,3: intros [= Hempty]; apply Hsecne;
         by rewrite <- (list_byte_of_string_of_list_byte sec), Hempty.
    simpl in Hconv |- *. rewrite list_byte_of_string_of_list_byte in Hconv |- *.
    split; [done|].
    destruct Hconv as (vm & vm1 & code & _ & _ & ->). eauto.
Qed.

(** X10. The resolution of the pull secret changes the value of the
    secret key and nothing else: the key/value map keeps its keys (the
    secret key is not added to a map without it, nor to a config without
    a map), every other key keeps its value, and the code source and the
    name of the plugin are as they were.  A config whose secret key is
    absent or empty is not changed at all. *)
Theorem pull_secret_resolution_frame
    (pullSecrets : gmap string (list Byte.byte)) w :
  (∀ k, is_Some (map_index (GetKeyValues (resolvePullSecret pullSecrets w)) k)
        ↔ is_Some (map_index (GetKeyValues w) k)) ∧
  (∀ k, k ≠ WasmSecretEnv →
        map_index (GetKeyValues (resolvePullSecret pullSecrets w)) k
        = map_index (GetKeyValues w) k) ∧
  GetCode (GetVmConfig (wasm_Config (resolvePullSecret pullSecrets w)))
    = GetCode (GetVmConfig (wasm_Config w)) ∧
  from_option pc_Name "" (wasm_Config (resolvePullSecret pullSecrets w))
    = from_option pc_Name "" (wasm_Config w) ∧
  (map_index_default (GetKeyValues w) WasmSecretEnv = "" →
   resolvePullSecret pullSecrets w = w).
Proof.
  pose proof (GetKeyValues_resolvePullSecret pullSecrets w) as Hkv.
  split_and!.
  - intros k. rewrite Hkv.
    destruct (map_index (GetKeyValues w) WasmSecretEnv) as [name|] eqn:Hname;
      [|done].
    case_decide; [done|].
    destruct (GetKeyValues w) as [kv|]; [|done]. simpl in *.
    destruct (decide (k = WasmSecretEnv)) as [->|Hk].
    + rewrite lookup_insert_eq, Hname. split; eauto.
    + by rewrite lookup_insert_ne.
  - intros k Hk. rewrite Hkv.
    destruct (map_index (GetKeyValues w) WasmSecretEnv) as [name|]; [|done].
    case_decide; [done|].
    destruct (GetKeyValues w) as [kv|]; [|done]. simpl.
    by apply lookup_insert_ne.
  - apply GetCode_resolvePullSecret.
  - apply Name_resolvePullSecret.
  - intros Hempty. unfold resolvePullSecret. by rewrite decide_False by eauto.
Qed.

(** X11. [InsertedExtensionConfigurations] gives an extension config for
    every plugin whose name is asked for, also when the message of its
    Wasm config cannot be marshalled: the config made for such a plugin
    has its name and no typed config.  The agent rejects a resource that
    decodes to it: [tryUnmarshal] returns the error of a missing typed
    config, and in a batch the slot keeps the resource and holds the
    error, which is in the error returned, whatever the scheduler
    decides.  The constant [wamrAotMaxVersion] is assumed to parse. *)
Theorem unmarshallable_plugin_config_rejected (maxVersion : Version)
    (wasmPlugins : list (list WasmPluginWrapper)) (names : list string)
    (pullSecrets : gmap string (list Byte.byte)) p resource :
  let ec := mkTypedExtensionConfig (wp_ResourceName p) None in
  NewVersion wamrAotMaxVersion = Some maxVersion →
  p ∈ concat wasmPlugins →
  wp_ResourceName p ∈ names →
  MessageToAny (resolvePullSecret pullSecrets (wp_WasmExtensionConfig p))
    = None →
  UnmarshalTo_TypedExtensionConfig resource = inr ec →
  insertedExtensionConfiguration pullSecrets p = ec ∧
  ec ∈ InsertedExtensionConfigurations wasmPlugins names pullSecrets ∧
  tryUnmarshal resource = inl (ErrNoTypedConfig ec) ∧
  ∀ sched resources counts (world : W) i,
    resources !! i = Some resource →
    st_resources (runGoroutines sched resources counts world).1 !! i
      = Some resource ∧
    st_convertErrs (runGoroutines sched resources counts world).1 !! i
      = Some (Some (ErrNoTypedConfig ec)) ∧
    ∃ resources' errs counts' world',
      MaybeConvertWasmExtensionConfig sched resources counts world
        = Returned resources' (Some (MultiError errs)) counts' world' ∧
      ErrNoTypedConfig ec ∈ errs.
Proof.
  intros ec Hmax Hp Hname Hmsg Hec.
  assert (insertedExtensionConfiguration pullSecrets p = ec) as Hinserted.
  { rewrite insertedExtensionConfiguration_resolvePullSecret. by rewrite Hmsg. }
  assert (tryUnmarshal resource = inl (ErrNoTypedConfig ec)) as Htry.
  { unfold tryUnmarshal. by rewrite Hec. }
  split_and!; [done| |done|].
  - unfold InsertedExtensionConfigurations. apply list_elem_of_fmap.
    exists p. split; [done|]. by apply list_elem_of_filter.
  - intros sched resources counts world i Hi.
    apply (MaybeConvert_failed_slot maxVersion Hmax); [done|].
    intros a e Hout.
    inversion Hout as [? Htry'|Htry'|? ? ? Htry' _|? ? ? Htry' _]; subst;
      first [split; congruence|congruence].
Qed.
End UpstreamMore.

(** ** Which resources are converted *)

Section Unmarshal.
Context `{!Constants, !Protobuf, !GoVersion, !Wazero}.

Lemma tryUnmarshal_cases resource :
  match tryUnmarshal resource with
  | inr (Some (ec, w)) =>
    decodes_wasm_filter resource ec w ∧
    is_Some (GetRemote (GetCode (GetVmConfig (wasm_Config w))))
  | inr None =>
    ∃ ec, UnmarshalTo_TypedExtensionConfig resource = inr ec ∧
      ((∃ typedConfig, ec_TypedConfig ec = Some typedConfig ∧
          any_TypeUrl typedConfig ≠ WasmHTTPFilterType ∧
          (any_TypeUrl typedConfig ≠ TypedStructType ∨
           ∃ typedStruct,
             UnmarshalTo_TypedStruct typedConfig = inr typedStruct ∧
             ts_TypeUrl typedStruct ≠ WasmHTTPFilterType)) ∨
       (∃ w, decodes_wasm_filter resource ec w ∧
          GetRemote (GetCode (GetVmConfig (wasm_Config w))) = None ∧
          is_Some (GetLocal (GetCode (GetVmConfig (wasm_Config w))))))
  | inl _ => True
  end.
Proof.
  unfold tryUnmarshal.
  destruct (UnmarshalTo_TypedExtensionConfig resource) as [err|ec] eqn:Hec;
    [done|].
  destruct (ec_TypedConfig ec) as [typedConfig|] eqn:Htc; [|done].
  assert (∀ w,
    (any_TypeUrl typedConfig = WasmHTTPFilterType ∧
      UnmarshalTo_Wasm typedConfig = inr w) ∨
     (any_TypeUrl typedConfig ≠ WasmHTTPFilterType ∧
      any_TypeUrl typedConfig = TypedStructType ∧
      ∃ typedStruct, UnmarshalTo_TypedStruct typedConfig = inr typedStruct ∧
        ts_TypeUrl typedStruct = WasmHTTPFilterType ∧
        StructToMessage (ts_Value typedStruct) = Some w) →
    match
      match GetRemote (GetCode (GetVmConfig (wasm_Config w))) with
      | None =>
        match GetLocal (GetCode (GetVmConfig (wasm_Config w))) with
        | None => inl (ErrNoRemoteAndLocal w)
        | Some _ => inr None
        end
      | Some _ => inr (Some (ec, w))
      end
    with
    | inr (Some (ec', w')) =>
      decodes_wasm_filter resource ec' w' ∧
      is_Some (GetRemote (GetCode (GetVmConfig (wasm_Config w'))))
    | inr None =>
      ∃ ec', @inr error TypedExtensionConfig ec = inr ec' ∧
        ((∃ typedConfig', ec_TypedConfig ec' = Some typedConfig' ∧
            any_TypeUrl typedConfig' ≠ WasmHTTPFilterType ∧
            (any_TypeUrl typedConfig' ≠ TypedStructType ∨
             ∃ typedStruct,
               UnmarshalTo_TypedStruct typedConfig' = inr typedStruct ∧
               ts_TypeUrl typedStruct ≠ WasmHTTPFilterType)) ∨
         (∃ w', decodes_wasm_filter resource ec' w' ∧
            GetRemote (GetCode (GetVmConfig (wasm_Config w'))) = None ∧
            is_Some (GetLocal (GetCode (GetVmConfig (wasm_Config w'))))))
    | inl _ => True
    end) as Hwasm.
  { intros w Hdecode.
    assert (decodes_wasm_filter resource ec w) as Hdec.
    { split; [done|]. by exists typedConfig. }
    destruct (GetRemote _) as [remote|] eqn:Hremote; [by rewrite Hremote|].
    destruct (GetLocal _) as [loc|] eqn:Hlocal; [|done].
    exists ec. split; [done|]. right. exists w. rewrite Hlocal. eauto. }
  destruct (decide (any_TypeUrl typedConfig = WasmHTTPFilterType)) as [Hurl|Hurl].
  { destruct (UnmarshalTo_Wasm typedConfig) as [err|w] eqn:Hw; [done|].
    cbv beta iota zeta. apply Hwasm. by left. }
  destruct (decide (any_TypeUrl typedConfig = TypedStructType)) as [Hts|Hts].
  2: { exists ec. split; [done|]. left. exists typedConfig. eauto. }
  destruct (UnmarshalTo_TypedStruct typedConfig) as [err|typedStruct] eqn:Hstruct;
    [done|].
  destruct (decide (ts_TypeUrl typedStruct = WasmHTTPFilterType)) as [Hturl|Hturl].
  2: { exists ec. split; [done|]. left. exists typedConfig.
       split_and!; [done..|]. right. by exists typedStruct. }
  destruct (StructToMessage (ts_Value typedStruct)) as [w|] eqn:Hmsg; [|done].
  cbv beta iota zeta. apply Hwasm. right. split_and!; [done..|]. by exists typedStruct.
Qed.

(** X12. [tryUnmarshal] hands a resource to the conversion exactly when
    the resource decodes to an extension config that holds a Wasm filter,
    directly or in a typed struct, whose code source is remote; what it
    hands over is that extension config and that filter.  It lets a
    resource pass exactly when the resource decodes to an extension
    config whose typed config is of another type (or a typed struct of
    another type), or holds a Wasm filter whose code source is local. *)
Theorem tryUnmarshal_characterised resource :
  (∀ ec w,
     tryUnmarshal resource = inr (Some (ec, w)) ↔
     decodes_wasm_filter resource ec w ∧
     is_Some (GetRemote (GetCode (GetVmConfig (wasm_Config w))))) ∧
  (tryUnmarshal resource = inr None ↔
   ∃ ec, UnmarshalTo_TypedExtensionConfig resource = inr ec ∧
     ((∃ typedConfig, ec_TypedConfig ec = Some typedConfig ∧
         any_TypeUrl typedConfig ≠ WasmHTTPFilterType ∧
         (any_TypeUrl typedConfig ≠ TypedStructType ∨
          ∃ typedStruct,
            UnmarshalTo_TypedStruct typedConfig = inr typedStruct ∧
            ts_TypeUrl typedStruct ≠ WasmHTTPFilterType)) ∨
      (∃ w, decodes_wasm_filter resource ec w ∧
         GetRemote (GetCode (GetVmConfig (wasm_Config w))) = None ∧
         is_Some (GetLocal (GetCode (GetVmConfig (wasm_Config w))))))).
Proof.
  pose proof (tryUnmarshal_cases resource) as Hcases. split.
  - intros ec w. split.
    + intros Htry. by rewrite Htry in Hcases.
    + intros [Hdec [remote Hremote]].
      rewrite (tryUnmarshal_wasm_filter resource ec w Hdec). by rewrite Hremote.
  - split.
    + intros Htry. by rewrite Htry in Hcases.
    + intros (ec & Hec & [(typedConfig & Htc & Hurl & Hother)
                         |(w & Hdec & Hremote & [loc Hlocal])]).
      * by apply (tryUnmarshal_other_filter resource ec typedConfig).
      * rewrite (tryUnmarshal_wasm_filter resource ec w Hdec).
        by rewrite Hremote, Hlocal.
Qed.
End Unmarshal.

(** ** The filter chain *)

Section FilterChainMore.
Context `{!Constants, !Protobuf, !ExtensionCollaborators}.

Lemma foldl_append_filters (filters : list HttpFilter) (exts : list WasmPlugin) :
  foldl (λ filters ext, (filters ++ [toEnvoyHTTPFilter ext])%list) filters exts
  = (filters ++ (toEnvoyHTTPFilter <$> exts))%list.
Proof.
  revert filters. induction exts as [|ext exts IH]; intros filters; simpl.
  - by rewrite app_nil_r.
  - by rewrite IH, <- (assoc_L (++)).
Qed.

Lemma toEnvoyHTTPFilter_Name wasmPlugin :
  hf_Name (toEnvoyHTTPFilter wasmPlugin)
  = wp_ResourceName (wpl_wrapper wasmPlugin).
Proof. unfold toEnvoyHTTPFilter. by case_decide. Qed.

Lemma PopAppend_moves_one_phase_aux (filters : list HttpFilter)
    (filterMap : gmap Z (list WasmPlugin)) (phase : Z) :
  (PopAppend filters filterMap phase).1
    = (filters ++ (toEnvoyHTTPFilter <$> default [] (filterMap !! phase)))%list ∧
  (PopAppend filters filterMap phase).2 !! phase = None ∧
  (∀ phase', phase' ≠ phase →
     (PopAppend filters filterMap phase).2 !! phase' = filterMap !! phase').
Proof.
  unfold PopAppend; simpl. rewrite foldl_append_filters. split_and!.
  - done.
  - apply lookup_delete_eq.
  - intros phase' Hne. by apply lookup_delete_ne.
Qed.

(** X13. [PopAppend] moves the plugins of one phase, and only those, from
    the map to the end of the list: the list is the list given followed
    by one filter for each plugin of the phase, in their order and named
    after them; the phase is no longer in the map, and the other phases
    are as they were; a second call for the same phase changes
    nothing. *)
Theorem PopAppend_moves_one_phase (filters : list HttpFilter)
    (filterMap : gmap Z (list WasmPlugin)) (phase : Z) :
  (PopAppend filters filterMap phase).1
    = (filters ++ (toEnvoyHTTPFilter <$> default [] (filterMap !! phase)))%list ∧
  hf_Name <$> (PopAppend filters filterMap phase).1
    = ((hf_Name <$> filters) ++
       ((λ p, wp_ResourceName (wpl_wrapper p)) <$>
          default [] (filterMap !! phase)))%list ∧
  (PopAppend filters filterMap phase).2 !! phase = None ∧
  (∀ phase', phase' ≠ phase →
     (PopAppend filters filterMap phase).2 !! phase' = filterMap !! phase') ∧
  PopAppend (PopAppend filters filterMap phase).1
    (PopAppend filters filterMap phase).2 phase
  = PopAppend filters filterMap phase.
Proof.
  unfold PopAppend; simpl. rewrite foldl_append_filters. split_and!.
  - done.
  - rewrite fmap_app, <- list_fmap_compose. f_equal.
    apply list_fmap_ext. intros _ p _. apply toEnvoyHTTPFilter_Name.
  - apply lookup_delete_eq.
  - intros phase' Hne. by apply lookup_delete_ne.
  - rewrite lookup_delete_eq. simpl. by rewrite delete_delete_eq.
Qed.

(** X14. Calls of [PopAppend] for different phases, one after the other,
    give the filters of the phases in the order of the calls after the
    list given, and leave in the map the phases that were not asked
    for. *)
Theorem PopAppend_phases_in_call_order (phases : list Z)
    (filters : list HttpFilter) (filterMap : gmap Z (list WasmPlugin)) :
  NoDup phases →
  let popped :=
    foldl (λ acc phase, PopAppend acc.1 acc.2 phase) (filters, filterMap)
      phases in
  popped.1
    = (filters ++
       concat ((λ phase, toEnvoyHTTPFilter <$> default [] (filterMap !! phase))
                 <$> phases))%list ∧
  ∀ phase, popped.2 !! phase
           = if decide (phase ∈ phases) then None else filterMap !! phase.
Proof.
  intros Hnodup. simpl. revert filters filterMap.
  induction Hnodup as [|phase phases Hnotin Hnodup IH];
    intros filters filterMap.
  - simpl. split; [by rewrite app_nil_r|]. done.
  - cbn [foldl fst snd].
    destruct (PopAppend_moves_one_phase_aux filters filterMap phase)
      as (Hone & Hgone & Hothers).
    destruct (PopAppend filters filterMap phase) as [filters' filterMap'].
    simpl in Hone, Hgone, Hothers.
    destruct (IH filters' filterMap') as [Hlist Hmap].
    split.
    + rewrite Hlist, Hone, fmap_cons, concat_cons, <- (assoc_L (++)).
      do 3 f_equal. apply list_fmap_ext. intros j phase' Hin.
      rewrite Hothers; [done|]. intros ->.
      by apply list_elem_of_lookup_2 in Hin.
    + intros phase'. rewrite Hmap.
      destruct (decide (phase' = phase)) as [->|Hne].
      * rewrite decide_False by done. rewrite decide_True by left. done.
      * destruct (decide (phase' ∈ phases)) as [Hin|Hnin].
        -- by rewrite decide_True by (by right).
        -- rewrite decide_False; [by apply Hothers|].
           by intros [?|?]%elem_of_cons.
Qed.
End FilterChainMore.

(** ** A second pass over a converted batch *)

Section SecondPass.
Context `{!Constants, !Protobuf, !GoVersion, !Wazero}.
Context {W : Type} `{!World W}.

(** What a conversion that succeeds has marshalled. *)
Lemma convert_inr_marshalled ec w nec :
  may_return (W:=W) (convertWasmConfigFromRemoteToLocal ec w) (inr nec) →
  ∃ c vm' f typedConfig,
    wasm_Config w = Some c ∧
    vm_Code vm' = Some (AsyncDataSource_Local (DataSource_Filename f)) ∧
    anypb_New_Wasm (withVmConfig w vm') = inr typedConfig ∧
    anypb_New_TypedExtensionConfig
      (mkTypedExtensionConfig (ec_Name ec) (Some typedConfig)) = inr nec.
Proof.
  intros Hret.
  pose proof (convert_by_fetchRequest ec w) as Hconv.
  destruct (fetchRequest ec w) as [[uri o]|].
  2: { destruct Hconv as (err & Hconv). rewrite Hconv in Hret.
       by apply may_return_Increment_Ret in Hret. }
  destruct Hconv as (vm & vm1 & code & Hvm & Hread & Hconv).
  rewrite Hconv in Hret.
  apply may_return_CacheGet_inv in Hret as [w0 Hk].
  destruct (cache_Get w0 uri o).1 as [err|f] eqn:Hgot;
    [by apply may_return_Increment_Ret in Hk|].
  apply may_return_bind_inv in Hk as (has & Hhas & Hk).
  unfold rewriteToLocal in Hk.
  destruct (anypb_New_Wasm _) as [err|typedConfig] eqn:Hwasm;
    [by apply may_return_Increment_Ret in Hk|].
  destruct (anypb_New_TypedExtensionConfig _) as [err|nec'] eqn:Hec;
    [by apply may_return_Increment_Ret in Hk|].
  apply may_return_Increment_Ret in Hk. injection Hk as ->.
  destruct (wasm_Config w) as [c|] eqn:Hc; [|done].
  eexists c, _, f, typedConfig. split; [done|].
  split; [|split; [exact Hwasm|exact Hec]]. done.
Qed.

(** X15. The adapter lets its own results pass.  With a protobuf runtime
    that decodes what it encoded, under the type URL of the Wasm filter
    for a Wasm config, a resource that a conversion returned is not for a
    remote Wasm any more: [tryUnmarshal] gives neither a config to
    convert nor an error for it, and in any batch its slot keeps it with
    no error, whatever the scheduler decides.  The constant
    [wamrAotMaxVersion] is assumed to parse. *)
Theorem converted_resource_passes_next_time (maxVersion : Version) ec w nec :
  NewVersion wamrAotMaxVersion = Some maxVersion →
  (∀ m a, anypb_New_Wasm m = inr a →
          any_TypeUrl a = WasmHTTPFilterType ∧ UnmarshalTo_Wasm a = inr m) →
  (∀ m a, anypb_New_TypedExtensionConfig m = inr a →
          UnmarshalTo_TypedExtensionConfig a = inr m) →
  may_return (W:=W) (convertWasmConfigFromRemoteToLocal ec w) (inr nec) →
  tryUnmarshal nec = inr None ∧
  ∀ sched resources counts (world : W) i,
    resources !! i = Some nec →
    st_resources (runGoroutines sched resources counts world).1 !! i
      = Some nec ∧
    st_convertErrs (runGoroutines sched resources counts world).1 !! i
      = Some None.
Proof.
  intros Hmax Hwasm Hec Hret.
  destruct (convert_inr_marshalled ec w nec Hret)
    as (c & vm' & f & typedConfig & Hc & Hcode & Hnew & Hnec).
  apply Hwasm in Hnew as [Hurl Hdecode]. apply Hec in Hnec.
  assert (tryUnmarshal nec = inr None) as Htry.
  { rewrite (tryUnmarshal_wasm_filter nec
               (mkTypedExtensionConfig (ec_Name ec) (Some typedConfig))
               (withVmConfig w vm')).
    - unfold withVmConfig. rewrite Hc. simpl. by rewrite Hcode.
    - split; [done|]. exists typedConfig. split; [done|]. by left. }
  split; [done|].
  intros sched resources counts world i Hi.
  apply (MaybeConvert_bypassed_slot maxVersion Hmax); [done|].
  intros a e Hout.
  inversion Hout as [? Htry'|Htry'|? ? ? Htry' _|? ? ? Htry' _]; subst;
    first [done|congruence].
Qed.
End SecondPass.

(** ** The allow-all filter *)

Section AllowAll.
Context `{!Constants, !Protobuf, !GoVersion, !Wazero, !ExtensionCollaborators}.
Context {W : Type} `{!World W}.

(** X16. The adapter lets the allow-all filter pass.  With a protobuf
    runtime that decodes the extension config it encoded, and the RBAC
    message under a type URL that is neither the one of the Wasm filter
    nor the one of a typed struct, the resource that
    [createAllowAllFilter] makes is not for a remote Wasm: [tryUnmarshal]
    gives neither a config to convert nor an error for it, and in any
    batch its slot keeps it with no error, whatever the scheduler
    decides.  The constant [wamrAotMaxVersion] is assumed to parse. *)
Theorem allow_all_filter_passes (maxVersion : Version) name a :
  NewVersion wamrAotMaxVersion = Some maxVersion →
  (∀ m a, anypb_New_TypedExtensionConfig m = inr a →
          UnmarshalTo_TypedExtensionConfig a = inr m) →
  any_TypeUrl allowTypedConfig ≠ WasmHTTPFilterType →
  any_TypeUrl allowTypedConfig ≠ TypedStructType →
  createAllowAllFilter name = inr a →
  tryUnmarshal a = inr None ∧
  ∀ sched resources counts (world : W) i,
    resources !! i = Some a →
    st_resources (runGoroutines sched resources counts world).1 !! i
      = Some a ∧
    st_convertErrs (runGoroutines sched resources counts world).1 !! i
      = Some None.
Proof.
  intros Hmax Hec Hwasm Hstruct Hnew. apply Hec in Hnew.
  assert (tryUnmarshal a = inr None) as Htry.
  { apply (tryUnmarshal_other_filter a
             (mkTypedExtensionConfig name (Some allowTypedConfig))
             allowTypedConfig); [done..|by left]. }
  split; [done|].
  intros sched resources counts world i Hi.
  apply (MaybeConvert_bypassed_slot maxVersion Hmax); [done|].
  intros a' e Hout.
  inversion Hout as [? Htry'|Htry'|? ? ? Htry' _|? ? ? Htry' _]; subst;
    first [done|congruence].
Qed.
End AllowAll.

(** ** The second pass on the sample data *)

Module SecondPassExamples.
Import Sample Fixtures.

#[local] Existing Instance constants.
#[local] Existing Instance roundTrip.
#[local] Existing Instance goVersion.
#[local] Existing Instance wazero.
#[local] Existing Instance world.
#[local] Existing Instance extensionCollaborators.

Lemma roundTrip_Wasm (m : Wasm) (a : Any) :
  anypb_New_Wasm m = inr a →
  any_TypeUrl a = WasmHTTPFilterType ∧ UnmarshalTo_Wasm a = inr m.
Proof.
  cbn [anypb_New_Wasm roundTrip]. unfold encode, wasmCodec. cbn [find snd].
  repeat case_bool_decide; subst; intros [= <-]; split; reflexivity.
Qed.

Lemma roundTrip_TypedExtensionConfig (m : TypedExtensionConfig) (a : Any) :
  anypb_New_TypedExtensionConfig m = inr a →
  UnmarshalTo_TypedExtensionConfig a = inr m.
Proof.
  cbn [anypb_New_TypedExtensionConfig roundTrip]. unfold encode, ecCodec.
  cbn [find snd].
  repeat case_bool_decide; subst; intros [= <-]; reflexivity.
Qed.

Example plain_converted :
  run_prog σ0 (convertWasmConfigFromRemoteToLocal ecPlain plainWasm)
  = (mkState 1 [conversionSuccess] [] [], Some (inr (resource "plain-local"))).
Proof. vm_compute. reflexivity. Qed.

Lemma plain_may_be_converted :
  may_return (W:=nat) (convertWasmConfigFromRemoteToLocal ecPlain plainWasm)
    (inr (resource "plain-local")).
Proof.
  destruct (run_prog_may_return 3
              (convertWasmConfigFromRemoteToLocal ecPlain plainWasm) σ0)
    as (σ' & a & Hrun & Hret).
  { by apply (convertWasmConfigFromRemoteToLocal_world_only maxVersion). }
  rewrite plain_converted in Hrun. by injection Hrun as <- <-.
Qed.

Lemma converted_resource_passes_next_time_witness :
  let ec := ecPlain in
  let w := plainWasm in
  let nec := resource "plain-local" in
  NewVersion wamrAotMaxVersion = Some maxVersion ∧
  (∀ m a, anypb_New_Wasm m = inr a →
          any_TypeUrl a = WasmHTTPFilterType ∧ UnmarshalTo_Wasm a = inr m) ∧
  (∀ m a, anypb_New_TypedExtensionConfig m = inr a →
          UnmarshalTo_TypedExtensionConfig a = inr m) ∧
  may_return (W:=nat) (convertWasmConfigFromRemoteToLocal ec w) (inr nec) ∧
  tryUnmarshal nec = inr None ∧
  ∀ sched resources counts (world : nat) i,
    resources !! i = Some nec →
    st_resources (runGoroutines sched resources counts world).1 !! i
      = Some nec ∧
    st_convertErrs (runGoroutines sched resources counts world).1 !! i
      = Some None.
Proof.
  intros ec w nec.
  split; [reflexivity|].
  split; [exact roundTrip_Wasm|].
  split; [exact roundTrip_TypedExtensionConfig|].
  split; [exact plain_may_be_converted|].
  apply (converted_resource_passes_next_time (W:=nat) maxVersion ec w nec).
  - reflexivity.
  - exact roundTrip_Wasm.
  - exact roundTrip_TypedExtensionConfig.
  - exact plain_may_be_converted.
Defined.

Lemma allow_all_filter_passes_witness :
  let name := "allow-all"%string in
  let a := resource "allow-all" in
  NewVersion wamrAotMaxVersion = Some maxVersion ∧
  (∀ m a, anypb_New_TypedExtensionConfig m = inr a →
          UnmarshalTo_TypedExtensionConfig a = inr m) ∧
  any_TypeUrl allowTypedConfig ≠ WasmHTTPFilterType ∧
  any_TypeUrl allowTypedConfig ≠ TypedStructType ∧
  createAllowAllFilter name = inr a ∧
  tryUnmarshal a = inr None ∧
  ∀ sched resources counts (world : nat) i,
    resources !! i = Some a →
    st_resources (runGoroutines sched resources counts world).1 !! i
      = Some a ∧
    st_convertErrs (runGoroutines sched resources counts world).1 !! i
      = Some None.
Proof.
  intros name a.
  split; [reflexivity|].
  split; [exact roundTrip_TypedExtensionConfig|].
  split; [discriminate|]. split; [discriminate|].
  split; [reflexivity|].
  apply (allow_all_filter_passes (W:=nat) maxVersion name a).
  - reflexivity.
  - exact roundTrip_TypedExtensionConfig.
  - discriminate.
  - discriminate.
  - reflexivity.
Defined.
End SecondPassExamples.

(** ** The other properties on the sample data *)

Module MoreExamples.
Import Sample Fixtures.

#[local] Existing Instance constants.
#[local] Existing Instance protobuf.
#[local] Existing Instance goVersion.
#[local] Existing Instance wazero.
#[local] Existing Instance world.
#[local] Existing Instance extensionCollaborators.

Lemma conversion_counted_by_result_witness :
  NewVersion wamrAotMaxVersion = Some maxVersion ∧
  ∃ σ' r,
    run_prog σ0 (convertWasmConfigFromRemoteToLocal ecRemote remoteWasm)
      = (σ', Some r) ∧
    st_counts σ' = statusOf r :: st_counts σ0 ∧
    (statusOf r = conversionSuccess ↔ ∃ nec, r = inr nec) ∧
    st_resources σ' = st_resources σ0 ∧
    st_convertErrs σ' = st_convertErrs σ0.
Proof.
  split; [reflexivity|].
  apply (conversion_counted_by_result (W:=nat) maxVersion ecRemote remoteWasm
           σ0).
  reflexivity.
Defined.

Example unreachable_request :
  fetchRequest ecUnreachable unreachableWasm
  = Some (missingUri,
          {| Checksum := ""; ResourceName := "plugin-u";
             ResourceVersion := ""; RequestTimeout := 5000000000%Z;
             PullSecret := []; opt_PullPolicy := 0%Z |}).
Proof. reflexivity. Qed.

Lemma fetch_failure_reported_witness :
  let ec := ecUnreachable in
  let w := unreachableWasm in
  let uri := missingUri in
  let o := {| Checksum := ""; ResourceName := "plugin-u";
              ResourceVersion := ""; RequestTimeout := 5000000000%Z;
              PullSecret := []; opt_PullPolicy := 0%Z |} in
  let err := LibError "fetch failed" in
  fetchRequest ec w = Some (uri, o) ∧
  cache_Get (st_world σ0) uri o = (inl err, 1) ∧
  run_prog σ0 (convertWasmConfigFromRemoteToLocal ec w)
  = (mkState 1 (fetchFailure :: st_counts σ0) (st_resources σ0)
       (st_convertErrs σ0), Some (inl (ErrCannotFetch uri err))) ∧
  ((∀ w0 : nat, (cache_Get w0 uri o).1 = inl err) →
   ∀ (maxVersion : Version) sched resources counts (world : nat) i resource,
     NewVersion wamrAotMaxVersion = Some maxVersion →
     resources !! i = Some resource →
     tryUnmarshal resource = inr (Some (ec, w)) →
     st_resources (runGoroutines sched resources counts world).1 !! i
       = Some resource ∧
     st_convertErrs (runGoroutines sched resources counts world).1 !! i
       = Some (Some (ErrCannotFetch uri err)) ∧
     ∃ resources' errs counts' world',
       MaybeConvertWasmExtensionConfig sched resources counts world
         = Returned resources' (Some (MultiError errs)) counts' world' ∧
       ErrCannotFetch uri err ∈ errs).
Proof.
  intros ec w uri o err.
  split; [reflexivity|]. split; [reflexivity|].
  apply (fetch_failure_reported (W:=nat) ec w uri o σ0 err 1); reflexivity.
Defined.

Lemma conversion_rewrites_remote_to_local_witness :
  let ec := ecRemote in
  let w := remoteWasm in
  let nec := mkAny TypedExtensionConfigType (payload "ec:plugin-a") in
  may_return (W:=nat) (convertWasmConfigFromRemoteToLocal ec w) (inr nec) ∧
  ∃ uri o f has vm vm' typedConfig,
    fetchRequest ec w = Some (uri, o) ∧
    (∃ w0 : nat, (cache_Get w0 uri o).1 = inr f) ∧
    may_return (W:=nat) (containsWamrAotInCustomSection f) has ∧
    GetVmConfig (wasm_Config w) = Some vm ∧
    anypb_New_Wasm (withVmConfig w vm') = inr typedConfig ∧
    anypb_New_TypedExtensionConfig
      (mkTypedExtensionConfig (ec_Name ec) (Some typedConfig)) = inr nec ∧
    GetVmConfig (wasm_Config (withVmConfig w vm')) = Some vm' ∧
    vm_Code vm' = Some (AsyncDataSource_Local (DataSource_Filename f)) ∧
    vm_Runtime vm' = (if has then wamrRuntime else vm_Runtime vm) ∧
    vm_AllowPrecompiled vm' = (if has then true else vm_AllowPrecompiled vm) ∧
    vm_VmId vm' = vm_VmId vm ∧
    vm_Configuration vm' = vm_Configuration vm ∧
    vm_NackOnCodeCacheMiss vm' = vm_NackOnCodeCacheMiss vm ∧
    pc_Name <$> wasm_Config (withVmConfig w vm') = pc_Name <$> wasm_Config w ∧
    pc_RootId <$> wasm_Config (withVmConfig w vm')
      = pc_RootId <$> wasm_Config w ∧
    pc_Configuration <$> wasm_Config (withVmConfig w vm')
      = pc_Configuration <$> wasm_Config w ∧
    pc_FailOpen <$> wasm_Config (withVmConfig w vm')
      = pc_FailOpen <$> wasm_Config w.
Proof.
  intros ec w nec. split.
  - exact Examples.remote_may_be_converted.
  - apply (conversion_rewrites_remote_to_local (W:=nat) ec w nec).
    exact Examples.remote_may_be_converted.
Defined.

Lemma batch_counts_each_resource_once_witness :
  NewVersion wamrAotMaxVersion = Some maxVersion ∧
  ∃ resources' err new w',
    MaybeConvertWasmExtensionConfig roundRobin batch [noRemoteLoad] 0
      = Returned resources' err (new ++ [noRemoteLoad])%list w' ∧
    length new = length batch.
Proof.
  split; [reflexivity|].
  apply (batch_counts_each_resource_once (W:=nat) maxVersion roundRobin batch
           [noRemoteLoad] 0).
  reflexivity.
Defined.

Lemma failed_resource_left_as_given_witness :
  let j := 6 in
  let r := resource "no-secret" in
  NewVersion wamrAotMaxVersion = Some maxVersion ∧
  batch !! j = Some r ∧
  let σ := (runGoroutines roundRobin batch [] 0).1 in
  (∀ e, st_convertErrs σ !! j = Some (Some e) →
        st_resources σ !! j = Some r) ∧
  (st_resources σ !! j ≠ Some r → st_convertErrs σ !! j = Some None).
Proof.
  intros j r. split; [reflexivity|]. split; [reflexivity|].
  apply (failed_resource_left_as_given (W:=nat) maxVersion roundRobin batch []
           0 j r); reflexivity.
Defined.

Lemma batch_result_independent_of_schedule_witness :
  NewVersion wamrAotMaxVersion = Some maxVersion ∧
  answers_stateless (W:=nat) ∧
  ∃ resources' err c1 c2 w1' w2',
    MaybeConvertWasmExtensionConfig firstRunnable batch [] 0
      = Returned resources' err c1 w1' ∧
    MaybeConvertWasmExtensionConfig roundRobin batch [noRemoteLoad] 3
      = Returned resources' err c2 w2'.
Proof.
  split; [reflexivity|]. split; [exact Examples.sample_answers_stateless|].
  apply (batch_result_independent_of_schedule (W:=nat) maxVersion
           firstRunnable roundRobin batch [] [noRemoteLoad] 0 3).
  - reflexivity.
  - exact Examples.sample_answers_stateless.
Defined.

Lemma PopAppend_phases_in_call_order_witness :
  let phases := [1; 3]%Z in
  NoDup phases ∧
  let popped :=
    foldl (λ acc phase, PopAppend acc.1 acc.2 phase) ([], filterMap) phases in
  popped.1
    = ([] ++
       concat ((λ phase, toEnvoyHTTPFilter <$> default [] (filterMap !! phase))
                 <$> phases))%list ∧
  ∀ phase, popped.2 !! phase
           = if decide (phase ∈ phases) then None else filterMap !! phase.
Proof.
  intros phases.
  assert (NoDup phases) as Hnodup.
  { apply (bool_decide_unpack _). vm_compute. exact I. }
  split; [exact Hnodup|].
  apply (PopAppend_phases_in_call_order phases [] filterMap). exact Hnodup.
Defined.

Example chain_of_sample_plugins :
  hf_Name <$>
    (foldl (λ acc phase, PopAppend acc.1 acc.2 phase) ([], filterMap)
       [1; 3]%Z).1
  = ["authn"; "waf"; "stats"].
Proof. vm_compute. reflexivity. Qed.
End MoreExamples.

(** ** From the control plane to the agent, on the sample data *)

Module UpstreamExamples.
Import Sample Fixtures.

#[local] Existing Instance constants.
#[local] Existing Instance roundTrip.
#[local] Existing Instance goVersion.
#[local] Existing Instance wazero.
#[local] Existing Instance world.

Example waf_request :
  fetchRequest ecRemote remoteWasm
  = Some (moduleUri,
          {| Checksum := ""; ResourceName := "plugin-a";
             ResourceVersion := "7"; RequestTimeout := 5000000000%Z;
             PullSecret := payload "token"; opt_PullPolicy := 2%Z |}).
Proof. vm_compute. reflexivity. Qed.

Example resolved_inserted :
  insertedExtensionConfiguration pullSecrets pluginA
  = mkTypedExtensionConfig "plugin-a" (Some (wasmAny "resolved")).
Proof. vm_compute. reflexivity. Qed.

Lemma resolved_pull_secret_reaches_cache_witness :
  let p := pluginA in
  let ec0 := ecRemote in
  let secretName := "token"%string in
  let sec := payload "s3cr3t" in
  let uri := moduleUri in
  let o := {| Checksum := ""; ResourceName := "plugin-a";
              ResourceVersion := "7"; RequestTimeout := 5000000000%Z;
              PullSecret := payload "token"; opt_PullPolicy := 2%Z |} in
  let typedConfig := wasmAny "resolved" in
  let resource := resource "resolved" in
  let w' := resolvePullSecret pullSecrets (wp_WasmExtensionConfig p) in
  let ec := insertedExtensionConfiguration pullSecrets p in
  WasmPolicyEnv ≠ WasmSecretEnv ∧
  WasmResourceVersionEnv ≠ WasmSecretEnv ∧
  map_index (GetKeyValues (wp_WasmExtensionConfig p)) WasmSecretEnv
    = Some secretName ∧
  secretName ≠ ""%string ∧
  pullSecrets !! secretName = Some sec ∧
  fetchRequest ec0 (wp_WasmExtensionConfig p) = Some (uri, o) ∧
  MessageToAny w' = Some typedConfig ∧
  any_TypeUrl typedConfig = WasmHTTPFilterType ∧
  UnmarshalTo_Wasm typedConfig = inr w' ∧
  UnmarshalTo_TypedExtensionConfig resource = inr ec ∧
  ec = mkTypedExtensionConfig (wp_ResourceName p) (Some typedConfig) ∧
  tryUnmarshal resource = inr (Some (ec, w')) ∧
  if decide (sec = []) then
    fetchRequest ec w' = None ∧
    convertWasmConfigFromRemoteToLocal ec w'
    = Increment fetchFailure
        (Ret (inl (ErrMissingPullSecret
                     (from_option pc_Name ""
                        (wasm_Config (wp_WasmExtensionConfig p))))))
  else
    let o' := {| Checksum := Checksum o;
                 ResourceName := wp_ResourceName p;
                 ResourceVersion := ResourceVersion o;
                 RequestTimeout := RequestTimeout o;
                 PullSecret := sec;
                 opt_PullPolicy := opt_PullPolicy o |} in
    fetchRequest ec w' = Some (uri, o') ∧
    ∃ k, convertWasmConfigFromRemoteToLocal ec w' = CacheGet uri o' k.
Proof.
  intros p ec0 secretName sec uri o typedConfig resource w' ec.
  split; [discriminate|]. split; [discriminate|].
  split; [vm_compute; reflexivity|]. split; [discriminate|].
  split; [vm_compute; reflexivity|]. split; [exact waf_request|].
  split; [vm_compute; reflexivity|]. split; [reflexivity|].
  split; [vm_compute; reflexivity|]. split; [vm_compute; reflexivity|].
  apply (resolved_pull_secret_reaches_cache pullSecrets p ec0 secretName sec
           uri o typedConfig resource).
  - discriminate.
  - discriminate.
  - vm_compute; reflexivity.
  - discriminate.
  - vm_compute; reflexivity.
  - exact waf_request.
  - vm_compute; reflexivity.
  - reflexivity.
  - vm_compute; reflexivity.
  - vm_compute; reflexivity.
Defined.

Example binary_secret_not_marshalled :
  insertedExtensionConfiguration binarySecrets pluginA
  = mkTypedExtensionConfig "plugin-a" None.
Proof. vm_compute. reflexivity. Qed.

Lemma unmarshallable_plugin_config_rejected_witness :
  let wasmPlugins := [[pluginA]] in
  let names := ["plugin-a"]%string in
  let p := pluginA in
  let resource := resource "no-typed-config" in
  let ec := mkTypedExtensionConfig (wp_ResourceName p) None in
  NewVersion wamrAotMaxVersion = Some maxVersion ∧
  p ∈ concat wasmPlugins ∧
  wp_ResourceName p ∈ names ∧
  MessageToAny (resolvePullSecret binarySecrets (wp_WasmExtensionConfig p))
    = None ∧
  UnmarshalTo_TypedExtensionConfig resource = inr ec ∧
  insertedExtensionConfiguration binarySecrets p = ec ∧
  ec ∈ InsertedExtensionConfigurations wasmPlugins names binarySecrets ∧
  tryUnmarshal resource = inl (ErrNoTypedConfig ec) ∧
  ∀ sched resources counts (world : nat) i,
    resources !! i = Some resource →
    st_resources (runGoroutines sched resources counts world).1 !! i
      = Some resource ∧
    st_convertErrs (runGoroutines sched resources counts world).1 !! i
      = Some (Some (ErrNoTypedConfig ec)) ∧
    ∃ resources' errs counts' world',
      MaybeConvertWasmExtensionConfig sched resources counts world
        = Returned resources' (Some (MultiError errs)) counts' world' ∧
      ErrNoTypedConfig ec ∈ errs.
Proof.
  intros wasmPlugins names p resource ec.
  assert (p ∈ concat wasmPlugins) as Hp by (simpl; left).
  assert (wp_ResourceName p ∈ names) as Hname by (simpl; left).
  split; [reflexivity|]. split; [exact Hp|]. split; [exact Hname|].
  split; [vm_compute; reflexivity|]. split; [vm_compute; reflexivity|].
  apply (unmarshallable_plugin_config_rejected (W:=nat) maxVersion wasmPlugins
           names binarySecrets p resource).
  - reflexivity.
  - exact Hp.
  - exact Hname.
  - vm_compute; reflexivity.
  - vm_compute; reflexivity.
Defined.
End UpstreamExamples.

(** ** The fetch coordinator *)

Module CoordinatorFacts.
Import Coordinator.

Section Calls.
Context {N : Type} `{!Transport N}.



Lemma lookup_insert_task (pool : list task) i j t t' :
  pool !! i = Some t →
  <[i:=t']> pool !! j = Some (if decide (j = i) then t' else default t' (pool !! j))
  ∨ (j ≠ i ∧ <[i:=t']> pool !! j = pool !! j).
Proof.
  intros Hi. destruct (decide (j = i)) as [->|Hne].
  - left. apply list_lookup_insert_eq. by eapply lookup_lt_Some.
  - right. split; [done|]. by apply list_lookup_insert_ne.
Qed.














End Calls.

(** *** On the sample network *)

#[local] Existing Instance transport.

Example concurrent_calls :
  resolveAll (arrivalsFirst 3) 0 ∅ Sample.moduleUri "nil"
    [options IfNotPresent; options Always; options Unspecified]
  = (mkState 1
       {[ (Sample.moduleUri, "")
          := "/var/lib/istio/data/u-https://example/module.wasm" ]}
       ∅
       [Some (inr "/var/lib/istio/data/u-https://example/module.wasm")]
       [((Sample.moduleUri, ""), 0)],
     [Returned 0 (inr "/var/lib/istio/data/u-https://example/module.wasm");
      Returned 0 (inr "/var/lib/istio/data/u-https://example/module.wasm");
      Returned 0 (inr "/var/lib/istio/data/u-https://example/module.wasm")]).
Proof. vm_compute. reflexivity. Qed.

Example calls_are_concurrent :
  concurrent (arrivalsFirst 3) 0 ∅ Sample.moduleUri "nil"
    [options IfNotPresent; options Always; options Unspecified].
Proof. exists 3. split; vm_compute; reflexivity. Qed.



Example never_outcome :
  resolveAll (arrivalsFirst 2) 0 ∅ Sample.moduleUri ""
    [options Never; options Never]
  = (mkState 0 ∅ ∅ [Some (inl NotCached)] [],
     [Returned 0 (inl NotCached); Returned 0 (inl NotCached)]).
Proof. vm_compute. reflexivity. Qed.

(** A call that arrives when the request of another has failed and is
    complete starts a request of its own: no error is cached. *)
Example late_call_after_failure :
  resolveAll (λ _, 0) 0 ∅ "https://example/none" ""
    [options IfNotPresent; options IfNotPresent]
  = (mkState 2 ∅ ∅
       [Some (inl (FetchFailure "404 Not Found"));
        Some (inl (FetchFailure "404 Not Found"))]
       [(("https://example/none", ""), 1); (("https://example/none", ""), 0)],
     [Returned 0 (inl (FetchFailure "404 Not Found"));
      Returned 1 (inl (FetchFailure "404 Not Found"))]).
Proof. vm_compute. reflexivity. Qed.
End CoordinatorFacts.
